(** * Caption-driven figure extraction ([src/utils/pdfUtils.ts])

    A shallow embedding of [extractImagesFromPdf] and [mergeLine], and the
    properties of the line reconstruction, caption detection and crop
    inference that the specification states about them.

    Conventions of the embedding:
    - a JavaScript number is modelled twice.  In the first embedding it
      is a rational [Q] and arithmetic is exact; the statements made of
      it do not depend on how a result is rounded.  In the second
      embedding ([Double]) it is an IEEE 754 binary64 value ([F64.t])
      and every operation rounds as the engine does; the statements
      about the outcome of a test against a threshold are made of it;
    - a JavaScript string is its sequence of UTF-16 code units, [list N];
    - a page number is an [N];
    - the PDF engine and the canvas are external: what they return or throw
      for a page is the page's [PageEnv];
    - the function's observable state is the array [extractedFigures], the
      console, and the sequence of pages requested from the engine. *)

From Stdlib Require Import List Bool Arith NArith ZArith QArith Qabs Qminmax.
From Stdlib Require Import String Ascii DecimalString Lia Lqa Permutation.
From Stdlib Require Import Sorted SpecFloat.
Import ListNotations.

Local Open Scope Q_scope.

(* ================================================================== *)
(** ** Numbers *)

Module Num.

(** [a < b] on numbers, as a boolean. *)
Definition ltb (a b : Q) : bool := negb (Qle_bool b a).

(** [a <= b] on numbers, as a boolean. *)
Definition leb (a b : Q) : bool := Qle_bool a b.

(** [Math.abs]. *)
Definition abs (a : Q) : Q := Qabs a.

(** [Math.max(a, b)]. *)
Definition max (a b : Q) : Q := Qmax a b.

(** [Math.min(a, b)]. *)
Definition min (a b : Q) : Q := Qmin a b.

(** [v || d] on a number: [d] when [v] is zero. *)
Definition orElse (v d : Q) : Q := if Qeq_bool v 0 then d else v.

End Num.

(* ================================================================== *)
(** ** Strings *)

Definition jsstring := list N.

(** The code units of an ASCII literal. *)
Definition js (s : string) : jsstring :=
  map N_of_ascii (list_ascii_of_string s).

(** Template-literal rendering of a page number: its decimal digits. *)
Definition numberToString (n : N) : jsstring :=
  js (NilEmpty.string_of_uint (N.to_uint n)).

Module CharClass.

(** [\d]: the ten ASCII digits. *)
Definition digit (c : N) : bool := ((48 <=? c) && (c <=? 57))%N.

(** [\s], which is also the set that [String.prototype.trim] strips:
    WhiteSpace and LineTerminator of ECMAScript. *)
Definition space (c : N) : bool :=
  (((9 <=? c) && (c <=? 13)) || (c =? 32) || (c =? 160) || (c =? 5760)
   || ((8192 <=? c) && (c <=? 8202)) || (c =? 8232) || (c =? 8233)
   || (c =? 8239) || (c =? 8287) || (c =? 12288) || (c =? 65279))%N.

(** [[\.\s]]. *)
Definition dotOrSpace (c : N) : bool := (c =? 46)%N || space c.

(** One ASCII letter under the [i] flag: the letter in either case.
    (Without the [u] flag no code unit above 127 canonicalizes to an
    ASCII letter.) *)
Definition letter (upper : N) (c : N) : bool :=
  ((c =? upper) || (c =? upper + 32))%N.

End CharClass.

(** [s.trim().length > 0]: some code unit of [s] is not white space. *)
Definition hasVisibleText (s : jsstring) : bool :=
  existsb (fun c => negb (CharClass.space c)) s.

(* ================================================================== *)
(** ** Regular expressions

    The fragment of ECMAScript patterns that [captionRegex] uses, matched
    by backtracking with continuations, anchored at the start of the input
    (the pattern begins with [^] and has no [g] flag). *)

Module Regex.

Inductive t : Type :=
| Empty : t
| Char : (N -> bool) -> t            (* one code unit of a class *)
| Seq : t -> t -> t
| Alt : t -> t -> t                  (* [r1|r2], left first *)
| Plus : (N -> bool) -> t            (* greedy [c+] on a class *)
| Group : nat -> t -> t.             (* capturing group number n *)

Definition captures := list (nat * jsstring).

(** A continuation takes the rest of the input, the index in the input
    where it starts, and the captures so far. *)
Definition Cont := jsstring -> nat -> captures -> option captures.

(** Greedy [c*]: take as many as possible, give back one at a time. *)
Fixpoint star (p : N -> bool) (s : jsstring) (i : nat)
    (k : jsstring -> nat -> option captures) : option captures :=
  match s with
  | ch :: s' =>
      if p ch then
        match star p s' (S i) k with
        | Some res => Some res
        | None => k s i
        end
      else k s i
  | [] => k s i
  end.

(** [run r s i c k]: match [r] at index [i], where the input from [i] on
    is [s], then continue with [k]. *)
Fixpoint run (r : t) (s : jsstring) (i : nat) (c : captures) (k : Cont)
  : option captures :=
  match r with
  | Empty => k s i c
  | Char p =>
      match s with
      | ch :: s' => if p ch then k s' (S i) c else None
      | [] => None
      end
  | Seq r1 r2 => run r1 s i c (fun s1 i1 c1 => run r2 s1 i1 c1 k)
  | Alt r1 r2 =>
      match run r1 s i c k with
      | Some res => Some res
      | None => run r2 s i c k
      end
  | Plus p =>
      match s with
      | ch :: s' =>
          if p ch then star p s' (S i) (fun s2 i2 => k s2 i2 c) else None
      | [] => None
      end
  | Group n r1 =>
      run r1 s i c
        (fun s1 i1 c1 => k s1 i1 ((n, firstn (i1 - i) s) :: c1))
  end.

(** [re.exec(s)] / [s.match(re)]: the captures of the match at index 0. *)
Definition exec (r : t) (s : jsstring) : option captures :=
  run r s 0 [] (fun _ _ c => Some c).

(** [re.test(s)]. *)
Definition test (r : t) (s : jsstring) : bool :=
  match exec r s with Some _ => true | None => false end.

(** [match[n]]. *)
Fixpoint group (n : nat) (c : captures) : option jsstring :=
  match c with
  | [] => None
  | (m, v) :: c' => if Nat.eqb m n then Some v else group n c'
  end.

(** A literal word under the [i] flag, given by its upper-case letters. *)
Fixpoint word (upper : jsstring) : t :=
  match upper with
  | [] => Empty
  | u :: rest => Seq (Char (CharClass.letter u)) (word rest)
  end.

End Regex.

(** [/^(Figure|Fig)[\.\s]+(\d+)/i] *)
Definition captionRegex : Regex.t :=
  Regex.Seq
    (Regex.Group 1 (Regex.Alt (Regex.word (js "FIGURE")) (Regex.word (js "FIG"))))
    (Regex.Seq (Regex.Plus CharClass.dotOrSpace)
               (Regex.Group 2 (Regex.Plus CharClass.digit))).

(** The label built from a caption text: [`Figure ${match[2]}`], or [None]
    when [caption.text.match(captionRegex)] is [null]. *)
Definition captionLabel (text : jsstring) : option jsstring :=
  match Regex.exec captionRegex text with
  | None => None
  | Some m =>
      match Regex.group 2 m with
      | Some digits => Some (js "Figure " ++ digits)
      | None => Some (js "Figure undefined")
      end
  end.


(* ================================================================== *)
(** ** [Array.prototype.sort] with a consistent comparator

    For a comparator that orders its arguments consistently the result of
    [sort] is fixed by the language: the stable sorted permutation.
    Insertion from the right computes it. *)

Section Sort.

Context {A : Type} (cmp : A -> A -> Q).

Fixpoint insertSorted (a : A) (l : list A) : list A :=
  match l with
  | [] => [a]
  | b :: l' =>
      if Num.leb (cmp a b) 0 then a :: l else b :: insertSorted a l'
  end.

Definition stableSort (l : list A) : list A :=
  fold_right insertSorted [] l.

End Sort.

(* ================================================================== *)
(** ** Text items and lines *)

(** A text item of the PDF text layer, with the viewport point that
    [viewport.convertToViewportPoint(transform[4], transform[5])] gave. *)
Module RawItem.
Record t : Type := mk
  { str : jsstring;
    vx : Q;
    vy : Q;
    width : Q;       (* PDF space *)
    height : Q }.    (* PDF space *)
End RawItem.

(** [interface TextItemPosition] *)
Module Item.
Record t : Type := mk
  { str : jsstring;
    x : Q;
    y : Q;           (* viewport Y (top) *)
    bottom : Q;      (* viewport Y (bottom / baseline) *)
    width : Q;
    height : Q;
    right : Q }.
End Item.

(** The object that [mergeLine] returns. *)
Module Line.
Record t : Type := mk
  { text : jsstring;
    x : Q;
    y : Q;
    bottom : Q;
    height : Q }.
End Line.

(** [viewport.scale] of [page.getViewport({ scale: 2.0 })]. *)
Definition viewportScale : Q := 2.

(** The callback of [textContent.items.map]. *)
Definition toItem (item : RawItem.t) : Item.t :=
  let w := RawItem.width item * viewportScale in
  let h := Num.orElse (Num.abs (RawItem.height item * viewportScale)) 10 in
  {| Item.str := RawItem.str item;
     Item.x := RawItem.vx item;
     Item.y := RawItem.vy item - h;
     Item.bottom := RawItem.vy item;
     Item.width := w;
     Item.height := h;
     Item.right := RawItem.vx item + w |}.

(** The comparator of [items.sort] in [extractImagesFromPdf]. *)
Definition compareItems (a b : Item.t) : Q :=
  let yDiff := Num.abs (Item.bottom a - Item.bottom b) in
  if Num.ltb yDiff 8 then Item.x a - Item.x b
  else Item.bottom a - Item.bottom b.

(* ------------------------------------------------------------------ *)
(** *** [mergeLine] *)

(** The [for] loop of [mergeLine] from index [i] on: [text] is the string
    built so far, [prev] is [items[i-1]], [rest] is [items[i..]]. *)
Fixpoint mergeLoop (text : jsstring) (prev : Item.t) (rest : list Item.t)
  : jsstring :=
  match rest with
  | [] => text
  | curr :: rest' =>
      let gap := Item.x curr - Item.right prev in
      let text1 := if Num.ltb 5 gap then text ++ js " " else text in
      mergeLoop (text1 ++ Item.str curr) curr rest'
  end.

(** [Math.min(...vs)] and [Math.max(...vs)] of a list with first element
    [v] and further elements [vs]. *)
Definition minOf (v : Q) (vs : list Q) : Q := fold_left Num.min vs v.
Definition maxOf (v : Q) (vs : list Q) : Q := fold_left Num.max vs v.

(** [mergeLine(items)]; [None] is the [TypeError] of [items[0].str] on an
    empty array. *)
Definition mergeLine (items : list Item.t) : option Line.t :=
  match stableSort (fun a b => Item.x a - Item.x b) items with
  | [] => None
  | first :: rest =>
      let text := mergeLoop (Item.str first) first rest in
      let y := minOf (Item.y first) (map Item.y rest) in
      let bottom := maxOf (Item.bottom first) (map Item.bottom rest) in
      Some {| Line.text := text;
              Line.x := Item.x first;
              Line.y := y;
              Line.bottom := bottom;
              Line.height := bottom - y |}
  end.

(* ------------------------------------------------------------------ *)
(** *** Grouping the sorted items into lines *)

(** The state of the [forEach]: the array [lines] and [currentLine]. *)
Definition GroupState : Type := (list Line.t * list Item.t)%type.

(** One call of the [forEach] callback; [None] when [mergeLine] throws. *)
Definition groupStep (st : GroupState) (item : Item.t) : option GroupState :=
  let '(lines, currentLine) := st in
  match rev currentLine with
  | [] => Some (lines, [item])
  | last :: _ =>
      if Num.ltb (Num.abs (Item.bottom item - Item.bottom last)) 8
      then Some (lines, currentLine ++ [item])
      else
        match mergeLine currentLine with
        | Some l => Some (lines ++ [l], [item])
        | None => None
        end
  end.

Fixpoint groupLoop (st : GroupState) (items : list Item.t)
  : option GroupState :=
  match items with
  | [] => Some st
  | item :: rest =>
      match groupStep st item with
      | Some st' => groupLoop st' rest
      | None => None
      end
  end.

(** [if (currentLine.length > 0) lines.push(mergeLine(currentLine))] *)
Definition closeLine (st : GroupState) : option (list Line.t) :=
  let '(lines, currentLine) := st in
  match currentLine with
  | [] => Some lines
  | _ :: _ =>
      match mergeLine currentLine with
      | Some l => Some (lines ++ [l])
      | None => None
      end
  end.

(** Step 2 of the page body, after the sort: the array [lines]. *)
Definition groupLines (items : list Item.t) : option (list Line.t) :=
  match groupLoop ([], []) items with
  | None => None
  | Some st => closeLine st
  end.

(* ================================================================== *)
(** ** Crop region inference (step 5 of the page body) *)

(** [lines.filter(l => l.bottom < cropBottom && l.bottom > 0)], then
    [linesAbove.sort((a, b) => b.bottom - a.bottom)]. *)
Definition linesAbove (lines : list Line.t) (cropBottom : Q) : list Line.t :=
  stableSort (fun a b => Line.bottom b - Line.bottom a)
    (filter (fun l => Num.ltb (Line.bottom l) cropBottom
                      && Num.ltb 0 (Line.bottom l)) lines).

(** [cropTop] after the [if (nearestLine) ... else ...]. *)
Definition initialCropTop (lines : list Line.t) (cropBottom : Q) : Q :=
  match linesAbove lines cropBottom with
  | nearestLine :: _ => Line.bottom nearestLine + 15
  | [] => Num.max 0 (cropBottom - 600)
  end.

(** The sanity check on the window height. *)
Definition minimumWindow (cropBottom cropTop : Q) : Q :=
  if Num.ltb (cropBottom - cropTop) 100
  then Num.max 0 (cropBottom - 450)
  else cropTop.

(** [cropTop] when [cropHeight] is computed. *)
Definition finalCropTop (lines : list Line.t) (cropBottom : Q) : Q :=
  minimumWindow cropBottom (initialCropTop lines cropBottom).

(** [cropBottom] and the final [cropTop] for a caption line. *)
Record CropRegion : Type := mkCropRegion
  { cropTop : Q;
    cropBottom : Q }.

Definition cropHeight (r : CropRegion) : Q := cropBottom r - cropTop r.

Definition cropRegion (lines : list Line.t) (caption : Line.t) : CropRegion :=
  {| cropTop := finalCropTop lines (Line.y caption);
     cropBottom := Line.y caption |}.

(* ================================================================== *)
(** ** The document loop *)

(** The crop that [cropCtx.drawImage(canvas, 0, cropTop, viewport.width,
    cropHeight, ...)] copies from the rendered page.  The data URL of the
    crop canvas is a function of it and stands for it in [src]. *)
Record CropImage : Type := mkCropImage
  { imgPage : N;
    imgTop : Q;
    imgWidth : Q;
    imgHeight : Q }.

(** [interface ExtractedImage] *)
Record ExtractedImage : Type := mkExtractedImage
  { id : jsstring;
    label : jsstring;
    src : CropImage;
    page : N }.

(** What the canvas does for the crop of one caption. *)
Inductive CropOutcome : Type :=
| CropDrawn          (* a 2D context, the crop is drawn and encoded *)
| CropNoContext      (* [cropCanvas.getContext('2d')] is [null] *)
| CropThrows.        (* creating the crop canvas or drawing on it throws;
                        an exception of [toDataURL], after the "Extracted"
                        entry, is [Double.CropEncodeThrows] *)

(** What the PDF engine and the canvas do for one page. *)
Record PageEnv : Type := mkPageEnv
  { (* [pdf.getPage], [page.getTextContent], [page.getViewport] and the
       conversion of the items; [None] when one of them throws *)
    pageItems : option (list RawItem.t);
    viewportWidth : Q;
    viewportHeight : Q;
    (* [canvas.getContext('2d')] of the page canvas is not [null] *)
    pageContext : bool;
    (* the promise of [page.render] resolves *)
    pageRenders : bool;
    (* the crop canvas of the caption at an index of [captionLines] *)
    cropOutcome : nat -> CropOutcome }.

Inductive ConsoleEntry : Type :=
| LogLoaded (numPages : N)
| LogCandidate (pageNum : N) (text : jsstring)
| LogExtracted (label : jsstring) (pageNum : N)
| LogError (pageNum : N).

(** The state that one call of [extractImagesFromPdf] builds up. *)
Record State : Type := mkState
  { extractedFigures : list ExtractedImage;
    console : list ConsoleEntry;
    requested : list N }.      (* the arguments of [pdf.getPage], in order *)

Definition pushFigure (f : ExtractedImage) (st : State) : State :=
  {| extractedFigures := extractedFigures st ++ [f];
     console := console st;
     requested := requested st |}.

Definition consoleWrite (es : list ConsoleEntry) (st : State) : State :=
  {| extractedFigures := extractedFigures st;
     console := console st ++ es;
     requested := requested st |}.

Definition requestPage (pageNum : N) (st : State) : State :=
  {| extractedFigures := extractedFigures st;
     console := console st;
     requested := requested st ++ [pageNum] |}.

(** How a block inside the [try] ends. *)
Inductive Completion : Type :=
| Normal     (* end of the block, or [continue] of the page loop *)
| Thrown.    (* an exception reaches the [catch] *)

(** The object that the crop loop pushes for a caption of page [pageNum]
    with label [lbl] and crop [region]. *)
Definition makeFigure (pageNum : N) (width : Q) (lbl : jsstring)
    (region : CropRegion) : ExtractedImage :=
  {| id := numberToString pageNum ++ js "-" ++ lbl;
     label := lbl;
     src := {| imgPage := pageNum;
               imgTop := cropTop region;
               imgWidth := width;
               imgHeight := cropHeight region |};
     page := pageNum |}.

(** The loop [for (const caption of captionLines)], at index [k]. *)
Fixpoint cropLoop (env : PageEnv) (pageNum : N) (lines : list Line.t)
    (captions : list Line.t) (k : nat) (st : State) : State * Completion :=
  match captions with
  | [] => (st, Normal)
  | caption :: rest =>
      match captionLabel (Line.text caption) with
      | None => cropLoop env pageNum lines rest (S k) st
      | Some label =>
          let region := cropRegion lines caption in
          if Num.leb (cropHeight region) 0
          then cropLoop env pageNum lines rest (S k) st
          else
            match cropOutcome env k with
            | CropThrows => (st, Thrown)
            | CropNoContext => cropLoop env pageNum lines rest (S k) st
            | CropDrawn =>
                let figure :=
                  makeFigure pageNum (viewportWidth env) label region in
                cropLoop env pageNum lines rest (S k)
                  (pushFigure figure
                     (consoleWrite [LogExtracted label pageNum] st))
            end
      end
  end.

(** [lines.filter(l => captionRegex.test(l.text))] *)
Definition captionLines (lines : list Line.t) : list Line.t :=
  filter (fun l => Regex.test captionRegex (Line.text l)) lines.

(** The state when the page loop starts, for a document of [n] pages. *)
Definition initialState (n : nat) : State :=
  {| extractedFigures := [];
     console := [LogLoaded (N.of_nat n)];
     requested := [] |}.

Section Extraction.

(** [items.sort] with [compareItems].  The comparator is not a consistent
    order (closeness of baselines is not transitive), so the order of the
    result is the engine's choice; it is a parameter here. *)
Variable sortItems : (Item.t -> Item.t -> Q) -> list Item.t -> list Item.t.

(** Steps 1 and 2 of the page body: the array [lines]. *)
Definition pageLines (raw : list RawItem.t) : option (list Line.t) :=
  let items :=
    filter (fun i => hasVisibleText (Item.str i)) (map toItem raw) in
  groupLines (sortItems compareItems items).

(** The body of the [try] for one page. *)
Definition pageBody (pageNum : N) (env : PageEnv) (st : State)
  : State * Completion :=
  let st := requestPage pageNum st in
  match pageItems env with
  | None => (st, Thrown)
  | Some raw =>
      match pageLines raw with
      | None => (st, Thrown)
      | Some lines =>
          let captions := captionLines lines in
          let st :=
            consoleWrite
              (map (fun l => LogCandidate pageNum (Line.text l)) captions)
              st in
          match captions with
          | [] => (st, Normal)
          | _ :: _ =>
              if negb (pageContext env) then (st, Normal)
              else if negb (pageRenders env) then (st, Thrown)
              else cropLoop env pageNum lines captions 0 st
          end
      end
  end.

(** One iteration of the page loop: the [try] and its [catch]. *)
Definition processPage (pageNum : N) (env : PageEnv) (st : State) : State :=
  match pageBody pageNum env st with
  | (st', Normal) => st'
  | (st', Thrown) => consoleWrite [LogError pageNum] st'
  end.

(** [for (let pageNum = ...; pageNum <= pdf.numPages; pageNum++)] over
    the pages from [pageNum] on. *)
Fixpoint pageLoop (pageNum : N) (pages : list PageEnv) (st : State) : State :=
  match pages with
  | [] => st
  | env :: rest => pageLoop (pageNum + 1) rest (processPage pageNum env st)
  end.

(** [extractImagesFromPdf] on a loaded document, given by its pages; the
    function returns [extractedFigures] of the final state. *)
Definition extractImagesFromPdf (pdf : list PageEnv) : State :=
  pageLoop 1 pdf (initialState (List.length pdf)).

End Extraction.

(* ================================================================== *)
(** ** Specification-side notions *)

(** Two runs whose baselines are within the line tolerance. *)
Definition sameBaseline (last item : Item.t) : Prop :=
  Qabs (Item.bottom item - Item.bottom last) < 8.

(** [Grouped items groups]: [groups] cuts [items], in order, so that a run
    is in the group of the run before it exactly when their baselines
    differ by less than 8. *)
Inductive Grouped : list Item.t -> list (list Item.t) -> Prop :=
| Grouped_nil : Grouped [] []
| Grouped_one a : Grouped [a] [[a]]
| Grouped_join a b rest g gs :
    sameBaseline a b ->
    Grouped (b :: rest) (g :: gs) ->
    Grouped (a :: b :: rest) ((a :: g) :: gs)
| Grouped_break a b rest gs :
    ~ sameBaseline a b ->
    Grouped (b :: rest) gs ->
    Grouped (a :: b :: rest) ([a] :: gs).

(** The horizontal gap between two consecutive runs of a line. *)
Definition gapBetween (prev curr : Item.t) : Q :=
  Item.x curr - Item.right prev.

(** [Joined prev rest t]: [t] is the text of the runs [rest] that follow
    [prev], each preceded by one space exactly when its gap to the run
    before it exceeds 5. *)
Inductive Joined : Item.t -> list Item.t -> jsstring -> Prop :=
| Joined_end prev : Joined prev [] []
| Joined_space prev curr rest t :
    5 < gapBetween prev curr ->
    Joined curr rest t ->
    Joined prev (curr :: rest) (js " " ++ Item.str curr ++ t)
| Joined_tight prev curr rest t :
    gapBetween prev curr <= 5 ->
    Joined curr rest t ->
    Joined prev (curr :: rest) (Item.str curr ++ t).

(** Runs in left-to-right order. *)
Fixpoint leftToRight (items : list Item.t) : Prop :=
  match items with
  | a :: ((b :: _) as rest) => Item.x a <= Item.x b /\ leftToRight rest
  | _ => True
  end.

(** A line is a candidate "text above" for a crop bottom. *)
Definition isAbove (cropBottom : Q) (l : Line.t) : Prop :=
  0 < Line.bottom l /\ Line.bottom l < cropBottom.

(** A string of one or more decimal digits. *)
Definition isNumeral (ds : jsstring) : Prop :=
  ds <> [] /\ Forall (fun c => CharClass.digit c = true) ds.

(** The next code unit, if any, is not a digit. *)
Definition noDigitAhead (rest : jsstring) : Prop :=
  match rest with
  | [] => True
  | c :: _ => CharClass.digit c = false
  end.

(** The caption text variants of the specification. *)
Definition captionVariants : list jsstring :=
  [js "Figure 1"; js "Fig. 1"; js "fig 1"; js "FIGURE.1"].

Section DocumentSpec.

Variable sortItems : (Item.t -> Item.t -> Q) -> list Item.t -> list Item.t.

(** The figures that a page yields when it is processed as page
    [pageNum], on its own. *)
Definition pageFigures (pageNum : N) (env : PageEnv) : list ExtractedImage :=
  extractedFigures (processPage sortItems pageNum env (initialState 0)).

(** The figures of consecutive pages numbered from [pageNum]. *)
Fixpoint figuresFrom (pageNum : N) (pages : list PageEnv)
  : list ExtractedImage :=
  match pages with
  | [] => []
  | env :: rest => pageFigures pageNum env ++ figuresFrom (pageNum + 1) rest
  end.

(** The page numbers [pageNum], [pageNum + 1], ... of [n] pages. *)
Fixpoint pageNumbers (pageNum : N) (n : nat) : list N :=
  match n with
  | O => []
  | S n' => pageNum :: pageNumbers (pageNum + 1) n'
  end.

End DocumentSpec.

(** The same page with another viewport height. *)
Definition withViewportHeight (h : Q) (env : PageEnv) : PageEnv :=
  {| pageItems := pageItems env;
     viewportWidth := viewportWidth env;
     viewportHeight := h;
     pageContext := pageContext env;
     pageRenders := pageRenders env;
     cropOutcome := cropOutcome env |}.

(** A page on which text extraction, the acquisition of the page canvas
    context, or the render fails. *)
Definition pageFails (env : PageEnv) : Prop :=
  pageItems env = None \/ pageContext env = false \/ pageRenders env = false.

(** A figure as the crop loop builds it for a caption of a page. *)
Definition builtFrom (pageNum : N) (width : Q) (lines : list Line.t)
    (caption : Line.t) (f : ExtractedImage) : Prop :=
  exists lbl,
    captionLabel (Line.text caption) = Some lbl
    /\ 0 < cropHeight (cropRegion lines caption)
    /\ f = makeFigure pageNum width lbl (cropRegion lines caption).

(** The figure that a caption line gets when its crop canvas can be drawn
    and encoded, if it gets one. *)
Definition captionFigure (pageNum : N) (width : Q) (lines : list Line.t)
    (caption : Line.t) : list ExtractedImage :=
  match captionLabel (Line.text caption) with
  | None => []
  | Some lbl =>
      if Num.leb (cropHeight (cropRegion lines caption)) 0 then []
      else [makeFigure pageNum width lbl (cropRegion lines caption)]
  end.

(** A page whose canvases all work: the page canvas has a context, the
    render succeeds, and every crop is drawn. *)
Definition canvasWorks (env : PageEnv) : Prop :=
  pageContext env = true
  /\ pageRenders env = true
  /\ forall k, cropOutcome env k = CropDrawn.

(** A figure that some caption line of some page accounts for. *)
Definition wellBuilt (f : ExtractedImage) : Prop :=
  exists pageNum width lines caption, builtFrom pageNum width lines caption f.

(* ================================================================== *)
(** ** Sample inputs *)

Module Sample.

Definition line (text : string) (y bottom : Q) : Line.t :=
  {| Line.text := js text;
     Line.x := 72;
     Line.y := y;
     Line.bottom := bottom;
     Line.height := bottom - y |}.

(** A run of font size 6 (12 viewport units high). *)
Definition run (text : string) (x baseline width : Q) : RawItem.t :=
  {| RawItem.str := js text;
     RawItem.vx := x;
     RawItem.vy := baseline;
     RawItem.width := width;
     RawItem.height := 6 |}.

(** A paragraph line ending at 300 and a caption starting at 500. *)
Definition intro : Line.t := line "Intro text" 288 300.
Definition caption : Line.t := line "Figure 1: results" 500 512.
Definition lines : list Line.t := [intro; caption].

(** A caption at 200 with nothing above it. *)
Definition loneCaption : Line.t := line "Fig. 2 Setup" 200 212.


(** The runs "Fig", "ure" (2 units further) and "1:" (6 units further)
    on one baseline. *)
Definition fig : Item.t := toItem (run "Fig" 72 512 10).
Definition ure : Item.t := toItem (run "ure" 94 512 10).
Definition one : Item.t := toItem (run "1:" 120 512 6).

Definition goodPage : PageEnv :=
  {| pageItems := Some [run "Intro text" 72 300 40;
                        run "Figure 1: results" 72 512 60];
     viewportWidth := 1224;
     viewportHeight := 1584;
     pageContext := true;
     pageRenders := true;
     cropOutcome := fun _ => CropDrawn |}.

(** The same page when its render fails. *)
Definition unrenderedPage : PageEnv :=
  {| pageItems := pageItems goodPage;
     viewportWidth := 1224;
     viewportHeight := 1584;
     pageContext := true;
     pageRenders := false;
     cropOutcome := fun _ => CropDrawn |}.

(** The figure of [goodPage] as page 1. *)
Definition figure1 : ExtractedImage :=
  {| id := js "1-Figure 1";
     label := js "Figure 1";
     src := {| imgPage := 1; imgTop := 315;
               imgWidth := 1224; imgHeight := 185 |};
     page := 1 |}.

(** A page with two caption lines for figure 1. *)
Definition twinCaptionPage : PageEnv :=
  {| pageItems := Some [run "Figure 1: overview" 72 300 60;
                        run "Fig. 1 (continued)" 72 700 60];
     viewportWidth := 1224;
     viewportHeight := 1584;
     pageContext := true;
     pageRenders := true;
     cropOutcome := fun _ => CropDrawn |}.

Definition twinLines : list Line.t :=
  [line "Figure 1: overview" 288 300; line "Fig. 1 (continued)" 688 700].

(** An engine whose [sort] is the stable insertion sort. *)
Definition sortItems : (Item.t -> Item.t -> Q) -> list Item.t -> list Item.t :=
  @stableSort Item.t.

End Sample.

(* ================================================================== *)
(** ** Further notions for the line reconstruction and the console *)

(** A string without its U+0020 code units. *)
Definition withoutSpaces (s : jsstring) : jsstring :=
  filter (fun c => negb (c =? 32)%N) s.

(** The texts of runs, one after the other. *)
Definition runTexts (items : list Item.t) : jsstring :=
  List.concat (map Item.str items).

(** The "Extracted ..." entries of a console, as label and page. *)
Fixpoint extractedLog (es : list ConsoleEntry) : list (jsstring * N) :=
  match es with
  | [] => []
  | LogExtracted lbl pageNum :: es' => (lbl, pageNum) :: extractedLog es'
  | _ :: es' => extractedLog es'
  end.

(** The pages for which [console.error] was called. *)
Fixpoint errorLog (es : list ConsoleEntry) : list N :=
  match es with
  | [] => []
  | LogError pageNum :: es' => pageNum :: errorLog es'
  | _ :: es' => errorLog es'
  end.

(** What a part of the run adds to the state. *)
Record Added : Type := mkAdded
  { addedFigures : list ExtractedImage;
    addedEntries : list ConsoleEntry }.

(** The state after page [pageNum] was requested and [add] was added. *)
Definition extend (st : State) (pageNum : N) (add : Added) : State :=
  {| extractedFigures := extractedFigures st ++ addedFigures add;
     console := console st ++ addedEntries add;
     requested := requested st ++ [pageNum] |}.

(** A state with nothing in it. *)
Definition emptyState : State :=
  {| extractedFigures := []; console := []; requested := [] |}.

(** What processing a page as page [pageNum] adds, read off a run from
    the empty state. *)
Definition pageAdded
    (sortItems : (Item.t -> Item.t -> Q) -> list Item.t -> list Item.t)
    (pageNum : N) (env : PageEnv) : Added :=
  let st := processPage sortItems pageNum env emptyState in
  {| addedFigures := extractedFigures st; addedEntries := console st |}.

(** Something on the page throws inside the [try]: text extraction, the
    render, or a crop. *)
Definition somethingThrows (env : PageEnv) : Prop :=
  pageItems env = None
  \/ pageRenders env = false
  \/ exists k, cropOutcome env k = CropThrows.

(** An engine's [sort] returns only elements of the array it sorts. *)
Definition sortKeepsElements
    (sortItems : (Item.t -> Item.t -> Q) -> list Item.t -> list Item.t) : Prop :=
  forall cmp l i, In i (sortItems cmp l) -> In i l.

(** Further sample inputs. *)
Module Fixture.

(** Three runs that [compareItems] orders in a cycle-breaking way: each
    is close to the next, the first and the last are 10 apart. *)
Definition low : Item.t := toItem (Sample.run "a" 0 10 4).
Definition mid : Item.t := toItem (Sample.run "b" 10 5 4).
Definition high : Item.t := toItem (Sample.run "c" 20 0 4).


(** A page of prose only. *)
Definition prosePage : PageEnv :=
  {| pageItems := Some [Sample.run "Intro text" 72 300 40;
                        Sample.run "More text" 72 330 40];
     viewportWidth := 1224;
     viewportHeight := 1584;
     pageContext := false;
     pageRenders := false;
     cropOutcome := fun _ => CropThrows |}.

(** A page whose text cannot be extracted. *)
Definition unreadablePage : PageEnv :=
  {| pageItems := None;
     viewportWidth := 1224;
     viewportHeight := 1584;
     pageContext := true;
     pageRenders := true;
     cropOutcome := fun _ => CropDrawn |}.

End Fixture.

(* ================================================================== *)
(** ** The caller: [handleFileChange] and [handleProcess] of the
    application component

    The component keeps its state in [useState] cells; a handler is given
    by the sequence of the writes that one call of it makes, in order.
    [handleProcess] awaits between its writes, and the file input stays
    enabled, so the writes of another call can come in between: the
    statements below are about the writes of one call, and [after] is the
    state when nothing comes in between.  The file type and the article
    type are parameters.  What the handler awaits is given by a [Run]. *)

Module App.

(** [enum ProcessingState] *)
Inductive ProcessingState : Type :=
| IDLE | READING | GENERATING | COMPLETE | ERROR.

Section Handlers.

Context {File Article : Type}.

Variable sortItems : (Item.t -> Item.t -> Q) -> list Item.t -> list Item.t.

(** The cells that the two handlers write. *)
Record State : Type := mkState
  { file : option File;
    status : ProcessingState;
    statusMessage : jsstring;
    article : option Article;
    extractedImages : list ExtractedImage;
    coverImageUrl : option jsstring;
    editablePrompt : jsstring }.

(** A write to a cell, or a call of the console. *)
Inductive Event : Type :=
| SetFile (f : File)
| SetStatus (s : ProcessingState)
| SetStatusMessage (m : jsstring)
| SetArticle (a : option Article)
| SetCoverImageUrl (u : option jsstring)
| SetExtractedImages (images : list ExtractedImage)
| SetEditablePrompt (p : jsstring)
| ConsoleLog (images : list ExtractedImage)
| ConsoleWarn
| ConsoleError.

Definition apply (st : State) (e : Event) : State :=
  match e with
  | SetFile f =>
      mkState (Some f) (status st) (statusMessage st) (article st)
        (extractedImages st) (coverImageUrl st) (editablePrompt st)
  | SetStatus s =>
      mkState (file st) s (statusMessage st) (article st)
        (extractedImages st) (coverImageUrl st) (editablePrompt st)
  | SetStatusMessage m =>
      mkState (file st) (status st) m (article st)
        (extractedImages st) (coverImageUrl st) (editablePrompt st)
  | SetArticle a =>
      mkState (file st) (status st) (statusMessage st) a
        (extractedImages st) (coverImageUrl st) (editablePrompt st)
  | SetCoverImageUrl u =>
      mkState (file st) (status st) (statusMessage st) (article st)
        (extractedImages st) u (editablePrompt st)
  | SetExtractedImages images =>
      mkState (file st) (status st) (statusMessage st) (article st)
        images (coverImageUrl st) (editablePrompt st)
  | SetEditablePrompt p =>
      mkState (file st) (status st) (statusMessage st) (article st)
        (extractedImages st) (coverImageUrl st) p
  | ConsoleLog _ | ConsoleWarn | ConsoleError => st
  end.

(** The state after a sequence of events. *)
Definition after (st : State) (events : list Event) : State :=
  fold_left apply events st.

(** What the awaited calls of one [handleProcess] do. *)
Record Run : Type := mkRun
  { (* the pages of the document; [None] when reading the file or opening
       the document throws in [extractImagesFromPdf] *)
    document : option (list PageEnv);
    (* [fileToBase64(file)]; [None] when it rejects *)
    base64 : option jsstring;
    (* the messages that [generateArticleFromPdf] passes to its callback *)
    progress : list jsstring;
    (* its result; [None] when it rejects *)
    generated : option Article }.

(** [handleFileChange]; [picked] is [e.target.files[0]], if there is one. *)
Definition handleFileChange (picked : option File) : list Event :=
  match picked with
  | None => []
  | Some f =>
      [SetFile f; SetStatus IDLE; SetArticle None; SetCoverImageUrl None;
       SetExtractedImages []; SetEditablePrompt []]
  end.

Definition scanningMessage : jsstring :=
  js "Scanning PDF for Figures (Figure 1, Figure 2...)...".

Definition noCaptionsMessage : jsstring :=
  js "No captions found (e.g. 'Figure 1'). Proceeding with text only...".

(** [`Found ${images.length} figures! Analyzing text...`] *)
Definition foundMessage (n : nat) : jsstring :=
  js "Found " ++ numberToString (N.of_nat n) ++ js " figures! Analyzing text...".

Definition skippedMessage : jsstring :=
  js "Figure extraction skipped due to error. Analyzing text...".

Definition failedMessage : jsstring :=
  js "Failed to process PDF. Please try again.".

(** The outer [catch]. *)
Definition failure : list Event :=
  [ConsoleError; SetStatus ERROR; SetStatusMessage failedMessage].

(** The inner [try] and its [catch]: step 1, the figures. *)
Definition extractionStep (run : Run) : list Event :=
  match document run with
  | Some pdf =>
      let images := extractedFigures (extractImagesFromPdf sortItems pdf) in
      [ConsoleLog images; SetExtractedImages images;
       SetStatusMessage
         (match images with
          | [] => noCaptionsMessage
          | _ :: _ => foundMessage (List.length images)
          end)]
  | None => [ConsoleWarn; SetStatusMessage skippedMessage]
  end.

(** Step 2, the article. *)
Definition generationStep (run : Run) : list Event :=
  match base64 run with
  | None => failure
  | Some _ =>
      [SetStatus GENERATING]
      ++ map SetStatusMessage (progress run)
      ++ match generated run with
         | Some a => [SetArticle (Some a); SetStatus COMPLETE]
         | None => failure
         end
  end.

(** [handleProcess], called in state [st]. *)
Definition handleProcess (st : State) (run : Run) : list Event :=
  match file st with
  | None => []
  | Some _ =>
      [SetStatus READING; SetStatusMessage scanningMessage]
      ++ extractionStep run
      ++ generationStep run
  end.

(** The statuses written by a sequence of events, in order. *)
Fixpoint statuses (events : list Event) : list ProcessingState :=
  match events with
  | [] => []
  | SetStatus s :: es => s :: statuses es
  | _ :: es => statuses es
  end.

(** The figure lists written by a sequence of events, in order. *)
Fixpoint imagesWritten (events : list Event) : list (list ExtractedImage) :=
  match events with
  | [] => []
  | SetExtractedImages images :: es => images :: imagesWritten es
  | _ :: es => imagesWritten es
  end.

End Handlers.

End App.

(* ================================================================== *)
(** ** The consumer: [getMatchingFigure] of the article renderer *)

Module Renderer.

(** [s.startsWith(p)] *)
Fixpoint startsWith (p s : jsstring) : bool :=
  match p, s with
  | [], _ => true
  | _ :: _, [] => false
  | a :: p', b :: s' => (a =? b)%N && startsWith p' s'
  end.

(** [s.includes(sub)] *)
Fixpoint includes (s sub : jsstring) : bool :=
  startsWith sub s
  || match s with
     | [] => false
     | _ :: s' => includes s' sub
     end.

(** [s.replace('.', '')]: the first full stop is removed. *)
Fixpoint removeFirstDot (s : jsstring) : jsstring :=
  match s with
  | [] => []
  | c :: s' => if (c =? 46)%N then s' else c :: removeFirstDot s'
  end.

Fixpoint trimStart (s : jsstring) : jsstring :=
  match s with
  | [] => []
  | c :: s' => if CharClass.space c then trimStart s' else s
  end.

(** [s.trim()] *)
Definition trim (s : jsstring) : jsstring :=
  rev (trimStart (rev (trimStart s))).

(** [toLowerCase] on a code unit below 128. *)
Definition asciiLower (c : N) : N :=
  if ((65 <=? c) && (c <=? 90))%N then (c + 32)%N else c.

(** What [getMatchingFigure] returns. *)
Inductive Lookup : Type :=
| Null                               (* [null]: no label *)
| Undefined                          (* [undefined]: [find] found nothing *)
| Found (img : ExtractedImage).

Section Matching.

(** [String.prototype.toLowerCase], a function of the environment. *)
Variable toLowerCase : jsstring -> jsstring.

(** [label.toLowerCase().replace('.', '').trim()] *)
Definition normalize (label : jsstring) : jsstring :=
  trim (removeFirstDot (toLowerCase label)).

(** The callback of [extractedImages.find]. *)
Definition matches (normalized : jsstring) (img : ExtractedImage) : bool :=
  includes (toLowerCase (label img)) normalized
  || includes normalized (toLowerCase (label img)).

(** [getMatchingFigure(label)]; [None] is [undefined], and the empty
    string is the other value for which [!label] holds. *)
Definition getMatchingFigure (extractedImages : list ExtractedImage)
    (label : option jsstring) : Lookup :=
  match label with
  | None | Some [] => Null
  | Some l =>
      match find (matches (normalize l)) extractedImages with
      | Some img => Found img
      | None => Undefined
      end
  end.

End Matching.

(** [toLowerCase] maps a string of code units below 128 unit by unit. *)
Definition lowersAscii (toLowerCase : jsstring -> jsstring) : Prop :=
  forall s, Forall (fun c => (c < 128)%N) s -> toLowerCase s = map asciiLower s.

End Renderer.

(* ================================================================== *)
(** ** The shape of a caption line *)

(** The next code unit, if any, is not in the class. *)
Definition stopsAt (p : N -> bool) (s : jsstring) : Prop :=
  match s with
  | [] => True
  | c :: _ => p c = false
  end.

(** The word "Figure" or the word "Fig", each letter in either case. *)
Definition isKeyword (kw : jsstring) : Prop :=
  Forall2 (fun u c => CharClass.letter u c = true) (js "FIGURE") kw
  \/ Forall2 (fun u c => CharClass.letter u c = true) (js "FIG") kw.

(** [captionShape text ds]: [text] is a keyword, then one or more full
    stops or white-space code units, then the numeral [ds], then anything
    that does not go on with a digit. *)
Definition captionShape (text ds : jsstring) : Prop :=
  exists kw seps rest,
    text = kw ++ seps ++ ds ++ rest
    /\ isKeyword kw
    /\ seps <> []
    /\ Forall (fun c => CharClass.dotOrSpace c = true) seps
    /\ isNumeral ds
    /\ noDigitAhead rest.

(** A run without a code unit that is not white space. *)
Definition isBlank (r : RawItem.t) : Prop :=
  hasVisibleText (RawItem.str r) = false.

(** Sample inputs for the caller and the consumer. *)
Module Demo.

(** The line merged from [Sample.fig], [Sample.ure] and [Sample.one]. *)
Definition figLine : Line.t :=
  {| Line.text := js "Figure 1:";
     Line.x := 72;
     Line.y := 500;
     Line.bottom := 512;
     Line.height := 12 |}.

(** An engine whose [toLowerCase] maps every code unit by itself. *)
Definition toLowerCase (s : jsstring) : jsstring := map Renderer.asciiLower s.

(** Figures labelled "Figure 1" and "Figure 12". *)
Definition figure12 : ExtractedImage :=
  {| id := js "4-Figure 12";
     label := js "Figure 12";
     src := {| imgPage := 4; imgTop := 100;
               imgWidth := 1224; imgHeight := 300 |};
     page := 4 |}.

(** The component with a file chosen (files and articles are numbered)
    and a figure left from an earlier run. *)
Definition chosen : @App.State nat nat :=
  {| App.file := Some 1%nat;
     App.status := App.IDLE;
     App.statusMessage := [];
     App.article := None;
     App.extractedImages := [figure12];
     App.coverImageUrl := None;
     App.editablePrompt := [] |}.

(** A run in which the document cannot be opened and the rest works. *)
Definition unopenedRun : @App.Run nat :=
  {| App.document := None;
     App.base64 := Some (js "JVBERi0=");
     App.progress := [js "Deep reading with Gemini 3 Pro (Academic Mode)..."];
     App.generated := Some 7%nat |}.

End Demo.

(* ================================================================== *)
(** ** Numbers as the engine holds them: IEEE 754 binary64 *)

Module F64.

(** A JavaScript number: a zero, an infinity, NaN, or a finite value
    [(-1)^s * m * 2^e] (Stdlib's specification of IEEE 754 floats). *)
Definition t : Type := spec_float.

Definition prec : Z := 53.
Definition emax : Z := 1024.

(** The number that an integer literal denotes. *)
Definition ofZ (z : Z) : t := binary_normalize prec emax z 0 false.

(** [a + b], [a - b], [a * b] and [a / b]: the exact result rounded to
    the nearest binary64 value, ties to even. *)
Definition add (a b : t) : t := SFadd prec emax a b.
Definition sub (a b : t) : t := SFsub prec emax a b.
Definition mul (a b : t) : t := SFmul prec emax a b.
Definition div (a b : t) : t := SFdiv prec emax a b.

(** The number that a decimal literal with value [n / d] denotes, for
    integers [n] and [d] that binary64 holds exactly: the binary64 value
    nearest to the quotient. *)
Definition ratio (n d : Z) : t := div (ofZ n) (ofZ d).

(** [a < b] and [a <= b]: false when either side is NaN. *)
Definition ltb (a b : t) : bool := SFltb a b.
Definition leb (a b : t) : bool := SFleb a b.

(** [Math.abs]. *)
Definition abs (a : t) : t := SFabs a.

(** [Math.max(a, b)]: NaN when either is NaN; +0 counts as above -0. *)
Definition max (a b : t) : t :=
  match SFcompare a b with
  | None => S754_nan
  | Some Lt => b
  | Some Gt => a
  | Some Eq => match a with S754_zero true => b | _ => a end
  end.

(** [Math.min(a, b)]: NaN when either is NaN; -0 counts as below +0. *)
Definition min (a b : t) : t :=
  match SFcompare a b with
  | None => S754_nan
  | Some Lt => a
  | Some Gt => b
  | Some Eq => match a with S754_zero false => b | _ => a end
  end.

(** [v || d] on a number: [d] when [v] is +0, -0 or NaN. *)
Definition orElse (v d : t) : t :=
  match v with
  | S754_zero _ | S754_nan => d
  | _ => v
  end.

(** The sign that a rounded result carries, when it has one. *)
Definition signed (s : bool) (r : t) : Prop :=
  match r with
  | S754_zero s' | S754_infinity s' | S754_finite s' _ _ => s' = s
  | S754_nan => True
  end.

End F64.

(* ================================================================== *)
(** ** The embedding over binary64 numbers

    [extractImagesFromPdf] and [mergeLine] once more, with every number a
    binary64 value and every operation rounded as the engine rounds it.
    Whether a test against a threshold ([< 8], [> 5], [< 100], [<= 0])
    succeeds can depend on that rounding, so the statements about these
    tests are made of this embedding. *)

Module Double.

(** [Array.prototype.sort] with a consistent comparator: the stable
    sorted permutation, by insertion from the right.  The element [b]
    goes before [a] exactly when the comparator's result for [(a, b)]
    is above 0; a NaN result counts as 0. *)
Section Sort.

Context {A : Type} (cmp : A -> A -> F64.t).

Fixpoint insertSorted (a : A) (l : list A) : list A :=
  match l with
  | [] => [a]
  | b :: l' =>
      if F64.ltb (F64.ofZ 0) (cmp a b) then b :: insertSorted a l'
      else a :: l
  end.

Definition stableSort (l : list A) : list A :=
  fold_right insertSorted [] l.

End Sort.

(** A text item of the PDF text layer, with the viewport point that
    [viewport.convertToViewportPoint(transform[4], transform[5])] gave. *)
Module RawItem.
Record t : Type := mk
  { str : jsstring;
    vx : F64.t;
    vy : F64.t;
    width : F64.t;       (* PDF space *)
    height : F64.t }.    (* PDF space *)
End RawItem.

(** [interface TextItemPosition] *)
Module Item.
Record t : Type := mk
  { str : jsstring;
    x : F64.t;
    y : F64.t;           (* viewport Y (top) *)
    bottom : F64.t;      (* viewport Y (bottom / baseline) *)
    width : F64.t;
    height : F64.t;
    right : F64.t }.
End Item.

(** The object that [mergeLine] returns. *)
Module Line.
Record t : Type := mk
  { text : jsstring;
    x : F64.t;
    y : F64.t;
    bottom : F64.t;
    height : F64.t }.
End Line.

(** [viewport.scale] of [page.getViewport({ scale: 2.0 })]. *)
Definition viewportScale : F64.t := F64.ofZ 2.

(** The callback of [textContent.items.map]. *)
Definition toItem (item : RawItem.t) : Item.t :=
  let w := F64.mul (RawItem.width item) viewportScale in
  let h :=
    F64.orElse (F64.abs (F64.mul (RawItem.height item) viewportScale))
      (F64.ofZ 10) in
  {| Item.str := RawItem.str item;
     Item.x := RawItem.vx item;
     Item.y := F64.sub (RawItem.vy item) h;
     Item.bottom := RawItem.vy item;
     Item.width := w;
     Item.height := h;
     Item.right := F64.add (RawItem.vx item) w |}.

(** The comparator of [items.sort] in [extractImagesFromPdf]. *)
Definition compareItems (a b : Item.t) : F64.t :=
  let yDiff := F64.abs (F64.sub (Item.bottom a) (Item.bottom b)) in
  if F64.ltb yDiff (F64.ofZ 8) then F64.sub (Item.x a) (Item.x b)
  else F64.sub (Item.bottom a) (Item.bottom b).

(** The [for] loop of [mergeLine] from index [i] on: [text] is the string
    built so far, [prev] is [items[i-1]], [rest] is [items[i..]]. *)
Fixpoint mergeLoop (text : jsstring) (prev : Item.t) (rest : list Item.t)
  : jsstring :=
  match rest with
  | [] => text
  | curr :: rest' =>
      let gap := F64.sub (Item.x curr) (Item.right prev) in
      let text1 :=
        if F64.ltb (F64.ofZ 5) gap then text ++ js " " else text in
      mergeLoop (text1 ++ Item.str curr) curr rest'
  end.

(** [Math.min(...vs)] and [Math.max(...vs)] of a list with first element
    [v] and further elements [vs]. *)
Definition minOf (v : F64.t) (vs : list F64.t) : F64.t :=
  fold_left F64.min vs v.
Definition maxOf (v : F64.t) (vs : list F64.t) : F64.t :=
  fold_left F64.max vs v.

(** [mergeLine(items)]; [None] is the [TypeError] of [items[0].str] on an
    empty array.  The comparator [a.x - b.x] orders runs consistently
    when no [x] is NaN. *)
Definition mergeLine (items : list Item.t) : option Line.t :=
  match stableSort (fun a b => F64.sub (Item.x a) (Item.x b)) items with
  | [] => None
  | first :: rest =>
      let text := mergeLoop (Item.str first) first rest in
      let y := minOf (Item.y first) (map Item.y rest) in
      let bottom := maxOf (Item.bottom first) (map Item.bottom rest) in
      Some {| Line.text := text;
              Line.x := Item.x first;
              Line.y := y;
              Line.bottom := bottom;
              Line.height := F64.sub bottom y |}
  end.

(** The state of the [forEach]: the array [lines] and [currentLine]. *)
Definition GroupState : Type := (list Line.t * list Item.t)%type.

(** One call of the [forEach] callback; [None] when [mergeLine] throws. *)
Definition groupStep (st : GroupState) (item : Item.t) : option GroupState :=
  let '(lines, currentLine) := st in
  match rev currentLine with
  | [] => Some (lines, [item])
  | last :: _ =>
      if F64.ltb (F64.abs (F64.sub (Item.bottom item) (Item.bottom last)))
           (F64.ofZ 8)
      then Some (lines, currentLine ++ [item])
      else
        match mergeLine currentLine with
        | Some l => Some (lines ++ [l], [item])
        | None => None
        end
  end.

Fixpoint groupLoop (st : GroupState) (items : list Item.t)
  : option GroupState :=
  match items with
  | [] => Some st
  | item :: rest =>
      match groupStep st item with
      | Some st' => groupLoop st' rest
      | None => None
      end
  end.

(** [if (currentLine.length > 0) lines.push(mergeLine(currentLine))] *)
Definition closeLine (st : GroupState) : option (list Line.t) :=
  let '(lines, currentLine) := st in
  match currentLine with
  | [] => Some lines
  | _ :: _ =>
      match mergeLine currentLine with
      | Some l => Some (lines ++ [l])
      | None => None
      end
  end.

(** Step 2 of the page body, after the sort: the array [lines]. *)
Definition groupLines (items : list Item.t) : option (list Line.t) :=
  match groupLoop ([], []) items with
  | None => None
  | Some st => closeLine st
  end.

(** [lines.filter(l => l.bottom < cropBottom && l.bottom > 0)], then
    [linesAbove.sort((a, b) => b.bottom - a.bottom)]; the bottoms that
    pass the filter are finite, so the comparator orders them
    consistently. *)
Definition linesAbove (lines : list Line.t) (cropBottom : F64.t)
  : list Line.t :=
  stableSort (fun a b => F64.sub (Line.bottom b) (Line.bottom a))
    (filter (fun l => F64.ltb (Line.bottom l) cropBottom
                      && F64.ltb (F64.ofZ 0) (Line.bottom l)) lines).

(** [cropTop] after the [if (nearestLine) ... else ...]. *)
Definition initialCropTop (lines : list Line.t) (cropBottom : F64.t)
  : F64.t :=
  match linesAbove lines cropBottom with
  | nearestLine :: _ => F64.add (Line.bottom nearestLine) (F64.ofZ 15)
  | [] => F64.max (F64.ofZ 0) (F64.sub cropBottom (F64.ofZ 600))
  end.

(** The sanity check on the window height. *)
Definition minimumWindow (cropBottom cropTop : F64.t) : F64.t :=
  if F64.ltb (F64.sub cropBottom cropTop) (F64.ofZ 100)
  then F64.max (F64.ofZ 0) (F64.sub cropBottom (F64.ofZ 450))
  else cropTop.

(** [cropTop] when [cropHeight] is computed. *)
Definition finalCropTop (lines : list Line.t) (cropBottom : F64.t) : F64.t :=
  minimumWindow cropBottom (initialCropTop lines cropBottom).

(** [cropBottom] and the final [cropTop] for a caption line. *)
Record CropRegion : Type := mkCropRegion
  { cropTop : F64.t;
    cropBottom : F64.t }.

(** [let cropHeight = cropBottom - cropTop] *)
Definition cropHeight (r : CropRegion) : F64.t :=
  F64.sub (cropBottom r) (cropTop r).

Definition cropRegion (lines : list Line.t) (caption : Line.t) : CropRegion :=
  {| cropTop := finalCropTop lines (Line.y caption);
     cropBottom := Line.y caption |}.

(** [if (cropHeight <= 0) continue]: the caption is dropped. *)
Definition discarded (lines : list Line.t) (caption : Line.t) : bool :=
  F64.leb (cropHeight (cropRegion lines caption)) (F64.ofZ 0).

(** The crop that [cropCtx.drawImage(canvas, 0, cropTop, viewport.width,
    cropHeight, ...)] copies from the rendered page.  The data URL of the
    crop canvas is a function of it and stands for it in [src]. *)
Record CropImage : Type := mkCropImage
  { imgPage : N;
    imgTop : F64.t;
    imgWidth : F64.t;
    imgHeight : F64.t }.

(** [interface ExtractedImage] *)
Record ExtractedImage : Type := mkExtractedImage
  { id : jsstring;
    label : jsstring;
    src : CropImage;
    page : N }.

(** What the canvas does for the crop of one caption. *)
Inductive CropOutcome : Type :=
| CropDrawn          (* a 2D context; the crop is drawn, logged, encoded *)
| CropNoContext      (* [cropCanvas.getContext('2d')] is [null] *)
| CropThrows         (* creating the crop canvas or drawing on it throws *)
| CropEncodeThrows.  (* [toDataURL] throws, after the "Extracted" entry *)

(** What the PDF engine and the canvas do for one page. *)
Record PageEnv : Type := mkPageEnv
  { (* [pdf.getPage], [page.getTextContent], [page.getViewport] and the
       conversion of the items; [None] when one of them throws *)
    pageItems : option (list RawItem.t);
    viewportWidth : F64.t;
    viewportHeight : F64.t;
    (* [canvas.getContext('2d')] of the page canvas is not [null] *)
    pageContext : bool;
    (* the promise of [page.render] resolves *)
    pageRenders : bool;
    (* the crop canvas of the caption at an index of [captionLines] *)
    cropOutcome : nat -> CropOutcome }.

(** The state that one call of [extractImagesFromPdf] builds up. *)
Record State : Type := mkState
  { extractedFigures : list ExtractedImage;
    console : list ConsoleEntry;
    requested : list N }.      (* the arguments of [pdf.getPage], in order *)

Definition pushFigure (f : ExtractedImage) (st : State) : State :=
  {| extractedFigures := extractedFigures st ++ [f];
     console := console st;
     requested := requested st |}.

Definition consoleWrite (es : list ConsoleEntry) (st : State) : State :=
  {| extractedFigures := extractedFigures st;
     console := console st ++ es;
     requested := requested st |}.

Definition requestPage (pageNum : N) (st : State) : State :=
  {| extractedFigures := extractedFigures st;
     console := console st;
     requested := requested st ++ [pageNum] |}.

(** The object that the crop loop pushes for a caption of page [pageNum]
    with label [lbl] and crop [region]. *)
Definition makeFigure (pageNum : N) (width : F64.t) (lbl : jsstring)
    (region : CropRegion) : ExtractedImage :=
  {| id := numberToString pageNum ++ js "-" ++ lbl;
     label := lbl;
     src := {| imgPage := pageNum;
               imgTop := cropTop region;
               imgWidth := width;
               imgHeight := cropHeight region |};
     page := pageNum |}.

(** The loop [for (const caption of captionLines)], at index [k].  The
    "Extracted" entry is written before the figure is built and pushed,
    so it stays when the encoding throws. *)
Fixpoint cropLoop (env : PageEnv) (pageNum : N) (lines : list Line.t)
    (captions : list Line.t) (k : nat) (st : State) : State * Completion :=
  match captions with
  | [] => (st, Normal)
  | caption :: rest =>
      match captionLabel (Line.text caption) with
      | None => cropLoop env pageNum lines rest (S k) st
      | Some label =>
          let region := cropRegion lines caption in
          if F64.leb (cropHeight region) (F64.ofZ 0)
          then cropLoop env pageNum lines rest (S k) st
          else
            match cropOutcome env k with
            | CropThrows => (st, Thrown)
            | CropNoContext => cropLoop env pageNum lines rest (S k) st
            | CropEncodeThrows =>
                (consoleWrite [LogExtracted label pageNum] st, Thrown)
            | CropDrawn =>
                let figure :=
                  makeFigure pageNum (viewportWidth env) label region in
                cropLoop env pageNum lines rest (S k)
                  (pushFigure figure
                     (consoleWrite [LogExtracted label pageNum] st))
            end
      end
  end.

(** [lines.filter(l => captionRegex.test(l.text))] *)
Definition captionLines (lines : list Line.t) : list Line.t :=
  filter (fun l => Regex.test captionRegex (Line.text l)) lines.

(** The state when the page loop starts, for a document of [n] pages. *)
Definition initialState (n : nat) : State :=
  {| extractedFigures := [];
     console := [LogLoaded (N.of_nat n)];
     requested := [] |}.

Section Extraction.

(** [items.sort] with [compareItems].  The comparator is not a consistent
    order, so the order of the result is the engine's choice; it is a
    parameter here. *)
Variable sortItems :
  (Item.t -> Item.t -> F64.t) -> list Item.t -> list Item.t.

(** Steps 1 and 2 of the page body: the array [lines]. *)
Definition pageLines (raw : list RawItem.t) : option (list Line.t) :=
  let items :=
    filter (fun i => hasVisibleText (Item.str i)) (map toItem raw) in
  groupLines (sortItems compareItems items).

(** The body of the [try] for one page. *)
Definition pageBody (pageNum : N) (env : PageEnv) (st : State)
  : State * Completion :=
  let st := requestPage pageNum st in
  match pageItems env with
  | None => (st, Thrown)
  | Some raw =>
      match pageLines raw with
      | None => (st, Thrown)
      | Some lines =>
          let captions := captionLines lines in
          let st :=
            consoleWrite
              (map (fun l => LogCandidate pageNum (Line.text l)) captions)
              st in
          match captions with
          | [] => (st, Normal)
          | _ :: _ =>
              if negb (pageContext env) then (st, Normal)
              else if negb (pageRenders env) then (st, Thrown)
              else cropLoop env pageNum lines captions 0 st
          end
      end
  end.

(** One iteration of the page loop: the [try] and its [catch]. *)
Definition processPage (pageNum : N) (env : PageEnv) (st : State) : State :=
  match pageBody pageNum env st with
  | (st', Normal) => st'
  | (st', Thrown) => consoleWrite [LogError pageNum] st'
  end.

(** [for (let pageNum = ...; pageNum <= pdf.numPages; pageNum++)] over
    the pages from [pageNum] on. *)
Fixpoint pageLoop (pageNum : N) (pages : list PageEnv) (st : State) : State :=
  match pages with
  | [] => st
  | env :: rest => pageLoop (pageNum + 1) rest (processPage pageNum env st)
  end.

(** [extractImagesFromPdf] on a loaded document, given by its pages; the
    function returns [extractedFigures] of the final state. *)
Definition extractImagesFromPdf (pdf : list PageEnv) : State :=
  pageLoop 1 pdf (initialState (List.length pdf)).

(** The figures that a page yields when it is processed as page
    [pageNum], on its own. *)
Definition pageFigures (pageNum : N) (env : PageEnv) : list ExtractedImage :=
  extractedFigures (processPage pageNum env (initialState 0)).

End Extraction.

(* ------------------------------------------------------------------ *)
(** *** Specification-side notions *)

(** [item.bottom - last.bottom], in absolute value, as the grouping
    computes it. *)
Definition baselineDifference (last item : Item.t) : F64.t :=
  F64.abs (F64.sub (Item.bottom item) (Item.bottom last)).

(** Two runs whose baselines differ by less than the line tolerance. *)
Definition sameBaseline (last item : Item.t) : Prop :=
  F64.ltb (baselineDifference last item) (F64.ofZ 8) = true.

(** [Grouped items groups]: [groups] cuts [items], in order, so that a run
    is in the group of the run before it exactly when their baselines
    differ by less than 8. *)
Inductive Grouped : list Item.t -> list (list Item.t) -> Prop :=
| Grouped_nil : Grouped [] []
| Grouped_one a : Grouped [a] [[a]]
| Grouped_join a b rest g gs :
    sameBaseline a b ->
    Grouped (b :: rest) (g :: gs) ->
    Grouped (a :: b :: rest) ((a :: g) :: gs)
| Grouped_break a b rest gs :
    ~ sameBaseline a b ->
    Grouped (b :: rest) gs ->
    Grouped (a :: b :: rest) ([a] :: gs).

(** The horizontal gap between two consecutive runs of a line, as
    [mergeLine] computes it. *)
Definition gapBetween (prev curr : Item.t) : F64.t :=
  F64.sub (Item.x curr) (Item.right prev).

(** The gap exceeds 5. *)
Definition wideGap (prev curr : Item.t) : Prop :=
  F64.ltb (F64.ofZ 5) (gapBetween prev curr) = true.

(** [Joined prev rest t]: [t] is the text of the runs [rest] that follow
    [prev], each preceded by one space exactly when its gap to the run
    before it exceeds 5. *)
Inductive Joined : Item.t -> list Item.t -> jsstring -> Prop :=
| Joined_end prev : Joined prev [] []
| Joined_space prev curr rest t :
    wideGap prev curr ->
    Joined curr rest t ->
    Joined prev (curr :: rest) (js " " ++ Item.str curr ++ t)
| Joined_tight prev curr rest t :
    ~ wideGap prev curr ->
    Joined curr rest t ->
    Joined prev (curr :: rest) (Item.str curr ++ t).

(** The run [b] is not to the left of the run [a]: [a.x - b.x], the
    comparator of the sort in [mergeLine], is not above 0. *)
Definition notLeftOf (a b : Item.t) : Prop :=
  F64.ltb (F64.ofZ 0) (F64.sub (Item.x a) (Item.x b)) = false.

(** Runs in left-to-right order: no run is to the left of the run before
    it. *)
Fixpoint leftToRight (items : list Item.t) : Prop :=
  match items with
  | a :: ((b :: _) as rest) => notLeftOf a b /\ leftToRight rest
  | _ => True
  end.

(** The figure that a caption line gets when its crop canvas can be drawn
    and encoded, if it gets one. *)
Definition captionFigure (pageNum : N) (width : F64.t) (lines : list Line.t)
    (caption : Line.t) : list ExtractedImage :=
  match captionLabel (Line.text caption) with
  | None => []
  | Some lbl =>
      if discarded lines caption then []
      else [makeFigure pageNum width lbl (cropRegion lines caption)]
  end.

(** A page whose canvases all work: the page canvas has a context, the
    render succeeds, and every crop is drawn and encoded. *)
Definition canvasWorks (env : PageEnv) : Prop :=
  pageContext env = true
  /\ pageRenders env = true
  /\ forall k, cropOutcome env k = CropDrawn.

(** No crop of the page throws while it is encoded. *)
Definition encodes (env : PageEnv) : Prop :=
  forall k, cropOutcome env k <> CropEncodeThrows.

(** The label and the page of each figure, in order. *)
Definition figureLog (figures : list ExtractedImage) : list (jsstring * N) :=
  map (fun f => (label f, page f)) figures.

(** Every figure of a state has its "Extracted" entry on the console. *)
Definition logged (st : State) : Prop :=
  forall f, In f (extractedFigures st) ->
            In (LogExtracted (label f) (page f)) (console st).

(** The "Extracted" entries of a state are those of its figures. *)
Definition logMatches (st : State) : Prop :=
  extractedLog (console st) = figureLog (extractedFigures st).

(* ------------------------------------------------------------------ *)
(** *** Sample inputs *)

Module Sample.

(** A line of height 12 with a given baseline. *)
Definition line (text : string) (bottom : F64.t) : Line.t :=
  {| Line.text := js text;
     Line.x := F64.ofZ 72;
     Line.y := F64.sub bottom (F64.ofZ 12);
     Line.bottom := bottom;
     Line.height := F64.ofZ 12 |}.

(** A run of font size 6 (12 viewport units high). *)
Definition run (text : string) (x baseline width : F64.t) : RawItem.t :=
  {| RawItem.str := js text;
     RawItem.vx := x;
     RawItem.vy := baseline;
     RawItem.width := width;
     RawItem.height := F64.ofZ 6 |}.

(** A run on a line, given by its left edge, right edge and baseline. *)
Definition item (text : string) (x right bottom : F64.t) : Item.t :=
  {| Item.str := js text;
     Item.x := x;
     Item.y := F64.sub bottom (F64.ofZ 12);
     Item.bottom := bottom;
     Item.width := F64.sub right x;
     Item.height := F64.ofZ 12;
     Item.right := right |}.

(** A caption with top 500, and a line ending 65 units above it: a
    window of height 50. *)
Definition caption : Line.t := line "Figure 1: results" (F64.ofZ 512).
Definition tightLines : list Line.t :=
  [line "as shown below." (F64.ofZ 435); caption].

(** Baselines 113.2 and 240.2: the window from 113.2 + 15 to 240.2 - 12
    is 100 high as computed (it is below 100 before rounding). *)
Definition edgeCaption : Line.t := line "Figure 2: setup" (F64.ratio 2402 10).
Definition edgeLines : list Line.t :=
  [line "as shown below." (F64.ratio 1132 10); edgeCaption].


(** A caption with top 300 and no line above it. *)
Definition loneCaption : Line.t := line "Fig. 2 Setup" (F64.ofZ 312).


(** The runs "a" (ending at 0.7) and "b" (starting at 5.7): a gap of 5
    as computed. *)
Definition runA : Item.t := item "a" (F64.ofZ 0) (F64.ratio 7 10) (F64.ofZ 512).
Definition runB : Item.t :=
  item "b" (F64.ratio 57 10) (F64.ofZ 10) (F64.ofZ 512).

(** Runs with baselines 0.1, 8.1 (a difference of 8 as computed) and
    8.6. *)
Definition upper : Item.t :=
  item "upper" (F64.ofZ 72) (F64.ofZ 100) (F64.ratio 1 10).
Definition lower : Item.t :=
  item "lower" (F64.ofZ 72) (F64.ofZ 100) (F64.ratio 81 10).
Definition lowerNext : Item.t :=
  item "next" (F64.ofZ 104) (F64.ofZ 120) (F64.ratio 86 10).

(** A run whose height is zero in PDF space. *)
Definition flatRun : RawItem.t :=
  {| RawItem.str := js "x";
     RawItem.vx := F64.ofZ 0;
     RawItem.vy := F64.ofZ 100;
     RawItem.width := F64.ofZ 5;
     RawItem.height := F64.ofZ 0 |}.

(** A page with two caption lines for figure 1. *)
Definition twinCaptionPage : PageEnv :=
  {| pageItems :=
       Some [run "Figure 1: overview" (F64.ofZ 72) (F64.ofZ 300) (F64.ofZ 60);
             run "Fig. 1 (continued)" (F64.ofZ 72) (F64.ofZ 700) (F64.ofZ 60)];
     viewportWidth := F64.ofZ 1224;
     viewportHeight := F64.ofZ 1584;
     pageContext := true;
     pageRenders := true;
     cropOutcome := fun _ => CropDrawn |}.

(** Its lines. *)
Definition overview : Line.t := line "Figure 1: overview" (F64.ofZ 300).
Definition continued : Line.t := line "Fig. 1 (continued)" (F64.ofZ 700).
Definition twinLines : list Line.t := [overview; continued].

(** The same two captions when the first is at the top edge of the page:
    its baseline is 5, so its top is -7. *)
Definition edgeTwinPage : PageEnv :=
  {| pageItems :=
       Some [run "Figure 1: overview" (F64.ofZ 72) (F64.ofZ 5) (F64.ofZ 60);
             run "Fig. 1 (continued)" (F64.ofZ 72) (F64.ofZ 700) (F64.ofZ 60)];
     viewportWidth := F64.ofZ 1224;
     viewportHeight := F64.ofZ 1584;
     pageContext := true;
     pageRenders := true;
     cropOutcome := fun _ => CropDrawn |}.

(** Its lines. *)
Definition edgeOverview : Line.t := line "Figure 1: overview" (F64.ofZ 5).
Definition edgeTwinLines : list Line.t := [edgeOverview; continued].

(** [twinCaptionPage] when no crop canvas gives a 2D context. *)
Definition contextlessPage : PageEnv :=
  {| pageItems := pageItems twinCaptionPage;
     viewportWidth := F64.ofZ 1224;
     viewportHeight := F64.ofZ 1584;
     pageContext := true;
     pageRenders := true;
     cropOutcome := fun _ => CropNoContext |}.

(** [twinCaptionPage] when the encoding of the second crop throws. *)
Definition unencodedPage : PageEnv :=
  {| pageItems := pageItems twinCaptionPage;
     viewportWidth := F64.ofZ 1224;
     viewportHeight := F64.ofZ 1584;
     pageContext := true;
     pageRenders := true;
     cropOutcome :=
       fun k => match k with O => CropDrawn | _ => CropEncodeThrows end |}.

(** An engine whose [sort] is the stable insertion sort. *)
Definition sortItems
  : (Item.t -> Item.t -> F64.t) -> list Item.t -> list Item.t :=
  @stableSort Item.t.

End Sample.

End Double.

(* ================================================================== *)
(** ** Numbers: the boolean tests *)

Lemma ltb_true (a b : Q) : Num.ltb a b = true <-> a < b.
Proof.
  unfold Num.ltb. rewrite negb_true_iff.
  destruct (Qle_bool b a) eqn:E.
  - apply Qle_bool_iff in E. split; [discriminate | intro H; lra].
  - split; [intros _ | reflexivity].
    destruct (Qlt_le_dec a b) as [H | H]; [assumption |].
    apply Qle_bool_iff in H. congruence.
Qed.

Lemma ltb_false (a b : Q) : Num.ltb a b = false <-> b <= a.
Proof.
  destruct (Num.ltb a b) eqn:E.
  - apply ltb_true in E. split; [discriminate | intro H; lra].
  - split; [intros _ | reflexivity].
    destruct (Qlt_le_dec a b) as [H | H]; [| assumption].
    apply ltb_true in H. congruence.
Qed.

Lemma leb_true (a b : Q) : Num.leb a b = true <-> a <= b.
Proof. unfold Num.leb. apply Qle_bool_iff. Qed.

Lemma leb_false (a b : Q) : Num.leb a b = false <-> b < a.
Proof.
  destruct (Num.leb a b) eqn:E.
  - apply leb_true in E. split; [discriminate | intro H; lra].
  - split; [intros _ | reflexivity].
    destruct (Qlt_le_dec b a) as [H | H]; [assumption |].
    apply leb_true in H. congruence.
Qed.

Lemma max0_cases (v : Q) :
  (v <= 0 /\ Num.max 0 v == 0) \/ (0 <= v /\ Num.max 0 v == v).
Proof.
  unfold Num.max.
  destruct (Q.max_spec 0 v) as [[H E] | [H E]].
  - right. split; [lra | exact E].
  - left. split; [exact H | exact E].
Qed.

(* ================================================================== *)
(** ** The stable sort *)

Section SortFacts.

Context {A : Type} (cmp : A -> A -> Q).

Lemma In_insertSorted (a x : A) (l : list A) :
  In x (insertSorted cmp a l) <-> x = a \/ In x l.
Proof.
  induction l as [| b l IH]; simpl.
  - intuition congruence.
  - destruct (Num.leb (cmp a b) 0); simpl.
    + intuition congruence.
    + rewrite IH. intuition congruence.
Qed.

Lemma In_stableSort (x : A) (l : list A) :
  In x (stableSort cmp l) <-> In x l.
Proof.
  induction l as [| a l IH]; simpl; [tauto |].
  rewrite In_insertSorted, IH. intuition congruence.
Qed.

Lemma length_insertSorted (a : A) (l : list A) :
  List.length (insertSorted cmp a l) = S (List.length l).
Proof.
  induction l as [| b l IH]; simpl; [reflexivity |].
  destruct (Num.leb (cmp a b) 0); simpl; congruence.
Qed.

Lemma stableSort_cons_nonempty (a : A) (l : list A) :
  stableSort cmp (a :: l) <> [].
Proof.
  simpl. intro E. apply (f_equal (@List.length A)) in E.
  rewrite length_insertSorted in E. discriminate.
Qed.

(** With a comparator that compares keys, the first element of the
    result has the least key. *)
Variable key : A -> Q.
Hypothesis cmp_key : forall a b, cmp a b <= 0 <-> key a <= key b.

Lemma stableSort_head_least (l : list A) (h : A) (t : list A) :
  stableSort cmp l = h :: t ->
  forall x, In x l -> key h <= key x.
Proof.
  revert h t. induction l as [| a l IH]; intros h t E x Hx.
  - destruct Hx.
  - simpl in E. destruct (stableSort cmp l) as [| b s] eqn:Es.
    + simpl in E. injection E as <- <-.
      destruct Hx as [<- | Hx]; [lra |].
      apply In_stableSort in Hx. rewrite Es in Hx. destruct Hx.
    + simpl in E. destruct (Num.leb (cmp a b) 0) eqn:Eab.
      * injection E as <- <-. apply leb_true, cmp_key in Eab.
        destruct Hx as [<- | Hx]; [lra |].
        specialize (IH b s eq_refl x Hx). lra.
      * injection E as <- <-. apply leb_false in Eab.
        destruct Hx as [<- | Hx].
        -- destruct (Qlt_le_dec (key a) (key b)) as [H | H]; [| exact H].
           assert (cmp a b <= 0) by (apply cmp_key; lra). lra.
        -- exact (IH b s eq_refl x Hx).
Qed.

End SortFacts.

Lemma insertSorted_Permutation {A : Type} (cmp : A -> A -> Q) (a : A)
    (l : list A) :
  Permutation (a :: l) (insertSorted cmp a l).
Proof.
  induction l as [| b l IH]; simpl; [apply Permutation_refl |].
  destruct (Num.leb (cmp a b) 0); [apply Permutation_refl |].
  eapply perm_trans; [apply perm_swap |]. apply perm_skip. exact IH.
Qed.

Lemma stableSort_Permutation {A : Type} (cmp : A -> A -> Q) (l : list A) :
  Permutation l (stableSort cmp l).
Proof.
  induction l as [| a l IH]; simpl; [constructor |].
  eapply perm_trans; [apply perm_skip; exact IH |].
  apply insertSorted_Permutation.
Qed.

(** Sorting by X puts the runs in left-to-right order. *)
Lemma insertSorted_leftToRight (a : Item.t) (l : list Item.t) :
  leftToRight l ->
  leftToRight (insertSorted (fun a b => Item.x a - Item.x b) a l).
Proof.
  induction l as [| b l IH]; intro H; [exact I |].
  cbn [insertSorted].
  destruct (Num.leb (Item.x a - Item.x b) 0) eqn:Eab.
  - apply leb_true in Eab. split; [lra | exact H].
  - apply leb_false in Eab.
    assert (Hl : leftToRight l) by (destruct l; [exact I | apply H]).
    specialize (IH Hl).
    destruct l as [| c l']; [split; [lra | exact I] |].
    cbn [insertSorted] in *.
    destruct (Num.leb (Item.x a - Item.x c) 0).
    + split; [lra | exact IH].
    + split; [apply H | exact IH].
Qed.

Lemma stableSort_sorted (items : list Item.t) :
  leftToRight (stableSort (fun a b => Item.x a - Item.x b) items).
Proof.
  induction items as [| a l IH]; [exact I |].
  simpl. apply insertSorted_leftToRight. exact IH.
Qed.

(* ================================================================== *)
(** ** Crop region inference *)

Lemma In_linesAbove (lines : list Line.t) (cb : Q) (l : Line.t) :
  In l (linesAbove lines cb) <-> In l lines /\ isAbove cb l.
Proof.
  unfold linesAbove, isAbove. rewrite In_stableSort, filter_In.
  rewrite andb_true_iff, !ltb_true. tauto.
Qed.

(** The first element of [linesAbove] has the greatest bottom. *)
Lemma linesAbove_head (lines : list Line.t) (cb : Q) (n : Line.t)
    (rest : list Line.t) :
  linesAbove lines cb = n :: rest ->
  forall l, In l (linesAbove lines cb) -> Line.bottom l <= Line.bottom n.
Proof.
  intros E l Hl. unfold linesAbove in *.
  apply In_stableSort in Hl.
  pose proof (stableSort_head_least
                (fun a b => Line.bottom b - Line.bottom a)
                (fun a => - Line.bottom a)) as L.
  cbv beta in L.
  assert (K : forall a b : Line.t,
             Line.bottom b - Line.bottom a <= 0
             <-> - Line.bottom a <= - Line.bottom b)
    by (intros; split; intro; lra).
  specialize (L K _ _ _ E l Hl). lra.
Qed.

Lemma initialCropTop_nearest (lines : list Line.t) (cb : Q) :
  linesAbove lines cb <> [] ->
  exists nearest,
    In nearest (linesAbove lines cb)
    /\ (forall l, In l (linesAbove lines cb) ->
                  Line.bottom l <= Line.bottom nearest)
    /\ initialCropTop lines cb = Line.bottom nearest + 15.
Proof.
  intro Hne. unfold initialCropTop.
  destruct (linesAbove lines cb) as [| n rest] eqn:E; [congruence |].
  exists n. split; [left; reflexivity |]. split; [| reflexivity].
  rewrite <- E. apply (linesAbove_head _ _ _ _ E).
Qed.

Lemma initialCropTop_none (lines : list Line.t) (cb : Q) :
  (forall l, In l lines -> ~ isAbove cb l) ->
  initialCropTop lines cb = Num.max 0 (cb - 600).
Proof.
  intro H. unfold initialCropTop.
  destruct (linesAbove lines cb) as [| n rest] eqn:E; [reflexivity |].
  assert (Hn : In n (linesAbove lines cb)) by (rewrite E; left; reflexivity).
  apply In_linesAbove in Hn. destruct Hn as [Hin Habove].
  destruct (H n Hin Habove).
Qed.

Lemma minimumWindow_small (cb top : Q) :
  cb - top < 100 -> minimumWindow cb top = Num.max 0 (cb - 450).
Proof.
  intro H. unfold minimumWindow.
  apply ltb_true in H. rewrite H. reflexivity.
Qed.

Lemma minimumWindow_large (cb top : Q) :
  100 <= cb - top -> minimumWindow cb top = top.
Proof.
  intro H. unfold minimumWindow.
  apply ltb_false in H. rewrite H. reflexivity.
Qed.



(** C1. For a caption line of a page, the crop bottom is the caption's top
    Y; the lines considered as "text above" are exactly the page's lines
    whose bottom Y is strictly between 0 and the crop bottom; when there is
    one, the crop top before the minimum-window correction is the greatest
    such bottom Y plus 15.  A caption at top Y 500 whose nearest line above
    has bottom Y 300 gets crop top 315 and crop bottom 500. *)
Theorem crop_above_caption (lines : list Line.t) (caption : Line.t) :
  let cb := cropBottom (cropRegion lines caption) in
  cb = Line.y caption
  /\ (forall l, In l (linesAbove lines cb)
                <-> In l lines /\ 0 < Line.bottom l /\ Line.bottom l < cb)
  /\ (linesAbove lines cb <> [] ->
      exists nearest,
        In nearest (linesAbove lines cb)
        /\ (forall l, In l (linesAbove lines cb) ->
                      Line.bottom l <= Line.bottom nearest)
        /\ initialCropTop lines cb = Line.bottom nearest + 15)
  /\ (forall nearest,
        cb == 500 ->
        In nearest lines ->
        Line.bottom nearest == 300 ->
        (forall l, In l lines -> isAbove cb l -> Line.bottom l <= 300) ->
        initialCropTop lines cb == 315
        /\ cropTop (cropRegion lines caption) == 315
        /\ cb == 500).
Proof.
  simpl. split; [reflexivity |].
  split; [intro l; apply In_linesAbove |].
  split; [apply initialCropTop_nearest |].
  intros nearest Hcb Hin Hb Hmax.
  assert (Hab : In nearest (linesAbove lines (Line.y caption))).
  { apply In_linesAbove. split; [assumption |]. unfold isAbove. lra. }
  assert (Hne : linesAbove lines (Line.y caption) <> []).
  { intro E. rewrite E in Hab. destruct Hab. }
  destruct (initialCropTop_nearest _ _ Hne) as (n & Hn & Hgreatest & Etop).
  pose proof (Hgreatest _ Hab) as H1.
  apply In_linesAbove in Hn. destruct Hn as [Hn1 Hn2].
  pose proof (Hmax _ Hn1 Hn2) as H2.
  assert (E315 : initialCropTop lines (Line.y caption) == 315)
    by (rewrite Etop; lra).
  split; [exact E315 |]. split; [| exact Hcb].
  unfold finalCropTop. rewrite minimumWindow_large; [exact E315 | lra].
Qed.

(** The page height is not read: neither by the crop loop nor by the rest
    of the page body. *)
Lemma cropLoop_height (h : Q) (env : PageEnv) (pageNum : N)
    (lines captions : list Line.t) :
  forall k st,
    cropLoop (withViewportHeight h env) pageNum lines captions k st
    = cropLoop env pageNum lines captions k st.
Proof.
  induction captions as [| caption rest IH]; intros k st; [reflexivity |].
  cbn [cropLoop].
  destruct (captionLabel (Line.text caption)); [| apply IH].
  destruct (Num.leb (cropHeight (cropRegion lines caption)) 0); [apply IH |].
  cbn [cropOutcome viewportWidth withViewportHeight].
  destruct (cropOutcome env k); [apply IH | apply IH | reflexivity].
Qed.

Lemma processPage_height sortItems (h : Q) (pageNum : N) (env : PageEnv)
    (st : State) :
  processPage sortItems pageNum (withViewportHeight h env) st
  = processPage sortItems pageNum env st.
Proof.
  unfold processPage, pageBody.
  cbn [pageItems pageContext pageRenders withViewportHeight].
  destruct (pageItems env) as [raw |]; [| reflexivity].
  destruct (pageLines sortItems raw) as [lines |]; [| reflexivity].
  destruct (captionLines lines) as [| caption captions]; [reflexivity |].
  destruct (pageContext env); [| reflexivity].
  destruct (pageRenders env); [| reflexivity].
  cbn [negb]. rewrite cropLoop_height. reflexivity.
Qed.

(** C4. For a caption with no line whose bottom Y is strictly between 0 and
    the crop bottom, the crop top is max(0, crop bottom - 600), before and
    after the minimum-window correction; with crop bottom 200 it is 0.  The
    page height is not an input of the computation: a page processed with
    another viewport height gives the same state. *)
Theorem fallback_window (lines : list Line.t) (caption : Line.t) :
  (forall l, In l lines -> ~ isAbove (Line.y caption) l) ->
  let cb := cropBottom (cropRegion lines caption) in
  initialCropTop lines cb = Num.max 0 (cb - 600)
  /\ cropTop (cropRegion lines caption) == Num.max 0 (cb - 600)
  /\ (cb == 200 -> cropTop (cropRegion lines caption) == 0)
  /\ (forall sortItems h pageNum env st,
        processPage sortItems pageNum (withViewportHeight h env) st
        = processPage sortItems pageNum env st).
Proof.
  intro Hnone. simpl.
  pose proof (initialCropTop_none _ _ Hnone) as E.
  assert (F : finalCropTop lines (Line.y caption)
              == Num.max 0 (Line.y caption - 600)).
  { unfold finalCropTop. rewrite E.
    destruct (Qlt_le_dec (Line.y caption - Num.max 0 (Line.y caption - 600)) 100)
      as [H | H].
    - rewrite (minimumWindow_small _ _ H).
      destruct (max0_cases (Line.y caption - 600)) as [[H1 E1] | [H1 E1]];
        destruct (max0_cases (Line.y caption - 450)) as [[H2 E2] | [H2 E2]];
        rewrite E1 in *; rewrite E2; lra.
    - rewrite (minimumWindow_large _ _ H). reflexivity. }
  split; [exact E |]. split; [exact F |]. split.
  - intro H200. rewrite F.
    destruct (max0_cases (Line.y caption - 600)) as [[H1 E1] | [H1 E1]];
      rewrite E1; lra.
  - intros. apply processPage_height.
Qed.

(* ================================================================== *)
(** ** Line reconstruction *)

Lemma mergeLoop_Joined (rest : list Item.t) :
  forall (prev : Item.t) (text : jsstring),
    exists t, Joined prev rest t /\ mergeLoop text prev rest = text ++ t.
Proof.
  induction rest as [| curr rest IH]; intros prev text.
  - exists []. split; [constructor | simpl; now rewrite app_nil_r].
  - simpl. destruct (Num.ltb 5 (Item.x curr - Item.right prev)) eqn:E.
    + destruct (IH curr ((text ++ js " ") ++ Item.str curr)) as (t & J & Et).
      exists (js " " ++ Item.str curr ++ t). split.
      * apply Joined_space; [apply ltb_true in E; exact E | exact J].
      * rewrite Et. now rewrite <- !app_assoc.
    + destruct (IH curr (text ++ Item.str curr)) as (t & J & Et).
      exists (Item.str curr ++ t). split.
      * apply Joined_tight; [apply ltb_false in E; exact E | exact J].
      * rewrite Et. now rewrite <- !app_assoc.
Qed.

(** [mergeLine] does not throw on a non-empty array. *)
Lemma mergeLine_nonempty (a : Item.t) (items : list Item.t) :
  exists line, mergeLine (a :: items) = Some line.
Proof.
  unfold mergeLine.
  destruct (stableSort (fun a b => Item.x a - Item.x b) (a :: items))
    as [| first rest] eqn:E.
  - destruct (stableSort_cons_nonempty _ _ _ E).
  - eexists. reflexivity.
Qed.

Lemma mergeLine_snoc (c : list Item.t) (last : Item.t) :
  exists line, mergeLine (c ++ [last]) = Some line.
Proof.
  destruct c as [| a c]; simpl; apply mergeLine_nonempty.
Qed.

Lemma groupStep_join (lines : list Line.t) (c : list Item.t)
    (last item : Item.t) :
  sameBaseline last item ->
  groupStep (lines, c ++ [last]) item = Some (lines, (c ++ [last]) ++ [item]).
Proof.
  intro H. unfold groupStep. rewrite rev_app_distr. cbn [rev app].
  apply ltb_true in H. unfold Num.abs. rewrite H. reflexivity.
Qed.

Lemma groupStep_break (lines : list Line.t) (c : list Item.t)
    (last item : Item.t) :
  ~ sameBaseline last item ->
  exists line,
    mergeLine (c ++ [last]) = Some line
    /\ groupStep (lines, c ++ [last]) item = Some (lines ++ [line], [item]).
Proof.
  intro H. destruct (mergeLine_snoc c last) as [line E].
  exists line. split; [exact E |].
  unfold groupStep. rewrite rev_app_distr. cbn [rev app].
  assert (F : Num.ltb (Num.abs (Item.bottom item - Item.bottom last)) 8 = false).
  { apply ltb_false. unfold sameBaseline in H. unfold Num.abs.
    destruct (Qlt_le_dec (Qabs (Item.bottom item - Item.bottom last)) 8);
      [contradiction | assumption]. }
  rewrite F, E. reflexivity.
Qed.

Lemma sameBaseline_dec (last item : Item.t) :
  {sameBaseline last item} + {~ sameBaseline last item}.
Proof.
  unfold sameBaseline.
  destruct (Qlt_le_dec (Qabs (Item.bottom item - Item.bottom last)) 8)
    as [H | H]; [left; exact H | right; lra].
Qed.

(** The loop with a current line [c ++ [last]] extends that line by the
    first group of [last :: items] and then pushes the other groups. *)
Lemma groupLoop_Grouped (items : list Item.t) :
  forall (last : Item.t) (c : list Item.t) (lines : list Line.t),
  exists g gs ls st,
    Grouped (last :: items) (g :: gs)
    /\ groupLoop (lines, c ++ [last]) items = Some st
    /\ closeLine st = Some (lines ++ ls)
    /\ map mergeLine ((c ++ g) :: gs) = map Some ls.
Proof.
  induction items as [| item rest IH]; intros last c lines.
  - destruct (mergeLine_snoc c last) as [line E].
    exists [last], [], [line], (lines, c ++ [last]).
    split; [constructor |]. split; [reflexivity |]. split.
    + unfold closeLine. rewrite E.
      destruct (c ++ [last]) eqn:D; [| reflexivity].
      destruct c; discriminate.
    + simpl. now rewrite E.
  - destruct (sameBaseline_dec last item) as [H | H].
    + destruct (IH item (c ++ [last]) lines) as (g & gs & ls & st & G & L & C & M).
      exists (last :: g), gs, ls, st.
      split; [apply Grouped_join; assumption |].
      split; [cbn [groupLoop]; rewrite (groupStep_join _ _ _ _ H); exact L |].
      split; [exact C |].
      rewrite <- M. simpl. now rewrite <- app_assoc.
    + destruct (groupStep_break lines c last item H) as (line & E & S).
      destruct (IH item [] (lines ++ [line])) as (g & gs & ls & st & G & L & C & M).
      exists [last], (g :: gs), (line :: ls), st.
      split; [apply Grouped_break; assumption |].
      split; [cbn [groupLoop]; rewrite S; exact L |].
      split; [rewrite C; now rewrite <- app_assoc |].
      simpl in M. simpl. rewrite E. now rewrite <- M.
Qed.

(* ================================================================== *)
(** ** Caption detection *)

Lemma star_inv (p : N -> bool) (s : jsstring) :
  forall i k res,
    Regex.star p s i k = Some res ->
    exists pre post,
      s = pre ++ post
      /\ Forall (fun c => p c = true) pre
      /\ k post (i + List.length pre)%nat = Some res.
Proof.
  induction s as [| ch s IH]; intros i k res H; simpl in H.
  - exists [], []. simpl. rewrite Nat.add_0_r. auto.
  - destruct (p ch) eqn:Ep.
    + destruct (Regex.star p s (S i) k) as [r |] eqn:Es.
      * injection H as ->.
        destruct (IH _ _ _ Es) as (pre & post & -> & Hall & Hk).
        exists (ch :: pre), post. simpl. split; [reflexivity |].
        split; [constructor; assumption |].
        rewrite <- Hk. f_equal. lia.
      * exists [], (ch :: s). simpl. rewrite Nat.add_0_r. auto.
    + exists [], (ch :: s). simpl. rewrite Nat.add_0_r. auto.
Qed.

Lemma run_Seq (r1 r2 : Regex.t) s i c k :
  Regex.run (Regex.Seq r1 r2) s i c k
  = Regex.run r1 s i c (fun s1 i1 c1 => Regex.run r2 s1 i1 c1 k).
Proof. reflexivity. Qed.

(** A successful match has called its continuation. *)
Lemma run_continues (r : Regex.t) :
  forall s i c k res,
    Regex.run r s i c k = Some res ->
    exists s1 i1 c1, k s1 i1 c1 = Some res.
Proof.
  induction r as [| p | r1 IH1 r2 IH2 | r1 IH1 r2 IH2 | p | n r1 IH1];
    intros s i c k res H; simpl in H.
  - eauto.
  - destruct s as [| ch s']; [discriminate |].
    destruct (p ch); [eauto | discriminate].
  - destruct (IH1 _ _ _ _ _ H) as (s1 & i1 & c1 & H1). eauto.
  - destruct (Regex.run r1 s i c k) eqn:E.
    + injection H as ->. eauto.
    + eauto.
  - destruct s as [| ch s']; [discriminate |].
    destruct (p ch); [| discriminate].
    destruct (star_inv _ _ _ _ _ H) as (pre & post & _ & _ & Hk). eauto.
  - destruct (IH1 _ _ _ _ _ H) as (s1 & i1 & c1 & H1). eauto.
Qed.

(** A group around [c+] captures one or more code units of the class. *)
Lemma group_plus_inv (n : nat) (p : N -> bool) (s : jsstring) (i : nat)
    (c : Regex.captures) (k : Regex.Cont) (res : Regex.captures) :
  Regex.run (Regex.Group n (Regex.Plus p)) s i c k = Some res ->
  exists pre post,
    s = pre ++ post
    /\ pre <> []
    /\ Forall (fun ch => p ch = true) pre
    /\ k post (i + List.length pre)%nat ((n, pre) :: c) = Some res.
Proof.
  simpl. destruct s as [| ch s']; [discriminate |].
  destruct (p ch) eqn:Ep; [| discriminate].
  intro H. apply star_inv in H.
  destruct H as (pre & post & -> & Hall & Hk).
  exists (ch :: pre), post. split; [reflexivity |].
  split; [discriminate |]. split; [constructor; assumption |].
  replace (S i + List.length pre - i)%nat with (List.length (ch :: pre))
    in Hk by (cbn [List.length]; lia).
  change (ch :: pre ++ post) with ((ch :: pre) ++ post) in Hk.
  rewrite firstn_app, firstn_all, Nat.sub_diag in Hk.
  simpl firstn in Hk. rewrite app_nil_r in Hk.
  rewrite <- Hk. f_equal. cbn [List.length]. lia.
Qed.

(** Whatever variant matched, the label is "Figure " and a numeral. *)
Lemma captionLabel_numeral (text lbl : jsstring) :
  captionLabel text = Some lbl ->
  exists ds, isNumeral ds /\ lbl = js "Figure " ++ ds.
Proof.
  unfold captionLabel, Regex.exec.
  destruct (Regex.run captionRegex text 0 [] (fun _ _ c => Some c))
    as [m |] eqn:E; [| discriminate].
  unfold captionRegex in E. rewrite run_Seq in E.
  apply run_continues in E. destruct E as (s1 & i1 & c1 & E).
  rewrite run_Seq in E.
  apply run_continues in E. destruct E as (s2 & i2 & c2 & E).
  apply group_plus_inv in E.
  destruct E as (ds & post & _ & Hne & Hall & E).
  injection E as <-. simpl. intro H. injection H as <-.
  exists ds. split; [split; assumption | reflexivity].
Qed.

(** The variants of the specification, followed by anything but a digit. *)
Lemma captionLabel_variant (v rest : jsstring) :
  In v captionVariants ->
  noDigitAhead rest ->
  Regex.test captionRegex (v ++ rest) = true
  /\ captionLabel (v ++ rest) = Some (js "Figure 1").
Proof.
  intros Hv Hrest.
  assert (E : Regex.exec captionRegex (v ++ rest) <> None
              /\ captionLabel (v ++ rest) = Some (js "Figure 1")).
  { unfold captionLabel.
    destruct Hv as [<- | [<- | [<- | [<- | []]]]];
      destruct rest as [| ch rest']; cbn; cbn in Hrest;
      rewrite ?Hrest; cbn; split; (discriminate || reflexivity). }
  destruct E as [E1 E2]. split; [| exact E2].
  unfold Regex.test. destruct (Regex.exec captionRegex (v ++ rest)); congruence.
Qed.

(* ================================================================== *)
(** ** The document loop *)

Section Loop.

Variable sortItems : (Item.t -> Item.t -> Q) -> list Item.t -> list Item.t.

(** The crop loop appends figures that do not depend on the state it
    starts from, each built from a caption line, and requests no page. *)
Lemma cropLoop_frame (env : PageEnv) (pageNum : N) (lines : list Line.t)
    (captions : list Line.t) :
  forall k, exists new c,
    Forall (fun f => exists caption,
                builtFrom pageNum (viewportWidth env) lines caption f) new
    /\ forall st, exists st',
         cropLoop env pageNum lines captions k st = (st', c)
         /\ extractedFigures st' = extractedFigures st ++ new
         /\ requested st' = requested st.
Proof.
  induction captions as [| caption rest IH]; intro k.
  - exists [], Normal. split; [constructor |]. intro st. exists st.
    simpl. rewrite app_nil_r. auto.
  - destruct (IH (S k)) as (new & c & Hnew & Hrun).
    simpl. destruct (captionLabel (Line.text caption)) as [lbl |] eqn:El;
      [| exists new, c; auto].
    destruct (Num.leb (cropHeight (cropRegion lines caption)) 0) eqn:Eh;
      [exists new, c; auto |].
    destruct (cropOutcome env k).
    + eexists (_ :: new), c. split.
      * constructor; [| exact Hnew]. exists caption, lbl.
        split; [exact El |]. split; [| reflexivity].
        apply leb_false. exact Eh.
      * intro st.
        destruct (Hrun (pushFigure
                          (makeFigure pageNum (viewportWidth env) lbl
                             (cropRegion lines caption))
                          (consoleWrite [LogExtracted lbl pageNum] st)))
          as (st' & E & F & R).
        exists st'. split; [exact E |]. split; [| exact R].
        rewrite F. simpl. now rewrite <- app_assoc.
    + exists new, c. auto.
    + exists [], Thrown. split; [constructor |]. intro st. exists st.
      rewrite app_nil_r. auto.
Qed.

Lemma pageBody_frame (pageNum : N) (env : PageEnv) :
  exists new c,
    Forall wellBuilt new
    /\ (pageFails env -> new = [])
    /\ forall st, exists st',
         pageBody sortItems pageNum env st = (st', c)
         /\ extractedFigures st' = extractedFigures st ++ new
         /\ requested st' = requested st ++ [pageNum].
Proof.
  unfold pageBody, pageFails.
  destruct (pageItems env) as [raw |] eqn:Eraw.
  2:{ exists [], Thrown. split; [constructor |]. split; [reflexivity |].
      intro st. eexists. split; [reflexivity |]. simpl.
      rewrite app_nil_r. auto. }
  destruct (pageLines sortItems raw) as [lines |].
  2:{ exists [], Thrown. split; [constructor |]. split; [reflexivity |].
      intro st. eexists. split; [reflexivity |]. simpl.
      rewrite app_nil_r. auto. }
  destruct (captionLines lines) as [| caption captions] eqn:Ecap.
  { exists [], Normal. split; [constructor |]. split; [reflexivity |].
    intro st. eexists. split; [reflexivity |]. simpl.
    rewrite app_nil_r. auto. }
  destruct (pageContext env) eqn:Ectx; simpl negb; cbv iota.
  2:{ exists [], Normal. split; [constructor |]. split; [reflexivity |].
      intro st. eexists. split; [reflexivity |]. simpl.
      rewrite app_nil_r. auto. }
  destruct (pageRenders env) eqn:Ernd; simpl negb; cbv iota.
  2:{ exists [], Thrown. split; [constructor |]. split; [reflexivity |].
      intro st. eexists. split; [reflexivity |]. simpl.
      rewrite app_nil_r. auto. }
  destruct (cropLoop_frame env pageNum lines (caption :: captions) 0%nat)
    as (new & c & Hnew & Hrun).
  exists new, c. split.
  - eapply Forall_impl; [| exact Hnew].
    intros f (cap & Hb). exists pageNum, (viewportWidth env), lines, cap.
    exact Hb.
  - split; [intros [H | [H | H]]; discriminate |].
    intro st.
    destruct (Hrun (consoleWrite
                      (map (fun l => LogCandidate pageNum (Line.text l))
                           (caption :: captions))
                      (requestPage pageNum st))) as (st' & E & F & R).
    exists st'. split; [exact E |]. split; [exact F | exact R].
Qed.

Lemma processPage_frame (pageNum : N) (env : PageEnv) :
  Forall wellBuilt (pageFigures sortItems pageNum env)
  /\ (pageFails env -> pageFigures sortItems pageNum env = [])
  /\ forall st,
       extractedFigures (processPage sortItems pageNum env st)
       = extractedFigures st ++ pageFigures sortItems pageNum env
       /\ requested (processPage sortItems pageNum env st)
          = requested st ++ [pageNum].
Proof.
  destruct (pageBody_frame pageNum env) as (new & c & Hnew & Hfail & Hrun).
  assert (K : forall st,
             extractedFigures (processPage sortItems pageNum env st)
             = extractedFigures st ++ new
             /\ requested (processPage sortItems pageNum env st)
                = requested st ++ [pageNum]).
  { intro st. unfold processPage.
    destruct (Hrun st) as (st' & E & F & R). rewrite E.
    destruct c; simpl; auto. }
  assert (P : pageFigures sortItems pageNum env = new).
  { unfold pageFigures. destruct (K (initialState 0)) as [F _].
    rewrite F. reflexivity. }
  rewrite P. split; [exact Hnew |]. split; [exact Hfail | exact K].
Qed.

Lemma pageLoop_frame (pages : list PageEnv) :
  forall pageNum st,
    extractedFigures (pageLoop sortItems pageNum pages st)
    = extractedFigures st ++ figuresFrom sortItems pageNum pages
    /\ requested (pageLoop sortItems pageNum pages st)
       = requested st ++ pageNumbers pageNum (List.length pages).
Proof.
  induction pages as [| env rest IH]; intros pageNum st; simpl.
  - rewrite !app_nil_r. auto.
  - destruct (IH (pageNum + 1)%N (processPage sortItems pageNum env st))
      as [F R].
    destruct (processPage_frame pageNum env) as (_ & _ & K).
    destruct (K st) as [F1 R1].
    rewrite F, R, F1, R1. rewrite <- !app_assoc. auto.
Qed.

(** The result is the figures of the pages, page after page. *)
Lemma extract_figures (pdf : list PageEnv) :
  extractedFigures (extractImagesFromPdf sortItems pdf)
  = figuresFrom sortItems 1 pdf
  /\ requested (extractImagesFromPdf sortItems pdf)
     = pageNumbers 1 (List.length pdf).
Proof.
  unfold extractImagesFromPdf. apply pageLoop_frame.
Qed.

Lemma figuresFrom_app (pre post : list PageEnv) :
  forall pageNum,
    figuresFrom sortItems pageNum (pre ++ post)
    = figuresFrom sortItems pageNum pre
      ++ figuresFrom sortItems (pageNum + N.of_nat (List.length pre)) post.
Proof.
  induction pre as [| env pre IH]; intro pageNum.
  - simpl. now rewrite N.add_0_r.
  - cbn [app figuresFrom List.length]. rewrite IH, <- app_assoc.
    rewrite Nat2N.inj_succ.
    replace (pageNum + 1 + N.of_nat (List.length pre))%N
      with (pageNum + N.succ (N.of_nat (List.length pre)))%N by lia.
    reflexivity.
Qed.

Lemma figuresFrom_wellBuilt (pages : list PageEnv) :
  forall pageNum, Forall wellBuilt (figuresFrom sortItems pageNum pages).
Proof.
  induction pages as [| env rest IH]; intro pageNum; simpl.
  - constructor.
  - apply Forall_app. split; [| apply IH].
    apply (processPage_frame pageNum env).
Qed.

(** Every figure returned was built from a caption line of a page. *)
Lemma extracted_wellBuilt (pdf : list PageEnv) (f : ExtractedImage) :
  In f (extractedFigures (extractImagesFromPdf sortItems pdf)) ->
  wellBuilt f.
Proof.
  destruct (extract_figures pdf) as [E _]. rewrite E.
  pose proof (figuresFrom_wellBuilt pdf 1) as H.
  rewrite Forall_forall in H. apply H.
Qed.


End Loop.

(** C2 (amended). Every returned figure's label is "Figure " followed by
    one or more digits, whichever variant of the caption pattern matched.
    A caption line that begins with "Figure 1", "Fig. 1", "fig 1" or
    "FIGURE.1" and does not go on with a further digit is detected and
    gets the label "Figure 1". *)
Theorem caption_label_normalized :
  (forall sortItems pdf f,
      In f (extractedFigures (extractImagesFromPdf sortItems pdf)) ->
      exists ds, isNumeral ds /\ label f = js "Figure " ++ ds)
  /\ (forall v rest,
        In v captionVariants ->
        noDigitAhead rest ->
        Regex.test captionRegex (v ++ rest) = true
        /\ captionLabel (v ++ rest) = Some (js "Figure 1")).
Proof.
  split.
  - intros sortItems pdf f Hin.
    destruct (extracted_wellBuilt sortItems pdf f Hin)
      as (pageNum & width & lines & caption & lbl & Hl & _ & ->).
    simpl. apply (captionLabel_numeral _ _ Hl).
  - apply captionLabel_variant.
Qed.

(** C2 as stated fails: the line "Figure 12: detail" begins with
    "Figure 1", and its label is "Figure 12". *)
Lemma caption_label_longer_number :
  ~ (forall v rest,
        In v captionVariants ->
        captionLabel (v ++ rest) = Some (js "Figure 1")).
Proof.
  intro H.
  specialize (H (js "Figure 1") (js "2: detail") (or_introl eq_refl)).
  vm_compute in H. discriminate H.
Qed.


(** C8. When text extraction, the acquisition of the page canvas context or
    the render fails on a page, the page yields no figure, the result is
    the figures of the pages before it followed by the figures of the
    pages after it (under their own page numbers), and the pages requested
    are 1, 2, ..., each once and in order. *)
Theorem page_failure_is_local
    (sortItems : (Item.t -> Item.t -> Q) -> list Item.t -> list Item.t)
    (pre post : list PageEnv) (bad : PageEnv) :
  pageFails bad ->
  let final := extractImagesFromPdf sortItems (pre ++ bad :: post) in
  let n := N.of_nat (List.length pre) in
  pageFigures sortItems (n + 1) bad = []
  /\ extractedFigures final
     = figuresFrom sortItems 1 pre ++ figuresFrom sortItems (n + 2) post
  /\ requested final = pageNumbers 1 (List.length (pre ++ bad :: post)).
Proof.
  intro Hfail. cbv zeta.
  destruct (extract_figures sortItems (pre ++ bad :: post)) as [F R].
  split; [| split; [| exact R]].
  - apply (processPage_frame sortItems _ bad). exact Hfail.
  - rewrite F, figuresFrom_app. cbn [figuresFrom].
    destruct (processPage_frame sortItems
                (1 + N.of_nat (List.length pre)) bad) as (_ & E & _).
    rewrite (E Hfail). cbn [app].
    replace (1 + N.of_nat (List.length pre) + 1)%N
      with (N.of_nat (List.length pre) + 2)%N by lia.
    reflexivity.
Qed.

(* ================================================================== *)
(** ** The statements on the sample inputs *)

Lemma sample_figure_returned :
  In Sample.figure1
     (extractedFigures
        (extractImagesFromPdf Sample.sortItems [Sample.goodPage])).
Proof. vm_compute. left. reflexivity. Defined.

Lemma crop_above_caption_sample :
  (cropBottom (cropRegion Sample.lines Sample.caption) == 500
   /\ In Sample.intro Sample.lines
   /\ Line.bottom Sample.intro == 300)
  /\ initialCropTop Sample.lines
       (cropBottom (cropRegion Sample.lines Sample.caption)) == 315
  /\ cropTop (cropRegion Sample.lines Sample.caption) == 315
  /\ cropBottom (cropRegion Sample.lines Sample.caption) == 500.
Proof.
  split.
  - split; [reflexivity |]. split; [left; reflexivity | reflexivity].
  - apply (proj2 (proj2 (proj2
             (crop_above_caption Sample.lines Sample.caption))) Sample.intro).
    + reflexivity.
    + left; reflexivity.
    + reflexivity.
    + intros l [<- | [<- | []]] [H1 H2].
      * vm_compute. discriminate.
      * vm_compute in H2. discriminate H2.
Defined.

Lemma fallback_window_sample :
  (forall l, In l [Sample.loneCaption] ->
             ~ isAbove (Line.y Sample.loneCaption) l)
  /\ cropBottom (cropRegion [Sample.loneCaption] Sample.loneCaption) == 200
  /\ cropTop (cropRegion [Sample.loneCaption] Sample.loneCaption) == 0.
Proof.
  assert (H : forall l, In l [Sample.loneCaption] ->
                        ~ isAbove (Line.y Sample.loneCaption) l).
  { intros l [<- | []] [_ H2]. vm_compute in H2. discriminate H2. }
  split; [exact H |]. split; [reflexivity |].
  apply (proj1 (proj2 (proj2
           (fallback_window [Sample.loneCaption] Sample.loneCaption H)))).
  reflexivity.
Defined.

Lemma caption_label_normalized_sample :
  (In Sample.figure1
      (extractedFigures
         (extractImagesFromPdf Sample.sortItems [Sample.goodPage]))
   /\ exists ds, isNumeral ds /\ label Sample.figure1 = js "Figure " ++ ds)
  /\ (In (js "fig 1") captionVariants
      /\ noDigitAhead (js ": setup")
      /\ Regex.test captionRegex (js "fig 1" ++ js ": setup") = true
      /\ captionLabel (js "fig 1" ++ js ": setup") = Some (js "Figure 1")).
Proof.
  split.
  - split; [exact sample_figure_returned |].
    exact (proj1 caption_label_normalized _ _ _ sample_figure_returned).
  - assert (Hv : In (js "fig 1") captionVariants)
      by (right; right; left; reflexivity).
    assert (Hr : noDigitAhead (js ": setup")) by reflexivity.
    split; [exact Hv |]. split; [exact Hr |].
    exact (proj2 caption_label_normalized _ _ Hv Hr).
Defined.


Lemma page_failure_is_local_sample :
  pageFails Sample.unrenderedPage
  /\ pageFigures Sample.sortItems 2 Sample.unrenderedPage = []
  /\ extractedFigures
       (extractImagesFromPdf Sample.sortItems
          ([Sample.goodPage] ++ Sample.unrenderedPage :: [Sample.goodPage]))
     = figuresFrom Sample.sortItems 1 [Sample.goodPage]
       ++ figuresFrom Sample.sortItems 3 [Sample.goodPage]
  /\ requested
       (extractImagesFromPdf Sample.sortItems
          ([Sample.goodPage] ++ Sample.unrenderedPage :: [Sample.goodPage]))
     = [1; 2; 3]%N.
Proof.
  assert (H : pageFails Sample.unrenderedPage) by (right; right; reflexivity).
  split; [exact H |].
  exact (page_failure_is_local Sample.sortItems
           [Sample.goodPage] [Sample.goodPage] Sample.unrenderedPage H).
Defined.

(* ================================================================== *)
(** ** Further properties of the line reconstruction *)

Lemma minOf_le (vs : list Q) :
  forall v, minOf v vs <= v /\ forall w, In w vs -> minOf v vs <= w.
Proof.
  unfold minOf. induction vs as [| u vs IH]; intro v; cbn [fold_left].
  - split; [lra | intros w []].
  - destruct (IH (Num.min v u)) as [H1 H2].
    pose proof (Q.le_min_l v u). pose proof (Q.le_min_r v u).
    unfold Num.min in *. split; [lra |].
    intros w [<- | Hw]; [lra | apply H2; exact Hw].
Qed.

Lemma minOf_attained (vs : list Q) :
  forall v, minOf v vs == v \/ exists w, In w vs /\ minOf v vs == w.
Proof.
  unfold minOf. induction vs as [| u vs IH]; intro v; cbn [fold_left].
  - left. reflexivity.
  - destruct (IH (Num.min v u)) as [H | (w & Hw & H)].
    + unfold Num.min in *.
      destruct (Q.min_dec v u) as [E | E].
      * left. eapply Qeq_trans; [exact H | exact E].
      * right. exists u. split; [left; reflexivity |].
        eapply Qeq_trans; [exact H | exact E].
    + right. exists w. split; [right; exact Hw | exact H].
Qed.

Lemma maxOf_ge (vs : list Q) :
  forall v, v <= maxOf v vs /\ forall w, In w vs -> w <= maxOf v vs.
Proof.
  unfold maxOf. induction vs as [| u vs IH]; intro v; cbn [fold_left].
  - split; [lra | intros w []].
  - destruct (IH (Num.max v u)) as [H1 H2].
    pose proof (Q.le_max_l v u). pose proof (Q.le_max_r v u).
    unfold Num.max in *. split; [lra |].
    intros w [<- | Hw]; [lra | apply H2; exact Hw].
Qed.

Lemma maxOf_attained (vs : list Q) :
  forall v, maxOf v vs == v \/ exists w, In w vs /\ maxOf v vs == w.
Proof.
  unfold maxOf. induction vs as [| u vs IH]; intro v; cbn [fold_left].
  - left. reflexivity.
  - destruct (IH (Num.max v u)) as [H | (w & Hw & H)].
    + unfold Num.max in *.
      destruct (Q.max_dec v u) as [E | E].
      * left. eapply Qeq_trans; [exact H | exact E].
      * right. exists u. split; [left; reflexivity |].
        eapply Qeq_trans; [exact H | exact E].
    + right. exists w. split; [right; exact Hw | exact H].
Qed.

(** The fields of a merged line, in terms of the runs sorted by X. *)
Lemma mergeLine_fields (items : list Item.t) (line : Line.t) :
  mergeLine items = Some line ->
  exists first rest,
    stableSort (fun a b => Item.x a - Item.x b) items = first :: rest
    /\ Line.text line = mergeLoop (Item.str first) first rest
    /\ Line.x line = Item.x first
    /\ Line.y line = minOf (Item.y first) (map Item.y rest)
    /\ Line.bottom line = maxOf (Item.bottom first) (map Item.bottom rest)
    /\ Line.height line = Line.bottom line - Line.y line.
Proof.
  unfold mergeLine.
  destruct (stableSort (fun a b => Item.x a - Item.x b) items)
    as [| first rest]; [discriminate |].
  intro H. injection H as <-. exists first, rest. cbn.
  repeat split; reflexivity.
Qed.

(** The bounds of a merged line. *)
Lemma mergeLine_bounds (items : list Item.t) (line : Line.t) :
  mergeLine items = Some line ->
  (forall i, In i items ->
             Line.y line <= Item.y i
             /\ Item.bottom i <= Line.bottom line
             /\ Line.x line <= Item.x i)
  /\ (exists i, In i items /\ Line.y line == Item.y i)
  /\ (exists i, In i items /\ Line.bottom line == Item.bottom i)
  /\ (exists i, In i items /\ Line.x line = Item.x i)
  /\ Line.height line = Line.bottom line - Line.y line.
Proof.
  intro H.
  destruct (mergeLine_fields items line H)
    as (first & rest & Es & _ & Ex & Ey & Eb & Eh).
  assert (Hin : forall i, In i items <-> In i (first :: rest)).
  { intro i. rewrite <- Es. symmetry. apply In_stableSort. }
  destruct (minOf_le (map Item.y rest) (Item.y first)) as [Hy1 Hy2].
  destruct (maxOf_ge (map Item.bottom rest) (Item.bottom first)) as [Hb1 Hb2].
  split; [| split; [| split; [| split]]].
  - intros i Hi. split; [| split].
    + rewrite Ey. apply Hin in Hi. destruct Hi as [<- | Hi]; [exact Hy1 |].
      apply Hy2. apply in_map. exact Hi.
    + rewrite Eb. apply Hin in Hi. destruct Hi as [<- | Hi]; [exact Hb1 |].
      apply Hb2. apply in_map. exact Hi.
    + rewrite Ex.
      apply (stableSort_head_least (fun a b => Item.x a - Item.x b) Item.x)
        with (l := items) (t := rest); [| exact Es | exact Hi].
      intros a b. split; intro; lra.
  - rewrite Ey.
    destruct (minOf_attained (map Item.y rest) (Item.y first))
      as [E | (w & Hw & E)].
    + exists first. split; [apply Hin; left; reflexivity | exact E].
    + apply in_map_iff in Hw. destruct Hw as (i & <- & Hi).
      exists i. split; [apply Hin; right; exact Hi | exact E].
  - rewrite Eb.
    destruct (maxOf_attained (map Item.bottom rest) (Item.bottom first))
      as [E | (w & Hw & E)].
    + exists first. split; [apply Hin; left; reflexivity | exact E].
    + apply in_map_iff in Hw. destruct Hw as (i & <- & Hi).
      exists i. split; [apply Hin; right; exact Hi | exact E].
  - exists first. split; [apply Hin; left; reflexivity | exact Ex].
  - exact Eh.
Qed.

(** X2. The box of a merged line is the union of its runs' boxes: its top
    is the least top and its bottom the greatest bottom of the runs, each
    attained by a run, its left edge is the least left edge, and its
    height is bottom minus top. *)
Theorem mergeLine_box (items : list Item.t) (line : Line.t) :
  mergeLine items = Some line ->
  (forall i, In i items ->
             Line.y line <= Item.y i
             /\ Item.bottom i <= Line.bottom line
             /\ Line.x line <= Item.x i)
  /\ (exists i, In i items /\ Line.y line == Item.y i)
  /\ (exists i, In i items /\ Line.bottom line == Item.bottom i)
  /\ (exists i, In i items /\ Line.x line = Item.x i)
  /\ Line.height line = Line.bottom line - Line.y line.
Proof. exact (mergeLine_bounds items line). Qed.

(** The groups of the runs and the lines merged from them. *)
Lemma groupLines_groups (items : list Item.t) :
  exists groups lines,
    Grouped items groups
    /\ groupLines items = Some lines
    /\ map mergeLine groups = map Some lines.
Proof.
  destruct items as [| first items].
  - exists [], []. split; [constructor |]. split; reflexivity.
  - destruct (groupLoop_Grouped items first [] [])
      as (g & gs & ls & st & G & L & C & M).
    exists (g :: gs), ls. split; [exact G |]. split; [| exact M].
    unfold groupLines. cbn [groupLoop groupStep rev]. cbn [app] in L.
    rewrite L. exact C.
Qed.

(** The groups are the runs, cut into non-empty pieces. *)
Lemma Grouped_concat (items : list Item.t) (groups : list (list Item.t)) :
  Grouped items groups ->
  List.concat groups = items /\ Forall (fun g => g <> []) groups.
Proof.
  induction 1 as [| a | a b rest g gs Hab H1 IH | a b rest gs Hab H1 IH].
  - split; [reflexivity | constructor].
  - split; [reflexivity | constructor; [discriminate | constructor]].
  - destruct IH as [E F]. cbn [List.concat] in *. split.
    + cbn [app]. f_equal. exact E.
    + inversion F; subst. constructor; [discriminate | assumption].
  - destruct IH as [E F]. cbn [List.concat] in *. split.
    + cbn [app]. f_equal. exact E.
    + constructor; [discriminate | assumption].
Qed.

Lemma merged_from_group (groups : list (list Item.t)) :
  forall lines,
    map mergeLine groups = map Some lines ->
    List.length lines = List.length groups
    /\ forall l, In l lines -> exists g, In g groups /\ mergeLine g = Some l.
Proof.
  induction groups as [| g groups IH]; intros [| l0 lines] H;
    try discriminate.
  - split; [reflexivity | intros l []].
  - cbn [map] in H. injection H as Hg Hrest.
    destruct (IH lines Hrest) as [Hlen Hin]. split.
    + cbn [List.length]. congruence.
    + intros l [<- | Hl].
      * exists g. split; [left; reflexivity | exact Hg].
      * destruct (Hin l Hl) as (g' & Hg' & E).
        exists g'. split; [right; exact Hg' | exact E].
Qed.

Lemma length_concat_nonempty {A : Type} (groups : list (list A)) :
  Forall (fun g => g <> []) groups ->
  (List.length groups <= List.length (List.concat groups))%nat.
Proof.
  induction 1 as [| g groups Hg _ IH]; [apply Nat.le_refl |].
  cbn [List.concat List.length]. rewrite length_app.
  destruct g as [| a g]; [congruence |]. cbn [List.length]. lia.
Qed.

(** X5. Grouping keeps every run, once and in order: the lines are merged
    from non-empty groups whose concatenation is the list of runs; so
    there are at most as many lines as runs, and no line exactly when
    there is no run. *)
Theorem line_grouping_conserves (items : list Item.t) :
  exists groups lines,
    groupLines items = Some lines
    /\ map mergeLine groups = map Some lines
    /\ List.concat groups = items
    /\ Forall (fun g => g <> []) groups
    /\ (List.length lines <= List.length items)%nat
    /\ (lines = [] <-> items = []).
Proof.
  destruct (groupLines_groups items) as (groups & lines & G & E & M).
  destruct (Grouped_concat _ _ G) as [C F].
  destruct (merged_from_group _ _ M) as [Hlen _].
  exists groups, lines.
  split; [exact E |]. split; [exact M |]. split; [exact C |].
  split; [exact F |]. split.
  - rewrite Hlen, <- C. apply length_concat_nonempty. exact F.
  - split; intro H.
    + subst lines. destruct groups; [| discriminate]. now rewrite <- C.
    + rewrite H in C. destruct groups as [| g groups].
      * destruct lines; [reflexivity | discriminate].
      * apply Forall_inv in F. cbn [List.concat] in C.
        apply app_eq_nil in C. destruct C. congruence.
Qed.

Lemma Joined_conserves (prev : Item.t) (rest : list Item.t) (t : jsstring) :
  Joined prev rest t ->
  withoutSpaces t = withoutSpaces (runTexts rest)
  /\ (List.length (runTexts rest) <= List.length t
      <= List.length (runTexts rest) + List.length rest)%nat.
Proof.
  unfold withoutSpaces, runTexts.
  induction 1 as [prev | prev curr rest t Hgap J [IH1 IH2]
                  | prev curr rest t Hgap J [IH1 IH2]];
    cbn [map List.concat List.length].
  - split; [reflexivity | cbn; lia].
  - split.
    + rewrite !filter_app, IH1. reflexivity.
    + rewrite !length_app. cbn [js List.length map list_ascii_of_string].
      lia.
  - split.
    + rewrite !filter_app, IH1. reflexivity.
    + rewrite !length_app. lia.
Qed.

(** X4. Merging changes the runs' texts only by adding spaces: without
    its U+0020 code units the text of the line is the texts of the runs,
    in left-to-right order, without theirs; and at most one code unit is
    added per junction. *)
Theorem merge_line_text_conserved (items : list Item.t) (line : Line.t) :
  mergeLine items = Some line ->
  exists sorted,
    Permutation items sorted
    /\ leftToRight sorted
    /\ withoutSpaces (Line.text line) = withoutSpaces (runTexts sorted)
    /\ (List.length (runTexts sorted) <= List.length (Line.text line)
        < List.length (runTexts sorted) + List.length sorted)%nat.
Proof.
  intro H.
  destruct (mergeLine_fields items line H)
    as (first & rest & Es & Et & _).
  destruct (mergeLoop_Joined rest first (Item.str first)) as (t & J & Em).
  destruct (Joined_conserves _ _ _ J) as [C1 C2].
  exists (first :: rest).
  split; [rewrite <- Es; apply stableSort_Permutation |].
  split; [rewrite <- Es; apply stableSort_sorted |].
  rewrite Et, Em. unfold withoutSpaces, runTexts in *.
  cbn [map List.concat List.length]. split.
  - rewrite !filter_app, C1. reflexivity.
  - rewrite !length_app. lia.
Qed.

(** X6. The comparator of the page-level sort is antisymmetric, but it is
    not transitive: three runs whose baselines are 5 apart from one to the
    next, left to right from the lowest to the highest, are ordered by X
    pairwise and by baseline between the first and the last. *)
Theorem compareItems_not_an_order :
  (forall a b, compareItems a b == - compareItems b a)
  /\ ~ (forall a b c,
          compareItems a b <= 0 ->
          compareItems b c <= 0 ->
          compareItems a c <= 0).
Proof.
  split.
  - intros a b. unfold compareItems, Num.abs.
    rewrite (Qabs_Qminus (Item.bottom b) (Item.bottom a)).
    destruct (Num.ltb (Qabs (Item.bottom a - Item.bottom b)) 8); ring.
  - intro H.
    specialize (H Fixture.low Fixture.mid Fixture.high).
    assert (K : ~ compareItems Fixture.low Fixture.high <= 0)
      by (vm_compute; intro K; apply K; reflexivity).
    apply K, H; vm_compute; discriminate.
Qed.

Lemma hasVisibleText_app (a b : jsstring) :
  hasVisibleText a = true -> hasVisibleText (a ++ b) = true.
Proof.
  unfold hasVisibleText. intro H. rewrite existsb_app, H. reflexivity.
Qed.

(** A line merged from runs with visible text has visible text. *)
Lemma mergeLine_visible (items : list Item.t) (line : Line.t) :
  mergeLine items = Some line ->
  (forall i, In i items -> hasVisibleText (Item.str i) = true) ->
  hasVisibleText (Line.text line) = true.
Proof.
  intros H Hitems.
  destruct (mergeLine_fields items line H) as (first & rest & Es & Et & _).
  destruct (mergeLoop_Joined rest first (Item.str first)) as (t & _ & Em).
  rewrite Et, Em. apply hasVisibleText_app.
  apply Hitems. apply (In_stableSort (fun a b => Item.x a - Item.x b)).
  rewrite Es. left. reflexivity.
Qed.

(** X3. Line reconstruction does not throw ([mergeLine] is never called
    on an empty array), and the text of every line it yields has a code
    unit that is not white space -- for an engine whose sort returns only
    elements of the array it is given. *)
Theorem page_lines_well_formed
    (sortItems : (Item.t -> Item.t -> Q) -> list Item.t -> list Item.t)
    (raw : list RawItem.t) :
  sortKeepsElements sortItems ->
  exists lines,
    pageLines sortItems raw = Some lines
    /\ forall l, In l lines -> hasVisibleText (Line.text l) = true.
Proof.
  intro Hsort. unfold pageLines.
  set (items := filter (fun i => hasVisibleText (Item.str i)) (map toItem raw)).
  destruct (groupLines_groups (sortItems compareItems items))
    as (groups & lines & G & E & M).
  exists lines. split; [exact E |].
  intros l Hl.
  destruct (merged_from_group _ _ M) as [_ Hfrom].
  destruct (Hfrom l Hl) as (g & Hg & Eg).
  apply (mergeLine_visible g l Eg).
  intros i Hi.
  assert (Hsorted : In i (sortItems compareItems items)).
  { destruct (Grouped_concat _ _ G) as [C _]. rewrite <- C.
    apply in_concat. exists g. split; assumption. }
  apply Hsort in Hsorted. unfold items in Hsorted.
  apply filter_In in Hsorted. exact (proj2 Hsorted).
Qed.

(* ================================================================== *)
(** ** Further properties of the crop region *)




(* ================================================================== *)
(** ** Further properties of the document loop *)

Lemma extractedLog_app (es1 es2 : list ConsoleEntry) :
  extractedLog (es1 ++ es2) = extractedLog es1 ++ extractedLog es2.
Proof.
  induction es1 as [| e es1 IH]; [reflexivity |].
  destruct e; cbn [app extractedLog]; rewrite IH; reflexivity.
Qed.

Lemma errorLog_app (es1 es2 : list ConsoleEntry) :
  errorLog (es1 ++ es2) = errorLog es1 ++ errorLog es2.
Proof.
  induction es1 as [| e es1 IH]; [reflexivity |].
  destruct e; cbn [app errorLog]; rewrite IH; reflexivity.
Qed.

Lemma extractedLog_candidates (pageNum : N) (captions : list Line.t) :
  extractedLog (map (fun l => LogCandidate pageNum (Line.text l)) captions) = [].
Proof. induction captions as [| c cs IH]; [reflexivity | exact IH]. Qed.

Lemma errorLog_candidates (pageNum : N) (captions : list Line.t) :
  errorLog (map (fun l => LogCandidate pageNum (Line.text l)) captions) = [].
Proof. induction captions as [| c cs IH]; [reflexivity | exact IH]. Qed.

(** The crop loop in full: the figures and console entries it adds do not
    depend on the state, the entries are the "Extracted" entries of the
    figures, and it ends by an exception only when a crop throws. *)
Lemma cropLoop_adds (env : PageEnv) (pageNum : N) (lines : list Line.t)
    (captions : list Line.t) :
  forall k, exists (add : Added) (c : Completion),
    (forall st,
        cropLoop env pageNum lines captions k st
        = ({| extractedFigures := extractedFigures st ++ addedFigures add;
              console := console st ++ addedEntries add;
              requested := requested st |}, c))
    /\ extractedLog (addedEntries add)
       = map (fun f => (label f, page f)) (addedFigures add)
    /\ errorLog (addedEntries add) = []
    /\ Forall (fun f => exists caption,
                   builtFrom pageNum (viewportWidth env) lines caption f)
              (addedFigures add)
    /\ (List.length (addedFigures add) <= List.length captions)%nat
    /\ (c = Thrown -> exists j, cropOutcome env j = CropThrows).
Proof.
  assert (Hid : forall st : State,
             st = {| extractedFigures := extractedFigures st ++ [];
                     console := console st ++ [];
                     requested := requested st |}).
  { intros [fs cs rs]. cbn. now rewrite !app_nil_r. }
  induction captions as [| caption rest IH]; intro k.
  - exists (mkAdded [] []), Normal. cbn [addedFigures addedEntries cropLoop].
    split; [intro st; f_equal; apply Hid |].
    repeat split; try constructor. discriminate.
  - destruct (IH (S k)) as (add & c & Hrun & Hlog & Herr & Hb & Hlen & Hthrow).
    assert (Hskip : exists (add : Added) (c : Completion),
               (forall st,
                   cropLoop env pageNum lines rest (S k) st
                   = ({| extractedFigures := extractedFigures st ++ addedFigures add;
                         console := console st ++ addedEntries add;
                         requested := requested st |}, c))
               /\ extractedLog (addedEntries add)
                  = map (fun f => (label f, page f)) (addedFigures add)
               /\ errorLog (addedEntries add) = []
               /\ Forall (fun f => exists caption,
                              builtFrom pageNum (viewportWidth env) lines caption f)
                         (addedFigures add)
               /\ (List.length (addedFigures add)
                   <= List.length (caption :: rest))%nat
               /\ (c = Thrown -> exists j, cropOutcome env j = CropThrows)).
    { exists add, c. repeat split; try assumption. cbn [List.length]. lia. }
    cbn [cropLoop].
    destruct (captionLabel (Line.text caption)) as [lbl |] eqn:El;
      [| exact Hskip].
    destruct (Num.leb (cropHeight (cropRegion lines caption)) 0) eqn:Eh;
      [exact Hskip |].
    destruct (cropOutcome env k) eqn:Ek; [| exact Hskip |].
    + exists (mkAdded
                (makeFigure pageNum (viewportWidth env) lbl
                   (cropRegion lines caption) :: addedFigures add)
                (LogExtracted lbl pageNum :: addedEntries add)), c.
      cbn [addedFigures addedEntries].
      split; [| split; [| split; [| split; [| split]]]].
      * intro st. rewrite Hrun. cbn. now rewrite <- !app_assoc.
      * cbn. now rewrite Hlog.
      * exact Herr.
      * constructor; [| exact Hb]. exists caption, lbl.
        split; [exact El |]. split; [apply leb_false; exact Eh | reflexivity].
      * cbn [List.length]. lia.
      * exact Hthrow.
    + exists (mkAdded [] []), Thrown. cbn [addedFigures addedEntries].
      split; [intro st; f_equal; apply Hid |].
      repeat split; try constructor.
      * cbn [List.length]. lia.
      * intros _. exists k. exact Ek.
Qed.

(** Equal states, up to the laws of append. *)
Ltac state_eq :=
  unfold consoleWrite, requestPage, pushFigure;
  cbn [extractedFigures console requested];
  rewrite ?app_nil_r, <- ?app_assoc; reflexivity.

Section LoopAdds.

Variable sortItems : (Item.t -> Item.t -> Q) -> list Item.t -> list Item.t.

(** Line reconstruction does not throw. *)
Lemma pageLines_total (raw : list RawItem.t) :
  exists lines, pageLines sortItems raw = Some lines.
Proof.
  unfold pageLines.
  destruct (groupLines_groups
              (sortItems compareItems
                 (filter (fun i => hasVisibleText (Item.str i))
                    (map toItem raw))))
    as (groups & lines & _ & E & _).
  exists lines. exact E.
Qed.

(** What a page adds, whatever the state it is processed in. *)
Lemma processPage_adds (pageNum : N) (env : PageEnv) :
  exists add : Added,
    (forall st, processPage sortItems pageNum env st = extend st pageNum add)
    /\ extractedLog (addedEntries add)
       = map (fun f => (label f, page f)) (addedFigures add)
    /\ Forall (fun f => exists lines caption,
                   builtFrom pageNum (viewportWidth env) lines caption f)
              (addedFigures add)
    /\ (errorLog (addedEntries add) = []
        \/ (errorLog (addedEntries add) = [pageNum] /\ somethingThrows env))
    /\ (pageItems env = None -> add = mkAdded [] [LogError pageNum])
    /\ (pageItems env <> None -> pageContext env = false ->
        addedFigures add = [] /\ errorLog (addedEntries add) = [])
    /\ (forall raw lines,
           pageItems env = Some raw ->
           pageLines sortItems raw = Some lines ->
           (List.length (addedFigures add)
            <= List.length (captionLines lines))%nat
           /\ (captionLines lines = [] -> add = mkAdded [] [])).
Proof.
  unfold processPage, pageBody, extend.
  destruct (pageItems env) as [raw |] eqn:Eraw.
  2:{ exists (mkAdded [] [LogError pageNum]). cbn [addedFigures addedEntries].
      split; [intro st; state_eq |].
      split; [reflexivity |]. split; [constructor |].
      split; [right; split; [reflexivity | left; exact Eraw] |].
      split; [reflexivity |]. split; [congruence |]. discriminate. }
  destruct (pageLines_total raw) as [lines Elines]. rewrite Elines.
  destruct (captionLines lines) as [| caption captions] eqn:Ecap.
  { exists (mkAdded [] []). cbn [addedFigures addedEntries].
    split; [intro st; state_eq |].
    split; [reflexivity |]. split; [constructor |].
    split; [left; reflexivity |]. split; [discriminate |].
    split; [split; reflexivity |].
    intros raw' lines' [= <-] E'. rewrite Elines in E'. injection E' as <-.
    rewrite Ecap. split; [apply Nat.le_refl | reflexivity]. }
  set (cands := map (fun l => LogCandidate pageNum (Line.text l))
                    (caption :: captions)).
  destruct (pageContext env) eqn:Ectx; cbn [negb].
  2:{ exists (mkAdded [] cands). cbn [addedFigures addedEntries].
      split; [intro st; state_eq |].
      split; [apply extractedLog_candidates |]. split; [constructor |].
      split; [left; apply errorLog_candidates |]. split; [discriminate |].
      split; [intros _ _; split; [reflexivity | apply errorLog_candidates] |].
      intros raw' lines' [= <-] E'. rewrite Elines in E'. injection E' as <-.
      rewrite Ecap. split; [cbn; lia | discriminate]. }
  destruct (pageRenders env) eqn:Ernd; cbn [negb].
  2:{ exists (mkAdded [] (cands ++ [LogError pageNum])).
      cbn [addedFigures addedEntries].
      split; [intro st; state_eq |].
      split; [rewrite extractedLog_app; unfold cands;
              rewrite extractedLog_candidates; reflexivity |].
      split; [constructor |].
      split; [right; split;
              [rewrite errorLog_app; unfold cands;
               rewrite errorLog_candidates; reflexivity
              | right; left; exact Ernd] |].
      split; [discriminate |]. split; [discriminate |].
      intros raw' lines' [= <-] E'. rewrite Elines in E'. injection E' as <-.
      rewrite Ecap. split; [cbn; lia | discriminate]. }
  destruct (cropLoop_adds env pageNum lines (caption :: captions) 0%nat)
    as (add & c & Hrun & Hlog & Herr & Hb & Hlen & Hthrow).
  exists (mkAdded (addedFigures add)
            (cands ++ addedEntries add
             ++ match c with Normal => [] | Thrown => [LogError pageNum] end)).
  cbn [addedFigures addedEntries].
  split; [| split; [| split; [| split; [| split; [| split]]]]].
  - intro st. rewrite Hrun. destruct c; state_eq.
  - rewrite !extractedLog_app. unfold cands.
    rewrite extractedLog_candidates, Hlog.
    destruct c; cbn; now rewrite app_nil_r.
  - eapply Forall_impl; [| exact Hb]. intros f (cap & H). exists lines, cap.
    exact H.
  - rewrite !errorLog_app. unfold cands. rewrite errorLog_candidates, Herr.
    destruct c; cbn; [left; reflexivity |].
    right. split; [reflexivity |]. right. right. apply Hthrow. reflexivity.
  - discriminate.
  - discriminate.
  - intros raw' lines' [= <-] E'. rewrite Elines in E'. injection E' as <-.
    rewrite Ecap. split; [exact Hlen | discriminate].
Qed.

(** The page adds [pageAdded], whatever the state. *)
Lemma processPage_extend (pageNum : N) (env : PageEnv) (st : State) :
  processPage sortItems pageNum env st
  = extend st pageNum (pageAdded sortItems pageNum env).
Proof.
  destruct (processPage_adds pageNum env) as (add & Hrun & _).
  assert (E : pageAdded sortItems pageNum env = add).
  { unfold pageAdded. rewrite Hrun. destruct add. reflexivity. }
  rewrite E. apply Hrun.
Qed.

Lemma pageAdded_spec (pageNum : N) (env : PageEnv) :
  let add := pageAdded sortItems pageNum env in
  extractedLog (addedEntries add)
  = map (fun f => (label f, page f)) (addedFigures add)
  /\ Forall (fun f => exists lines caption,
                 builtFrom pageNum (viewportWidth env) lines caption f)
            (addedFigures add)
  /\ (errorLog (addedEntries add) = []
      \/ (errorLog (addedEntries add) = [pageNum] /\ somethingThrows env))
  /\ (pageItems env = None -> add = mkAdded [] [LogError pageNum])
  /\ (pageItems env <> None -> pageContext env = false ->
      addedFigures add = [] /\ errorLog (addedEntries add) = [])
  /\ (forall raw lines,
         pageItems env = Some raw ->
         pageLines sortItems raw = Some lines ->
         (List.length (addedFigures add)
          <= List.length (captionLines lines))%nat
         /\ (captionLines lines = [] -> add = mkAdded [] [])).
Proof.
  destruct (processPage_adds pageNum env) as (add & Hrun & Hrest).
  assert (E : pageAdded sortItems pageNum env = add).
  { unfold pageAdded. rewrite Hrun. destruct add. reflexivity. }
  cbv zeta. rewrite E. exact Hrest.
Qed.

End LoopAdds.

Lemma StronglySorted_app {A : Type} (R : A -> A -> Prop) (l1 l2 : list A) :
  StronglySorted R l1 ->
  StronglySorted R l2 ->
  (forall a b, In a l1 -> In b l2 -> R a b) ->
  StronglySorted R (l1 ++ l2).
Proof.
  induction l1 as [| a l1 IH]; intros H1 H2 H; [exact H2 |].
  apply StronglySorted_inv in H1. destruct H1 as [H1 Ha].
  cbn [app]. constructor.
  - apply IH; [exact H1 | exact H2 |].
    intros x y Hx Hy. apply H; [right; exact Hx | exact Hy].
  - apply Forall_app. split; [exact Ha |].
    apply Forall_forall. intros y Hy. apply H; [left; reflexivity | exact Hy].
Qed.

Lemma StronglySorted_same {A : Type} (key : A -> N) (n : N) (l : list A) :
  Forall (fun a => key a = n) l ->
  StronglySorted (fun a b => (key a <= key b)%N) l.
Proof.
  induction 1 as [| a l Ha Hl IH]; constructor; [exact IH |].
  eapply Forall_impl; [| exact Hl]. cbv beta. intros b Hb. lia.
Qed.

Section Document.

Variable sortItems : (Item.t -> Item.t -> Q) -> list Item.t -> list Item.t.

(** The figures of a page carry its number. *)
Lemma pageAdded_page (pageNum : N) (env : PageEnv) :
  Forall (fun f => page f = pageNum /\ imgPage (src f) = pageNum)
         (addedFigures (pageAdded sortItems pageNum env)).
Proof.
  destruct (pageAdded_spec sortItems pageNum env) as (_ & Hb & _).
  eapply Forall_impl; [| exact Hb].
  intros f (lines & caption & lbl & _ & _ & ->). split; reflexivity.
Qed.

Lemma pageLoop_order (pages : list PageEnv) :
  forall pageNum st,
    (1 <= pageNum)%N ->
    Forall (fun f => (1 <= page f < pageNum)%N /\ imgPage (src f) = page f)
           (extractedFigures st) ->
    StronglySorted (fun f g => (page f <= page g)%N) (extractedFigures st) ->
    let final := pageLoop sortItems pageNum pages st in
    Forall (fun f => (1 <= page f < pageNum + N.of_nat (List.length pages))%N
                     /\ imgPage (src f) = page f)
           (extractedFigures final)
    /\ StronglySorted (fun f g => (page f <= page g)%N)
                      (extractedFigures final).
Proof.
  induction pages as [| env rest IH]; intros pageNum st Hone Hrange Hsorted.
  - cbn [pageLoop List.length]. split; [| exact Hsorted].
    eapply Forall_impl; [| exact Hrange]. cbv beta. intros f Hf. lia.
  - cbn [pageLoop List.length]. cbv zeta.
    pose proof (pageAdded_page pageNum env) as Hpage.
    destruct (IH (pageNum + 1)%N (processPage sortItems pageNum env st))
      as [R S].
    + lia.
    + rewrite processPage_extend. unfold extend. cbn [extractedFigures].
      apply Forall_app. split.
      * eapply Forall_impl; [| exact Hrange]. cbv beta. intros f Hf. lia.
      * eapply Forall_impl; [| exact Hpage]. cbv beta.
        intros f [E1 E2]. rewrite E1, E2. lia.
    + rewrite processPage_extend. unfold extend. cbn [extractedFigures].
      apply StronglySorted_app; [exact Hsorted | |].
      * apply (StronglySorted_same page pageNum).
        eapply Forall_impl; [| exact Hpage]. cbv beta. intros f [E _].
        exact E.
      * intros a b Ha Hb. rewrite Forall_forall in Hrange, Hpage.
        destruct (Hrange a Ha) as [Hr _]. destruct (Hpage b Hb) as [E _].
        lia.
    + split; [| exact S].
      eapply Forall_impl; [| exact R]. cbv beta. intros f Hf.
      rewrite Nat2N.inj_succ. lia.
Qed.

End Document.

Section DocumentErrors.

Variable sortItems : (Item.t -> Item.t -> Q) -> list Item.t -> list Item.t.

(** Pages without a caption line leave the figures and the console as
    they are. *)
Lemma pageLoop_quiet (pages : list PageEnv) :
  (forall env, In env pages ->
     exists raw lines,
       pageItems env = Some raw
       /\ pageLines sortItems raw = Some lines
       /\ captionLines lines = []) ->
  forall pageNum st,
    pageLoop sortItems pageNum pages st
    = {| extractedFigures := extractedFigures st;
         console := console st;
         requested := requested st ++ pageNumbers pageNum (List.length pages) |}.
Proof.
  induction pages as [| env rest IH]; intros Hfree pageNum st.
  - destruct st. cbn. now rewrite app_nil_r.
  - cbn [pageLoop List.length pageNumbers].
    rewrite IH by (intros e He; apply Hfree; right; exact He).
    rewrite processPage_extend.
    destruct (Hfree env (or_introl eq_refl)) as (raw & lines & Er & El & Ec).
    destruct (pageAdded_spec sortItems pageNum env)
      as (_ & _ & _ & _ & _ & Hcap).
    destruct (Hcap raw lines Er El) as [_ Hnone]. rewrite (Hnone Ec).
    unfold extend. cbn [extractedFigures console requested addedFigures
                          addedEntries].
    rewrite !app_nil_r, <- app_assoc. reflexivity.
Qed.

(** The pages with an error entry, in terms of what each page adds. *)
Lemma pageLoop_errors (pages : list PageEnv) :
  forall pageNum st m,
    In m (errorLog (console (pageLoop sortItems pageNum pages st)))
    <-> In m (errorLog (console st))
        \/ exists i env,
             nth_error pages i = Some env
             /\ m = (pageNum + N.of_nat i)%N
             /\ errorLog (addedEntries (pageAdded sortItems m env)) = [m].
Proof.
  induction pages as [| env rest IH]; intros pageNum st m.
  - cbn [pageLoop]. split; [intro H; left; exact H |].
    intros [H | (i & e & H & _)]; [exact H |].
    destruct i; discriminate.
  - cbn [pageLoop]. rewrite IH, processPage_extend.
    unfold extend. cbn [console]. rewrite errorLog_app, in_app_iff.
    destruct (pageAdded_spec sortItems pageNum env)
      as (_ & _ & Herr & _).
    split.
    + intros [[H | H] | (i & e & Hn & -> & He)].
      * left. exact H.
      * right. exists 0%nat, env.
        destruct Herr as [E | [E _]]; rewrite E in H; [destruct H |].
        destruct H as [<- | []].
        split; [reflexivity |]. split; [cbn; lia | exact E].
      * right. exists (S i), e. split; [exact Hn |].
        rewrite Nat2N.inj_succ. split; [lia | exact He].
    + intros [H | (i & e & Hn & -> & He)].
      * left. left. exact H.
      * destruct i as [| i].
        -- cbn in Hn. injection Hn as <-.
           replace (pageNum + N.of_nat 0)%N with pageNum in * by (cbn; lia).
           left. right. rewrite He. left. reflexivity.
        -- right. exists i, e. split; [exact Hn |].
           rewrite Nat2N.inj_succ in *.
           replace (pageNum + N.succ (N.of_nat i))%N
             with (pageNum + 1 + N.of_nat i)%N in * by lia.
           split; [reflexivity | exact He].
Qed.


End DocumentErrors.

Lemma pageFigures_added sortItems (pageNum : N) (env : PageEnv) :
  pageFigures sortItems pageNum env
  = addedFigures (pageAdded sortItems pageNum env).
Proof.
  unfold pageFigures. rewrite processPage_extend. reflexivity.
Qed.

(** X9. The returned figures are in page order, every one carries the
    number of a page of the document (from 1 to the number of pages), and
    its image was cropped from that page. *)
Theorem figures_in_page_order
    (sortItems : (Item.t -> Item.t -> Q) -> list Item.t -> list Item.t)
    (pdf : list PageEnv) :
  let figures := extractedFigures (extractImagesFromPdf sortItems pdf) in
  StronglySorted (fun f g => (page f <= page g)%N) figures
  /\ forall f, In f figures ->
       (1 <= page f <= N.of_nat (List.length pdf))%N
       /\ imgPage (src f) = page f.
Proof.
  cbv zeta. unfold extractImagesFromPdf.
  destruct (pageLoop_order sortItems pdf 1%N
              (initialState (List.length pdf))) as [R S].
  - lia.
  - constructor.
  - constructor.
  - split; [exact S |]. intros f Hf. rewrite Forall_forall in R.
    destruct (R f Hf) as [Hr E]. split; [lia | exact E].
Qed.

(** X10. A document whose pages have no caption line gives no figure and
    writes nothing to the console after the "loaded" entry -- no error --
    whatever the canvas would do; every page is still requested once. *)
Theorem no_caption_no_figure
    (sortItems : (Item.t -> Item.t -> Q) -> list Item.t -> list Item.t)
    (pdf : list PageEnv) :
  (forall env, In env pdf ->
     exists raw lines,
       pageItems env = Some raw
       /\ pageLines sortItems raw = Some lines
       /\ captionLines lines = []) ->
  extractImagesFromPdf sortItems pdf
  = {| extractedFigures := [];
       console := [LogLoaded (N.of_nat (List.length pdf))];
       requested := pageNumbers 1 (List.length pdf) |}.
Proof.
  intro H. unfold extractImagesFromPdf.
  rewrite (pageLoop_quiet sortItems pdf H). reflexivity.
Qed.

(** X11. Error entries and pages: the console has an error entry for a
    page only if something threw on that page (text extraction, the
    render, or a crop); it has one when the page's text extraction
    throws; it has none for a page whose text is extracted and whose page
    canvas has no 2D context -- that page is skipped without a trace. *)
Theorem error_entries
    (sortItems : (Item.t -> Item.t -> Q) -> list Item.t -> list Item.t)
    (pdf : list PageEnv) (i : nat) (env : PageEnv) :
  nth_error pdf i = Some env ->
  let pageNum := (N.of_nat i + 1)%N in
  let errors := errorLog (console (extractImagesFromPdf sortItems pdf)) in
  (In pageNum errors -> somethingThrows env)
  /\ (pageItems env = None -> In pageNum errors)
  /\ (pageItems env <> None -> pageContext env = false ->
      ~ In pageNum errors).
Proof.
  intro Hnth. cbv zeta. unfold extractImagesFromPdf.
  pose proof (pageLoop_errors sortItems pdf 1%N
                (initialState (List.length pdf)) (N.of_nat i + 1)%N) as Hiff.
  destruct (pageAdded_spec sortItems (N.of_nat i + 1)%N env)
    as (_ & _ & Herr & Hnone & Hctx & _).
  assert (Hown : In (N.of_nat i + 1)%N
                    (errorLog
                       (console
                          (pageLoop sortItems 1 pdf
                             (initialState (List.length pdf)))))
                 -> errorLog
                      (addedEntries
                         (pageAdded sortItems (N.of_nat i + 1)%N env))
                    = [(N.of_nat i + 1)%N]).
  { intro Hin. apply Hiff in Hin. destruct Hin as [[] | (j & e & Hj & Ej & He)].
    assert (j = i) by lia. subst j. rewrite Hnth in Hj. injection Hj as <-.
    exact He. }
  split; [| split].
  - intro Hin. apply Hown in Hin.
    destruct Herr as [E | [_ T]]; [congruence | exact T].
  - intro Hn. apply Hiff. right. exists i, env.
    split; [exact Hnth |]. split; [lia |].
    rewrite (Hnone Hn). reflexivity.
  - intros Hsome Hc Hin. apply Hown in Hin.
    destruct (Hctx Hsome Hc) as [_ E]. congruence.
Qed.


(** X14. A page yields at most one figure for each of its caption
    lines. *)
Theorem at_most_one_figure_per_caption
    (sortItems : (Item.t -> Item.t -> Q) -> list Item.t -> list Item.t)
    (pageNum : N) (env : PageEnv) (raw : list RawItem.t)
    (lines : list Line.t) :
  pageItems env = Some raw ->
  pageLines sortItems raw = Some lines ->
  (List.length (pageFigures sortItems pageNum env)
   <= List.length (captionLines lines))%nat.
Proof.
  intros Eraw Elines. rewrite pageFigures_added.
  destruct (pageAdded_spec sortItems pageNum env)
    as (_ & _ & _ & _ & _ & Hcap).
  apply (Hcap raw lines Eraw Elines).
Qed.

(* ================================================================== *)
(** ** The caller: processing a file *)

Section AppFacts.

Context {File Article : Type}.

Variable sortItems : (Item.t -> Item.t -> Q) -> list Item.t -> list Item.t.

Lemma after_app (st : @App.State File Article) (es1 es2 : list (@App.Event File Article)) :
  App.after st (es1 ++ es2) = App.after (App.after st es1) es2.
Proof. apply fold_left_app. Qed.

Lemma last_nonempty {A : Type} (a : A) (l : list A) (d1 d2 : A) :
  last (a :: l) d1 = last (a :: l) d2.
Proof.
  revert a. induction l as [| b l IH]; intro a; [reflexivity |].
  change (last (b :: l) d1 = last (b :: l) d2). apply IH.
Qed.

(** Progress messages change the status message only. *)
Lemma after_messages (ms : list jsstring) :
  forall st : @App.State File Article,
    let st' := App.after st (map App.SetStatusMessage ms) in
    App.file st' = App.file st
    /\ App.status st' = App.status st
    /\ App.article st' = App.article st
    /\ App.extractedImages st' = App.extractedImages st
    /\ App.statusMessage st' = last ms (App.statusMessage st).
Proof.
  induction ms as [| m ms IH]; intro st; [cbn; auto |].
  cbn [map]. unfold App.after in *. cbn [fold_left].
  destruct (IH (App.apply st (App.SetStatusMessage m)))
    as (H1 & H2 & H3 & H4 & H5).
  cbv zeta. rewrite H1, H2, H3, H4, H5. cbn [App.apply App.file App.status
    App.article App.extractedImages App.statusMessage].
  repeat split; try reflexivity.
  destruct ms as [| j ms]; [reflexivity |].
  change (last (j :: ms) m = last (j :: ms) (App.statusMessage st)).
  apply last_nonempty.
Qed.

Lemma statuses_app (es1 es2 : list (@App.Event File Article)) :
  App.statuses (es1 ++ es2) = App.statuses es1 ++ App.statuses es2.
Proof.
  induction es1 as [| e es1 IH]; [reflexivity |].
  destruct e; cbn [app App.statuses]; rewrite IH; reflexivity.
Qed.

Lemma statuses_messages (ms : list jsstring) :
  App.statuses (map (@App.SetStatusMessage File Article) ms) = [].
Proof. induction ms as [| m ms IH]; [reflexivity | exact IH]. Qed.

(** The extraction step writes the figure list (when the document opens)
    and the status message, nothing else. *)
Lemma after_extractionStep (st : @App.State File Article) (run : App.Run) :
  let st' := App.after st (App.extractionStep sortItems run) in
  App.file st' = App.file st
  /\ App.status st' = App.status st
  /\ App.article st' = App.article st
  /\ App.extractedImages st'
     = match App.document run with
       | Some pdf => extractedFigures (extractImagesFromPdf sortItems pdf)
       | None => App.extractedImages st
       end.
Proof.
  unfold App.extractionStep. destruct (App.document run); cbn; auto.
Qed.

(** The generation step decides the final status. *)
Lemma after_generationStep (st : @App.State File Article) (run : @App.Run Article) :
  let st' := App.after st (App.generationStep run) in
  App.file st' = App.file st
  /\ App.extractedImages st' = App.extractedImages st
  /\ match App.base64 run, App.generated run with
     | Some _, Some a =>
         App.status st' = App.COMPLETE
         /\ App.article st' = Some a
         /\ App.statusMessage st'
            = last (App.progress run) (App.statusMessage st)
     | _, _ =>
         App.status st' = App.ERROR
         /\ App.article st' = App.article st
         /\ App.statusMessage st' = App.failedMessage
     end.
Proof.
  unfold App.generationStep.
  destruct (App.base64 run) as [b |]; [| cbn; auto].
  cbv zeta. rewrite !after_app.
  set (st1 := App.after st [App.SetStatus App.GENERATING]).
  destruct (after_messages (App.progress run) st1) as (H1 & H2 & H3 & H4 & H5).
  set (st2 := App.after st1 (map App.SetStatusMessage (App.progress run))) in *.
  destruct (App.generated run) as [a |]; cbn;
    rewrite ?H1, ?H3, ?H4, ?H5; auto.
Qed.

Lemma imagesWritten_app (es1 es2 : list (@App.Event File Article)) :
  App.imagesWritten (es1 ++ es2)
  = App.imagesWritten es1 ++ App.imagesWritten es2.
Proof.
  induction es1 as [| e es1 IH]; [reflexivity |].
  destruct e; cbn [app App.imagesWritten]; rewrite IH; reflexivity.
Qed.

Lemma imagesWritten_messages (ms : list jsstring) :
  App.imagesWritten (map (@App.SetStatusMessage File Article) ms) = [].
Proof. induction ms as [| m ms IH]; [reflexivity | exact IH]. Qed.

(** X15. A failure of the figure extraction does not decide the outcome
    of processing: with a file chosen, the statuses written are READING,
    then GENERATING and COMPLETE when the file is encoded and the article
    is generated, GENERATING and ERROR when the generation fails, ERROR
    when the encoding fails -- whether or not the document could be
    opened.  On COMPLETE the article is the generated one; on ERROR the
    article is unchanged and the message is the failure message. *)
Theorem extraction_failure_is_not_fatal (st : @App.State File Article) (run : App.Run)
    (f : File) :
  App.file st = Some f ->
  let events := App.handleProcess sortItems st run in
  let final := App.after st events in
  App.statuses events
  = App.READING
    :: match App.base64 run, App.generated run with
       | Some _, Some _ => [App.GENERATING; App.COMPLETE]
       | Some _, None => [App.GENERATING; App.ERROR]
       | None, _ => [App.ERROR]
       end
  /\ match App.base64 run, App.generated run with
     | Some _, Some a =>
         App.status final = App.COMPLETE /\ App.article final = Some a
     | _, _ =>
         App.status final = App.ERROR
         /\ App.article final = App.article st
         /\ App.statusMessage final = App.failedMessage
     end.
Proof.
  intro Hfile. cbv zeta. unfold App.handleProcess. rewrite Hfile. split.
  - cbn [app App.statuses]. rewrite statuses_app. f_equal.
    replace (App.statuses (App.extractionStep sortItems run)) with
      (@nil App.ProcessingState)
      by (unfold App.extractionStep; destruct (App.document run); reflexivity).
    cbn [app]. unfold App.generationStep.
    destruct (App.base64 run); [| reflexivity].
    cbn [app App.statuses]. rewrite statuses_app, statuses_messages.
    destruct (App.generated run); reflexivity.
  - rewrite !after_app.
    set (st1 := App.after st [App.SetStatus App.READING;
                              App.SetStatusMessage App.scanningMessage]).
    destruct (after_extractionStep st1 run) as (_ & _ & A2 & _).
    set (st2 := App.after st1 (App.extractionStep sortItems run)) in *.
    destruct (after_generationStep st2 run) as (_ & _ & G).
    destruct (App.base64 run); [destruct (App.generated run) |].
    + destruct G as (G1 & G2 & _). split; assumption.
    + destruct G as (G1 & G2 & G3). rewrite G2, A2. repeat split; assumption.
    + destruct G as (G1 & G2 & G3). rewrite G2, A2. repeat split; assumption.
Qed.

(** X16. The figure list, as one call writes it.  [handleFileChange] with
    a file writes the empty list.  [handleProcess] with a file chosen
    writes the list once, as the figures of the run's document (each
    labelled "Figure " and a numeral), when the document opens; it does
    not write the list when the document cannot be opened, so the list
    is then left as it was. *)
Theorem figure_list_writes (st : @App.State File Article) (run : App.Run) (f : File) :
  App.file st = Some f ->
  App.imagesWritten (@App.handleFileChange File Article (Some f)) = [[]]
  /\ App.imagesWritten (App.handleProcess sortItems st run)
     = match App.document run with
       | Some pdf => [extractedFigures (extractImagesFromPdf sortItems pdf)]
       | None => []
       end
  /\ (forall images img,
        In images (App.imagesWritten (App.handleProcess sortItems st run)) ->
        In img images ->
        exists ds, isNumeral ds /\ label img = js "Figure " ++ ds).
Proof.
  intro Hfile.
  assert (W : App.imagesWritten (App.handleProcess sortItems st run)
              = match App.document run with
                | Some pdf =>
                    [extractedFigures (extractImagesFromPdf sortItems pdf)]
                | None => []
                end).
  { unfold App.handleProcess. rewrite Hfile.
    cbn [app App.imagesWritten]. rewrite imagesWritten_app.
    replace (App.imagesWritten (App.generationStep run))
      with (@nil (list ExtractedImage)).
    - rewrite app_nil_r. unfold App.extractionStep.
      destruct (App.document run); reflexivity.
    - unfold App.generationStep.
      destruct (App.base64 run); [| reflexivity].
      cbn [app App.imagesWritten].
      rewrite imagesWritten_app, imagesWritten_messages.
      destruct (App.generated run); reflexivity. }
  split; [reflexivity |]. split; [exact W |].
  intros images img Hin Himg. rewrite W in Hin.
  destruct (App.document run) as [pdf |]; [| destruct Hin].
  destruct Hin as [<- | []].
  destruct (extracted_wellBuilt sortItems pdf img Himg)
    as (pageNum & width & lines & caption & lbl & Hl & _ & ->).
  apply (captionLabel_numeral _ _ Hl).
Qed.

End AppFacts.

(* ================================================================== *)
(** ** The consumer: looking a figure up by its label *)

Lemma startsWith_app (p q : jsstring) : Renderer.startsWith p (p ++ q) = true.
Proof.
  induction p as [| a p IH]; [reflexivity |].
  cbn [app Renderer.startsWith]. rewrite N.eqb_refl, IH. reflexivity.
Qed.

(** A string includes its prefixes, itself and the empty string. *)
Lemma includes_prefix (p q : jsstring) : Renderer.includes (p ++ q) p = true.
Proof.
  destruct (p ++ q) eqn:E; cbn [Renderer.includes];
    rewrite <- E, startsWith_app; reflexivity.
Qed.

Lemma includes_refl (s : jsstring) : Renderer.includes s s = true.
Proof.
  pose proof (includes_prefix s []) as H. now rewrite app_nil_r in H.
Qed.

Lemma includes_nil (s : jsstring) : Renderer.includes s [] = true.
Proof. destruct s; reflexivity. Qed.

Lemma removeFirstDot_absent (s : jsstring) :
  ~ In 46%N s -> Renderer.removeFirstDot s = s.
Proof.
  induction s as [| c s IH]; intro H; [reflexivity |].
  cbn [Renderer.removeFirstDot].
  destruct (N.eqb_spec c 46) as [-> | _].
  - exfalso. apply H. left. reflexivity.
  - f_equal. apply IH. intro Hin. apply H. right. exact Hin.
Qed.

(** A string that neither begins nor ends with white space is trimmed to
    itself. *)
Lemma trim_visible_ends (a b : N) (mid : jsstring) :
  CharClass.space a = false ->
  CharClass.space b = false ->
  Renderer.trim (a :: mid ++ [b]) = a :: mid ++ [b].
Proof.
  intros Ha Hb. unfold Renderer.trim.
  cbn [Renderer.trimStart]. rewrite Ha.
  change (a :: mid ++ [b]) with ((a :: mid) ++ [b]).
  rewrite rev_app_distr. cbn [rev app Renderer.trimStart]. rewrite Hb.
  change (b :: rev mid ++ [a]) with ([b] ++ rev (a :: mid)).
  rewrite rev_app_distr, rev_involutive. reflexivity.
Qed.

Lemma digit_facts (c : N) :
  CharClass.digit c = true ->
  (c < 128)%N
  /\ Renderer.asciiLower c = c
  /\ c <> 46%N
  /\ CharClass.space c = false.
Proof.
  unfold CharClass.digit, Renderer.asciiLower, CharClass.space.
  rewrite andb_true_iff, !N.leb_le. intros [H1 H2].
  split; [lia |]. split; [| split; [lia |]].
  - destruct (N.leb_spec 65 c); [lia | reflexivity].
  - repeat match goal with
           | |- context [(?x =? ?y)%N] =>
               destruct (N.eqb_spec x y); [lia |]
           | |- context [(?x <=? ?y)%N] =>
               destruct (N.leb_spec x y)
           end; cbn; try reflexivity; lia.
Qed.

Section MatchingFacts.

Variable toLowerCase : jsstring -> jsstring.
Hypothesis lower_ascii : Renderer.lowersAscii toLowerCase.

(** The lower case of a normalized label. *)
Lemma toLowerCase_figure (ds : jsstring) :
  Forall (fun c => CharClass.digit c = true) ds ->
  toLowerCase (js "Figure " ++ ds) = js "figure " ++ ds.
Proof.
  intro Hds. rewrite lower_ascii.
  - rewrite map_app. f_equal.
    induction Hds as [| c ds Hc _ IH]; [reflexivity |].
    cbn [map]. rewrite IH. f_equal. apply (digit_facts c Hc).
  - apply Forall_app. split.
    + repeat constructor.
    + eapply Forall_impl; [| exact Hds]. intros c Hc.
      apply (digit_facts c Hc).
Qed.

(** A normalized label is its own lower case after normalization. *)
Lemma normalize_figure (ds : jsstring) :
  isNumeral ds ->
  Renderer.normalize toLowerCase (js "Figure " ++ ds) = js "figure " ++ ds.
Proof.
  intros [Hne Hds]. unfold Renderer.normalize.
  rewrite (toLowerCase_figure ds Hds).
  rewrite removeFirstDot_absent.
  - destruct (exists_last Hne) as (mid & b & ->).
    apply Forall_app in Hds. destruct Hds as [_ Hb].
    apply Forall_inv in Hb.
    change (js "figure " ++ mid ++ [b])
      with (102%N :: (js "igure " ++ mid) ++ [b]).
    rewrite <- app_assoc.
    change (102%N :: js "igure " ++ mid ++ [b])
      with (102%N :: (js "igure " ++ mid) ++ [b]).
    apply trim_visible_ends; [reflexivity | apply (digit_facts b Hb)].
  - intro Hin. apply in_app_or in Hin. destruct Hin as [Hin | Hin].
    + cbn in Hin. repeat (destruct Hin as [Hin | Hin]; [discriminate |]).
      destruct Hin.
    + rewrite Forall_forall in Hds. apply (digit_facts _ (Hds _ Hin)).
      reflexivity.
Qed.

End MatchingFacts.

(** [find] returns the first element that passes the test. *)
Lemma find_first {A : Type} (p : A -> bool) (l : list A) (a : A) :
  find p l = Some a ->
  exists pre post,
    l = pre ++ a :: post /\ p a = true /\ Forall (fun x => p x = false) pre.
Proof.
  induction l as [| b l IH]; [discriminate |].
  cbn [find]. destruct (p b) eqn:E.
  - intros [= <-]. exists [], l. repeat split; [exact E | constructor].
  - intro H. destruct (IH H) as (pre & post & -> & Ha & Hpre).
    exists (b :: pre), post. repeat split; [exact Ha |].
    constructor; assumption.
Qed.

(** X17. Looking up the label of a returned figure finds a figure: for
    every figure of an extraction result, [getMatchingFigure] on its
    label returns the first figure of the result whose lower-cased label
    includes or is included in the lower-cased label asked for; no
    figure before the one returned passes that test, so the figure
    itself is not before it. *)
Theorem own_label_is_found
    (toLowerCase : jsstring -> jsstring)
    (sortItems : (Item.t -> Item.t -> Q) -> list Item.t -> list Item.t)
    (pdf : list PageEnv) (f : ExtractedImage) :
  Renderer.lowersAscii toLowerCase ->
  let images := extractedFigures (extractImagesFromPdf sortItems pdf) in
  In f images ->
  exists pre g post,
    images = pre ++ g :: post
    /\ Renderer.getMatchingFigure toLowerCase images (Some (label f))
       = Renderer.Found g
    /\ Renderer.matches toLowerCase (toLowerCase (label f)) g = true
    /\ Forall (fun x =>
                 Renderer.matches toLowerCase (toLowerCase (label f)) x
                 = false) pre
    /\ ~ In f pre.
Proof.
  intros Hlower images Hin.
  destruct (extracted_wellBuilt sortItems pdf f Hin)
    as (pageNum & width & lines & caption & lbl & Hl & _ & Ef).
  destruct (captionLabel_numeral _ _ Hl) as (ds & Hds & Elbl).
  assert (El : label f = js "Figure " ++ ds) by (rewrite Ef; exact Elbl).
  assert (En : Renderer.normalize toLowerCase (label f) = toLowerCase (label f)).
  { rewrite El, (normalize_figure toLowerCase Hlower ds Hds).
    symmetry. apply (toLowerCase_figure toLowerCase Hlower). apply Hds. }
  assert (Hself : Renderer.matches toLowerCase (toLowerCase (label f)) f = true).
  { unfold Renderer.matches. rewrite includes_refl. reflexivity. }
  unfold Renderer.getMatchingFigure. rewrite En.
  destruct (label f) as [| c0 rest0] eqn:Elab; [rewrite El in Elab; discriminate |].
  destruct (find (Renderer.matches toLowerCase (toLowerCase (c0 :: rest0)))
              images) as [g |] eqn:Efind.
  - destruct (find_first _ _ _ Efind) as (pre & post & Eimgs & Hg & Hpre).
    exists pre, g, post. repeat split; try assumption.
    intro Hf. rewrite Forall_forall in Hpre. specialize (Hpre f Hf).
    congruence.
  - exfalso. pose proof (find_none _ _ Efind f Hin) as H. congruence.
Qed.

(** X18. A label with a longer figure number finds the figure with the
    shorter one: when the first figure of the list is labelled "Figure "
    and a numeral, asking for that label followed by further digits
    returns that first figure, whatever follows it in the list. *)
Theorem longer_number_finds_shorter
    (toLowerCase : jsstring -> jsstring)
    (g : ExtractedImage) (rest : list ExtractedImage) (d d' : jsstring) :
  Renderer.lowersAscii toLowerCase ->
  label g = js "Figure " ++ d ->
  isNumeral d ->
  Forall (fun c => CharClass.digit c = true) d' ->
  Renderer.getMatchingFigure toLowerCase (g :: rest)
    (Some (js "Figure " ++ d ++ d'))
  = Renderer.Found g.
Proof.
  intros Hlower Elbl Hd Hd'.
  assert (Hdd : isNumeral (d ++ d')).
  { destruct Hd as [Hne Hall]. split.
    - intro E. apply app_eq_nil in E. destruct E. contradiction.
    - apply Forall_app. split; assumption. }
  unfold Renderer.getMatchingFigure. cbn [js app map list_ascii_of_string].
  change (N_of_ascii "F" :: N_of_ascii "i" :: N_of_ascii "g" :: N_of_ascii "u"
            :: N_of_ascii "r" :: N_of_ascii "e" :: N_of_ascii " " :: d ++ d')
    with (js "Figure " ++ d ++ d').
  rewrite (normalize_figure toLowerCase Hlower (d ++ d') Hdd).
  cbn [find]. unfold Renderer.matches at 1.
  rewrite Elbl, (toLowerCase_figure toLowerCase Hlower d (proj2 Hd)).
  rewrite app_assoc, includes_prefix, orb_true_r. reflexivity.
Qed.

(** X19. No label gives [null]; a label that normalizes to the empty
    string (white space, possibly with one full stop) passes the test
    against every figure, so it finds the first figure of the list. *)
Theorem blank_label_finds_first
    (toLowerCase : jsstring -> jsstring)
    (images : list ExtractedImage) :
  Renderer.getMatchingFigure toLowerCase images None = Renderer.Null
  /\ Renderer.getMatchingFigure toLowerCase images (Some []) = Renderer.Null
  /\ forall l,
       l <> [] ->
       Renderer.normalize toLowerCase l = [] ->
       Renderer.getMatchingFigure toLowerCase images (Some l)
       = match images with
         | [] => Renderer.Undefined
         | first :: _ => Renderer.Found first
         end.
Proof.
  split; [reflexivity |]. split; [reflexivity |].
  intros l Hne Hnorm. unfold Renderer.getMatchingFigure.
  destruct l as [| c l]; [congruence |].
  rewrite Hnorm. destruct images as [| first rest]; [reflexivity |].
  cbn [find]. unfold Renderer.matches. rewrite includes_nil. reflexivity.
Qed.

(* ================================================================== *)
(** ** The further statements on the sample inputs *)

Lemma sample_sort_keeps_elements : sortKeepsElements Sample.sortItems.
Proof. intros cmp l i H. exact (proj1 (In_stableSort cmp i l) H). Defined.

Lemma sample_lowers_ascii : Renderer.lowersAscii Demo.toLowerCase.
Proof. intros s _. reflexivity. Defined.

Lemma sample_line_merged :
  mergeLine [Sample.fig; Sample.ure; Sample.one] = Some Demo.figLine.
Proof. vm_compute. reflexivity. Defined.

Lemma mergeLine_box_sample :
  mergeLine [Sample.fig; Sample.ure; Sample.one] = Some Demo.figLine
  /\ exists i, In i [Sample.fig; Sample.ure; Sample.one]
               /\ Line.x Demo.figLine = Item.x i.
Proof.
  split; [exact sample_line_merged |].
  exact (proj1 (proj2 (proj2 (proj2
           (mergeLine_box _ _ sample_line_merged))))).
Defined.

Lemma page_lines_well_formed_sample :
  sortKeepsElements Sample.sortItems
  /\ exists lines,
       pageLines Sample.sortItems
         [Sample.run "Intro text" 72 300 40;
          Sample.run "Figure 1: results" 72 512 60] = Some lines
       /\ forall l, In l lines -> hasVisibleText (Line.text l) = true.
Proof.
  split; [exact sample_sort_keeps_elements |].
  exact (page_lines_well_formed Sample.sortItems _ sample_sort_keeps_elements).
Defined.

Lemma merge_line_text_conserved_sample :
  mergeLine [Sample.fig; Sample.ure; Sample.one] = Some Demo.figLine
  /\ exists sorted,
       Permutation [Sample.fig; Sample.ure; Sample.one] sorted
       /\ leftToRight sorted
       /\ withoutSpaces (Line.text Demo.figLine)
          = withoutSpaces (runTexts sorted)
       /\ (List.length (runTexts sorted)
           <= List.length (Line.text Demo.figLine)
           < List.length (runTexts sorted) + List.length sorted)%nat.
Proof.
  split; [exact sample_line_merged |].
  exact (merge_line_text_conserved _ _ sample_line_merged).
Defined.


Lemma figures_in_page_order_sample :
  In Sample.figure1
     (extractedFigures
        (extractImagesFromPdf Sample.sortItems [Sample.goodPage]))
  /\ (1 <= page Sample.figure1 <= 1)%N
  /\ imgPage (src Sample.figure1) = page Sample.figure1.
Proof.
  split; [exact sample_figure_returned |].
  exact (proj2 (figures_in_page_order Sample.sortItems [Sample.goodPage])
           Sample.figure1 sample_figure_returned).
Defined.

Lemma no_caption_no_figure_sample :
  (forall env, In env [Fixture.prosePage; Fixture.prosePage] ->
     exists raw lines,
       pageItems env = Some raw
       /\ pageLines Sample.sortItems raw = Some lines
       /\ captionLines lines = [])
  /\ extractImagesFromPdf Sample.sortItems
       [Fixture.prosePage; Fixture.prosePage]
     = {| extractedFigures := [];
          console := [LogLoaded 2];
          requested := [1; 2]%N |}.
Proof.
  assert (H : forall env, In env [Fixture.prosePage; Fixture.prosePage] ->
                exists raw lines,
                  pageItems env = Some raw
                  /\ pageLines Sample.sortItems raw = Some lines
                  /\ captionLines lines = []).
  { intros env [<- | [<- | []]];
      (eexists; eexists; split; [reflexivity |];
       split; [vm_compute; reflexivity | reflexivity]). }
  split; [exact H |].
  exact (no_caption_no_figure Sample.sortItems _ H).
Defined.

Lemma error_entries_sample :
  nth_error [Sample.goodPage; Fixture.unreadablePage] 1
  = Some Fixture.unreadablePage
  /\ pageItems Fixture.unreadablePage = None
  /\ In 2%N
        (errorLog
           (console
              (extractImagesFromPdf Sample.sortItems
                 [Sample.goodPage; Fixture.unreadablePage]))).
Proof.
  assert (H : nth_error [Sample.goodPage; Fixture.unreadablePage] 1
              = Some Fixture.unreadablePage) by reflexivity.
  split; [exact H |]. split; [reflexivity |].
  exact (proj1 (proj2
           (error_entries Sample.sortItems _ 1%nat _ H)) eq_refl).
Defined.


Lemma at_most_one_figure_per_caption_sample :
  pageLines Sample.sortItems
    [Sample.run "Figure 1: overview" 72 300 60;
     Sample.run "Fig. 1 (continued)" 72 700 60] = Some Sample.twinLines
  /\ (List.length (pageFigures Sample.sortItems 1 Sample.twinCaptionPage)
      <= List.length (captionLines Sample.twinLines))%nat.
Proof.
  assert (Hl : pageLines Sample.sortItems
                 [Sample.run "Figure 1: overview" 72 300 60;
                  Sample.run "Fig. 1 (continued)" 72 700 60]
               = Some Sample.twinLines) by (vm_compute; reflexivity).
  split; [exact Hl |].
  exact (at_most_one_figure_per_caption Sample.sortItems 1%N
           Sample.twinCaptionPage _ Sample.twinLines eq_refl Hl).
Defined.

Lemma extraction_failure_is_not_fatal_sample :
  App.file Demo.chosen = Some 1%nat
  /\ App.statuses (App.handleProcess Sample.sortItems Demo.chosen
                     Demo.unopenedRun)
     = [App.READING; App.GENERATING; App.COMPLETE]
  /\ App.status (App.after Demo.chosen
                   (App.handleProcess Sample.sortItems Demo.chosen
                      Demo.unopenedRun)) = App.COMPLETE
  /\ App.article (App.after Demo.chosen
                    (App.handleProcess Sample.sortItems Demo.chosen
                       Demo.unopenedRun)) = Some 7%nat.
Proof.
  assert (H : App.file Demo.chosen = Some 1%nat) by reflexivity.
  split; [exact H |].
  destruct (extraction_failure_is_not_fatal Sample.sortItems Demo.chosen
              Demo.unopenedRun 1%nat H) as [S [F A]].
  split; [exact S |]. split; [exact F | exact A].
Defined.

Lemma figure_list_writes_sample :
  App.file Demo.chosen = Some 1%nat
  /\ App.imagesWritten
       (App.handleProcess Sample.sortItems Demo.chosen Demo.unopenedRun) = [].
Proof.
  assert (H : App.file Demo.chosen = Some 1%nat) by reflexivity.
  split; [exact H |].
  exact (proj1 (proj2
           (figure_list_writes Sample.sortItems Demo.chosen
              Demo.unopenedRun 1%nat H))).
Defined.

Lemma own_label_is_found_sample :
  Renderer.lowersAscii Demo.toLowerCase
  /\ In Sample.figure1
        (extractedFigures
           (extractImagesFromPdf Sample.sortItems [Sample.goodPage]))
  /\ exists pre g post,
       extractedFigures
         (extractImagesFromPdf Sample.sortItems [Sample.goodPage])
       = pre ++ g :: post
       /\ Renderer.getMatchingFigure Demo.toLowerCase
            (extractedFigures
               (extractImagesFromPdf Sample.sortItems [Sample.goodPage]))
            (Some (label Sample.figure1))
          = Renderer.Found g.
Proof.
  split; [exact sample_lowers_ascii |].
  split; [exact sample_figure_returned |].
  destruct (own_label_is_found Demo.toLowerCase Sample.sortItems
              [Sample.goodPage] Sample.figure1 sample_lowers_ascii
              sample_figure_returned) as (pre & g & post & E & F & _).
  exists pre, g, post. split; [exact E | exact F].
Defined.

Lemma longer_number_finds_shorter_sample :
  (label Sample.figure1 = js "Figure " ++ js "1"
   /\ isNumeral (js "1")
   /\ Forall (fun c => CharClass.digit c = true) (js "2"))
  /\ Renderer.getMatchingFigure Demo.toLowerCase
       [Sample.figure1; Demo.figure12] (Some (js "Figure " ++ js "1" ++ js "2"))
     = Renderer.Found Sample.figure1.
Proof.
  assert (H1 : label Sample.figure1 = js "Figure " ++ js "1") by reflexivity.
  assert (H2 : isNumeral (js "1"))
    by (split; [discriminate | repeat constructor]).
  assert (H3 : Forall (fun c => CharClass.digit c = true) (js "2"))
    by (repeat constructor).
  split; [split; [exact H1 | split; [exact H2 | exact H3]] |].
  exact (longer_number_finds_shorter Demo.toLowerCase Sample.figure1
           [Demo.figure12] (js "1") (js "2") sample_lowers_ascii H1 H2 H3).
Defined.

Lemma blank_label_finds_first_sample :
  (js " . " <> [] /\ Renderer.normalize Demo.toLowerCase (js " . ") = [])
  /\ Renderer.getMatchingFigure Demo.toLowerCase
       [Demo.figure12; Sample.figure1] (Some (js " . "))
     = Renderer.Found Demo.figure12.
Proof.
  assert (H1 : js " . " <> []) by discriminate.
  assert (H2 : Renderer.normalize Demo.toLowerCase (js " . ") = [])
    by reflexivity.
  split; [split; [exact H1 | exact H2] |].
  exact (proj2 (proj2 (blank_label_finds_first Demo.toLowerCase
                         [Demo.figure12; Sample.figure1])) _ H1 H2).
Defined.

(* ================================================================== *)
(** ** Caption detection, in full *)

(** A literal word matches exactly the strings that spell it. *)
Lemma run_word (us : jsstring) :
  forall kw r i c k,
    Forall2 (fun u ch => CharClass.letter u ch = true) us kw ->
    Regex.run (Regex.word us) (kw ++ r) i c k
    = k r (i + List.length kw)%nat c.
Proof.
  induction us as [| u us IH]; intros kw r i c k H; inversion H; subst.
  - cbn. now rewrite Nat.add_0_r.
  - cbn [Regex.word app]. rewrite run_Seq. cbn [Regex.run].
    match goal with Hl : CharClass.letter u _ = true |- _ => rewrite Hl end.
    rewrite IH by assumption. cbn [List.length]. f_equal. lia.
Qed.

Lemma run_word_inv (us : jsstring) :
  forall s i c k res,
    Regex.run (Regex.word us) s i c k = Some res ->
    exists kw r,
      s = kw ++ r
      /\ Forall2 (fun u ch => CharClass.letter u ch = true) us kw
      /\ k r (i + List.length kw)%nat c = Some res.
Proof.
  induction us as [| u us IH]; intros s i c k res H.
  - exists [], s. cbn in *. rewrite Nat.add_0_r. auto.
  - cbn [Regex.word] in H. rewrite run_Seq in H. cbn [Regex.run] in H.
    destruct s as [| ch s]; [discriminate |].
    destruct (CharClass.letter u ch) eqn:El; [| discriminate].
    destruct (IH _ _ _ _ _ H) as (kw & r & -> & Hkw & Hk).
    exists (ch :: kw), r. split; [reflexivity |].
    split; [constructor; assumption |].
    rewrite <- Hk. cbn [List.length]. f_equal. lia.
Qed.

(** The greedy star stops at the end of the run when what follows then
    succeeds. *)
Lemma star_greedy (p : N -> bool) (pre post : jsstring) :
  forall i k res,
    Forall (fun c => p c = true) pre ->
    stopsAt p post ->
    k post (i + List.length pre)%nat = Some res ->
    Regex.star p (pre ++ post) i k = Some res.
Proof.
  induction pre as [| a pre IH]; intros i k res Hpre Hstop Hk.
  - cbn [app List.length] in *. rewrite Nat.add_0_r in Hk.
    destruct post as [| c post]; [exact Hk |].
    cbn [Regex.star]. cbn in Hstop. rewrite Hstop. exact Hk.
  - apply Forall_cons_iff in Hpre. destruct Hpre as [Ha Hpre].
    cbn [app Regex.star]. rewrite Ha.
    rewrite (IH (S i) k res Hpre Hstop); [reflexivity |].
    rewrite <- Hk. f_equal. cbn [List.length]. lia.
Qed.

(** With a continuation that always succeeds the greedy star takes the
    whole run. *)
Lemma star_total (p : N -> bool) (k : jsstring -> nat -> option Regex.captures) :
  (forall s i, k s i <> None) ->
  forall s i, exists pre post,
    s = pre ++ post
    /\ Forall (fun c => p c = true) pre
    /\ stopsAt p post
    /\ Regex.star p s i k = k post (i + List.length pre)%nat.
Proof.
  intros Hk s. induction s as [| c s IH]; intro i.
  - exists [], []. cbn. rewrite Nat.add_0_r. auto.
  - destruct (p c) eqn:Ep.
    + destruct (IH (S i)) as (pre & post & -> & Hpre & Hstop & E).
      exists (c :: pre), post. split; [reflexivity |].
      split; [constructor; assumption |]. split; [exact Hstop |].
      cbn [Regex.star]. rewrite Ep, E.
      replace (i + List.length (c :: pre))%nat
        with (S i + List.length pre)%nat by (cbn [List.length]; lia).
      destruct (k post (S i + List.length pre)%nat) eqn:Ek; [reflexivity |].
      destruct (Hk _ _ Ek).
    + exists [], (c :: s). cbn [app List.length Regex.star]. rewrite Ep.
      rewrite Nat.add_0_r. repeat split; [constructor | exact Ep].
Qed.

Lemma firstn_length_app {A : Type} (i : nat) (l r : list A) :
  firstn (i + List.length l - i) (l ++ r) = l.
Proof.
  replace (i + List.length l - i)%nat with (List.length l) by lia.
  rewrite firstn_app, firstn_all, Nat.sub_diag. cbn. apply app_nil_r.
Qed.

Lemma separator_is_not_u (c : N) :
  CharClass.dotOrSpace c = true -> CharClass.letter 85 c = false.
Proof.
  unfold CharClass.letter. intro H.
  destruct (N.eqb_spec c 85) as [-> | _]; [discriminate H |].
  destruct (N.eqb_spec c (85 + 32)) as [-> | _]; [discriminate H |].
  reflexivity.
Qed.

Lemma digit_is_not_separator (c : N) :
  CharClass.digit c = true -> CharClass.dotOrSpace c = false.
Proof.
  intro H. destruct (digit_facts c H) as (_ & _ & Hdot & Hsp).
  unfold CharClass.dotOrSpace. rewrite Hsp.
  destruct (N.eqb_spec c 46); [contradiction | reflexivity].
Qed.

(** The part of the caption pattern after the keyword: [[\.\s]+(\d+)]. *)
Lemma run_tail (seps ds rest : jsstring) (i : nat) (c : Regex.captures) :
  seps <> [] ->
  Forall (fun ch => CharClass.dotOrSpace ch = true) seps ->
  isNumeral ds ->
  noDigitAhead rest ->
  Regex.run
    (Regex.Seq (Regex.Plus CharClass.dotOrSpace)
       (Regex.Group 2 (Regex.Plus CharClass.digit)))
    (seps ++ ds ++ rest) i c (fun _ _ m => Some m)
  = Some ((2%nat, ds) :: c).
Proof.
  intros Hne Hseps [Hdne Hds] Hrest.
  destruct seps as [| s0 seps]; [congruence |].
  destruct ds as [| d ds]; [congruence |].
  apply Forall_cons_iff in Hseps. destruct Hseps as [Hs0 Hseps].
  apply Forall_cons_iff in Hds. destruct Hds as [Hd Hds].
  rewrite run_Seq. cbn [Regex.run app]. rewrite Hs0.
  apply star_greedy; [exact Hseps | apply digit_is_not_separator; exact Hd |].
  cbn [Regex.run app]. rewrite Hd.
  apply star_greedy; [exact Hds | exact Hrest |].
  f_equal. f_equal. f_equal.
  replace (S (S i + List.length seps) + List.length ds
           - (S i + List.length seps))%nat
    with (List.length (d :: ds)) by (cbn [List.length]; lia).
  change (d :: ds ++ rest) with ((d :: ds) ++ rest).
  rewrite firstn_app, firstn_all, Nat.sub_diag. cbn. now rewrite app_nil_r.
Qed.

Lemma run_tail_inv (s : jsstring) (i : nat) (c m : Regex.captures) :
  Regex.run
    (Regex.Seq (Regex.Plus CharClass.dotOrSpace)
       (Regex.Group 2 (Regex.Plus CharClass.digit)))
    s i c (fun _ _ m => Some m) = Some m ->
  exists seps ds rest,
    s = seps ++ ds ++ rest
    /\ seps <> []
    /\ Forall (fun ch => CharClass.dotOrSpace ch = true) seps
    /\ isNumeral ds
    /\ noDigitAhead rest
    /\ m = (2%nat, ds) :: c.
Proof.
  rewrite run_Seq. cbn [Regex.run].
  destruct s as [| s0 s]; [discriminate |].
  destruct (CharClass.dotOrSpace s0) eqn:Hs0; [| discriminate].
  intro H. apply star_inv in H.
  destruct H as (seps & post & -> & Hseps & H).
  destruct post as [| d post]; [discriminate |].
  destruct (CharClass.digit d) eqn:Hd; [| discriminate].
  destruct (star_total CharClass.digit
              (fun s1 i1 =>
                 Some ((2%nat,
                        firstn (i1 - (S i + List.length seps)) (d :: post))
                       :: c))
              ltac:(discriminate) post (S (S i + List.length seps)))
    as (ds & rest & -> & Hds & Hrest & E).
  assert (Ef : firstn (S (S i + List.length seps) + List.length ds
                       - (S i + List.length seps)) (d :: ds ++ rest)
               = d :: ds).
  { replace (S (S i + List.length seps) + List.length ds)%nat
      with (S i + List.length seps + List.length (d :: ds))%nat
      by (cbn [List.length]; lia).
    exact (firstn_length_app (S i + List.length seps) (d :: ds) rest). }
  rewrite Ef in E.
  pose proof (eq_trans (eq_sym H) E) as HE. injection HE as ->.
  exists (s0 :: seps), (d :: ds), rest.
  split; [reflexivity |]. split; [discriminate |].
  split; [constructor; assumption |].
  split; [split; [discriminate | constructor; assumption] |].
  split; [exact Hrest | reflexivity].
Qed.

Lemma run_Group (n : nat) (r : Regex.t) s i c k :
  Regex.run (Regex.Group n r) s i c k
  = Regex.run r s i c
      (fun s1 i1 c1 => k s1 i1 ((n, firstn (i1 - i) s) :: c1)).
Proof. reflexivity. Qed.

Lemma run_Alt (r1 r2 : Regex.t) s i c k :
  Regex.run (Regex.Alt r1 r2) s i c k
  = match Regex.run r1 s i c k with
    | Some res => Some res
    | None => Regex.run r2 s i c k
    end.
Proof. reflexivity. Qed.

(** The match of the caption pattern, in terms of the shape of the text. *)
Lemma exec_shape (text ds : jsstring) :
  captionShape text ds ->
  exists g1, Regex.exec captionRegex text = Some [(2%nat, ds); (1%nat, g1)].
Proof.
  intros (kw & seps & rest & -> & Hkw & Hne & Hseps & Hds & Hrest).
  unfold Regex.exec, captionRegex.
  rewrite run_Seq, run_Group, run_Alt.
  destruct Hkw as [H6 | H3].
  - rewrite (run_word _ _ _ _ _ _ H6).
    rewrite (run_tail seps ds rest _ _ Hne Hseps Hds Hrest).
    eexists. reflexivity.
  - assert (Hnot : forall k,
               Regex.run (Regex.word (js "FIGURE"))
                 (kw ++ seps ++ ds ++ rest) 0 [] k = None).
    { intro k.
      inversion H3 as [| u1 a us1 kw1 Ha T1]; subst.
      inversion T1 as [| u2 b us2 kw2 Hb T2]; subst.
      inversion T2 as [| u3 e us3 kw3 He T3]; subst.
      inversion T3; subst.
      destruct seps as [| s0 seps]; [congruence |].
      apply Forall_inv in Hseps.
      pose proof (separator_is_not_u s0 Hseps) as Hu.
      cbn in Ha, Hb, He, Hu |- *. rewrite Ha, Hb, He, Hu. reflexivity. }
    rewrite Hnot.
    rewrite (run_word _ _ _ _ _ _ H3).
    rewrite (run_tail seps ds rest _ _ Hne Hseps Hds Hrest).
    eexists. reflexivity.
Qed.

Lemma exec_shape_inv (text : jsstring) (m : Regex.captures) :
  Regex.exec captionRegex text = Some m ->
  exists ds g1, captionShape text ds /\ m = [(2%nat, ds); (1%nat, g1)].
Proof.
  unfold Regex.exec, captionRegex.
  rewrite run_Seq, run_Group, run_Alt.
  intro H.
  assert (Hword : exists us,
             (us = js "FIGURE" \/ us = js "FIG")
             /\ Regex.run (Regex.word us) text 0 []
                  (fun s1 i1 c1 =>
                     Regex.run
                       (Regex.Seq (Regex.Plus CharClass.dotOrSpace)
                          (Regex.Group 2 (Regex.Plus CharClass.digit)))
                       s1 i1 ((1%nat, firstn (i1 - 0) text) :: c1)
                       (fun _ _ m => Some m)) = Some m).
  { match type of H with
    | match ?a with _ => _ end = _ => destruct a eqn:E6
    end.
    - injection H as <-. exists (js "FIGURE").
      split; [left; reflexivity | exact E6].
    - exists (js "FIG"). split; [right; reflexivity | exact H]. }
  destruct Hword as (us & Hus & Hrun).
  apply run_word_inv in Hrun.
  destruct Hrun as (kw & r & -> & Hkw & Hrun).
  apply run_tail_inv in Hrun.
  destruct Hrun as (seps & ds & rest & -> & Hne & Hseps & Hds & Hrest & ->).
  exists ds. eexists. split; [| reflexivity].
  exists kw, seps, rest. split; [reflexivity |].
  split; [destruct Hus as [-> | ->]; [left | right]; exact Hkw |].
  repeat split; try assumption; apply Hds.
Qed.

(** A caption begins with the letter f, in either case. *)
Lemma captionShape_first (text ds : jsstring) :
  captionShape text ds ->
  exists c rest, text = c :: rest /\ CharClass.letter 70 c = true.
Proof.
  intros (kw & seps & rest & -> & Hkw & _).
  destruct Hkw as [H | H]; inversion H as [| u a us kw' Ha T]; subst;
    exists a; eexists; (split; [reflexivity | exact Ha]).
Qed.

(** X20. Caption detection, in full: a line is detected as a caption
    exactly when its text is "Figure" or "Fig" in any casing, then one or
    more full stops or white-space code units, then a numeral; the label
    is "Figure " and the longest such numeral, which the text determines.
    In particular a text that does not begin with the letter f (an empty
    text, a text with leading white space) is not a caption. *)
Theorem caption_detection_characterized (text : jsstring) :
  (Regex.test captionRegex text = true <-> exists ds, captionShape text ds)
  /\ (forall lbl,
        captionLabel text = Some lbl
        <-> exists ds, captionShape text ds /\ lbl = js "Figure " ++ ds)
  /\ (forall ds1 ds2,
        captionShape text ds1 -> captionShape text ds2 -> ds1 = ds2)
  /\ (match text with
      | [] => True
      | c :: _ => CharClass.letter 70 c = false
      end ->
      Regex.test captionRegex text = false).
Proof.
  assert (Htest : Regex.test captionRegex text = true
                  <-> exists ds, captionShape text ds).
  { unfold Regex.test. split.
    - destruct (Regex.exec captionRegex text) as [m |] eqn:E; [| discriminate].
      intros _. destruct (exec_shape_inv text m E) as (ds & g1 & H & _).
      exists ds. exact H.
    - intros (ds & H). destruct (exec_shape text ds H) as (g1 & E).
      rewrite E. reflexivity. }
  split; [exact Htest |]. split; [| split].
  - intro lbl. unfold captionLabel. split.
    + destruct (Regex.exec captionRegex text) as [m |] eqn:E; [| discriminate].
      destruct (exec_shape_inv text m E) as (ds & g1 & H & ->).
      cbn. intros [= <-]. exists ds. split; [exact H | reflexivity].
    + intros (ds & H & ->). destruct (exec_shape text ds H) as (g1 & E).
      rewrite E. reflexivity.
  - intros ds1 ds2 H1 H2.
    destruct (exec_shape text ds1 H1) as (g1 & E1).
    destruct (exec_shape text ds2 H2) as (g2 & E2).
    congruence.
  - intro Hfirst.
    destruct (Regex.test captionRegex text) eqn:E; [| reflexivity].
    destruct (proj1 Htest eq_refl) as (ds & Hshape).
    destruct (captionShape_first _ _ Hshape) as (c & rest & -> & Hc).
    congruence.
Qed.

(** X21. A returned figure's label is itself the text of a caption, and
    its label is that same label: normalizing a normalized label changes
    nothing. *)
Theorem label_is_a_fixed_point
    (sortItems : (Item.t -> Item.t -> Q) -> list Item.t -> list Item.t)
    (pdf : list PageEnv) (f : ExtractedImage) :
  In f (extractedFigures (extractImagesFromPdf sortItems pdf)) ->
  Regex.test captionRegex (label f) = true
  /\ captionLabel (label f) = Some (label f).
Proof.
  intro Hin.
  destruct (extracted_wellBuilt sortItems pdf f Hin)
    as (pageNum & width & lines & caption & lbl & Hl & _ & ->).
  destruct (captionLabel_numeral _ _ Hl) as (ds & Hds & ->).
  cbn [label makeFigure].
  assert (Hshape : captionShape (js "Figure " ++ ds) ds).
  { exists (js "Figure"), (js " "), []. split; [now rewrite app_nil_r |].
    split; [left; repeat constructor |]. split; [discriminate |].
    split; [repeat constructor |]. split; [exact Hds | exact I]. }
  destruct (exec_shape _ _ Hshape) as (g1 & E).
  unfold Regex.test, captionLabel. rewrite E. split; reflexivity.
Qed.

Lemma visible_items_app (l1 l2 : list RawItem.t) :
  filter (fun i => hasVisibleText (Item.str i)) (map toItem (l1 ++ l2))
  = filter (fun i => hasVisibleText (Item.str i)) (map toItem l1)
    ++ filter (fun i => hasVisibleText (Item.str i)) (map toItem l2).
Proof. now rewrite map_app, filter_app. Qed.

(** X22. Runs that hold white space only play no part: a page's lines are
    the lines of its other runs, so adding or removing such a run
    anywhere leaves the lines as they are. *)
Theorem blank_runs_are_ignored
    (sortItems : (Item.t -> Item.t -> Q) -> list Item.t -> list Item.t) :
  (forall raw,
      pageLines sortItems
        (filter (fun r => hasVisibleText (RawItem.str r)) raw)
      = pageLines sortItems raw)
  /\ (forall pre r post,
        isBlank r ->
        pageLines sortItems (pre ++ r :: post)
        = pageLines sortItems (pre ++ post)).
Proof.
  split.
  - intro raw. unfold pageLines. f_equal. f_equal.
    induction raw as [| r raw IH]; [reflexivity |].
    cbn [filter map]. change (Item.str (toItem r)) with (RawItem.str r).
    destruct (hasVisibleText (RawItem.str r)) eqn:E.
    + cbn [map filter]. change (Item.str (toItem r)) with (RawItem.str r).
      rewrite E, IH. reflexivity.
    + exact IH.
  - intros pre r post Hr. unfold pageLines. f_equal. f_equal.
    rewrite !visible_items_app. f_equal.
    cbn [map filter]. change (Item.str (toItem r)) with (RawItem.str r).
    unfold isBlank in Hr. rewrite Hr. reflexivity.
Qed.

Lemma caption_detection_characterized_sample :
  captionShape (js "Fig. 7a") (js "7")
  /\ captionLabel (js "Fig. 7a") = Some (js "Figure 7").
Proof.
  assert (H : captionShape (js "Fig. 7a") (js "7")).
  { exists (js "Fig"), (js ". "), (js "a"). split; [reflexivity |].
    split; [right; repeat constructor |]. split; [discriminate |].
    split; [repeat constructor |].
    split; [split; [discriminate | repeat constructor] | reflexivity]. }
  split; [exact H |].
  apply (proj2 (proj1 (proj2 (caption_detection_characterized (js "Fig. 7a")))
                  (js "Figure 7"))).
  exists (js "7"). split; [exact H | reflexivity].
Defined.

Lemma label_is_a_fixed_point_sample :
  In Sample.figure1
     (extractedFigures
        (extractImagesFromPdf Sample.sortItems [Sample.goodPage]))
  /\ captionLabel (label Sample.figure1) = Some (label Sample.figure1).
Proof.
  split; [exact sample_figure_returned |].
  exact (proj2 (label_is_a_fixed_point Sample.sortItems [Sample.goodPage]
                  Sample.figure1 sample_figure_returned)).
Defined.

Lemma blank_runs_are_ignored_sample :
  isBlank (Sample.run "  " 300 400 8)
  /\ pageLines Sample.sortItems
       ([Sample.run "Intro text" 72 300 40]
        ++ Sample.run "  " 300 400 8
        :: [Sample.run "Figure 1: results" 72 512 60])
     = pageLines Sample.sortItems
         ([Sample.run "Intro text" 72 300 40]
          ++ [Sample.run "Figure 1: results" 72 512 60]).
Proof.
  assert (H : isBlank (Sample.run "  " 300 400 8)) by reflexivity.
  split; [exact H |].
  exact (proj2 (blank_runs_are_ignored Sample.sortItems) _ _ _ H).
Defined.

(* ================================================================== *)
(** * The binary64 embedding: the threshold tests *)

(** ** Binary64 numbers: order and signs *)

Lemma SFcompare_antisym (a b : F64.t) :
  SFcompare b a = option_map CompOpp (SFcompare a b).
Proof.
  destruct a as [sa | sa | | sa ma ea], b as [sb | sb | | sb mb eb];
    try destruct sa; try destruct sb; try reflexivity;
    cbn [SFcompare option_map]; f_equal;
    rewrite (Z.compare_antisym ea eb);
    destruct (ea ?= eb)%Z; cbn [CompOpp]; try reflexivity;
    pose proof (Pos.compare_cont_antisym ma mb Eq) as K;
    cbn [CompOpp] in K; rewrite <- K;
    destruct (Pos.compare_cont Eq ma mb); reflexivity.
Qed.

(** [a <= b] excludes [b < a], and [a < b] excludes [b <= a]. *)
Lemma leb_not_ltb (a b : F64.t) :
  F64.leb a b = true -> F64.ltb b a = false.
Proof.
  unfold F64.leb, F64.ltb, SFleb, SFltb. rewrite (SFcompare_antisym a b).
  destruct (SFcompare a b) as [[] |]; cbn; congruence.
Qed.




Lemma ofZ_15 : F64.ofZ 15 = S754_finite false 8444249301319680 (-49).
Proof. vm_compute. reflexivity. Qed.


Lemma max0_not_negative (v : F64.t) :
  F64.ltb (F64.max (F64.ofZ 0) v) (F64.ofZ 0) = false.
Proof.
  destruct v as [s | s | | s m e]; try destruct s; reflexivity.
Qed.


(** A rounded result keeps the sign of what is rounded. *)
Lemma binary_round_aux_signed (s : bool) (mx ex : Z) (lx : location) :
  F64.signed s (binary_round_aux F64.prec F64.emax s mx ex lx).
Proof.
  unfold binary_round_aux.
  destruct (shr_fexp F64.prec F64.emax mx ex lx) as [mrs e1].
  destruct (shr_fexp F64.prec F64.emax
              (round_nearest_even (shr_m mrs) (loc_of_shr_record mrs))
              e1 loc_Exact) as [mrs2 e2].
  destruct (shr_m mrs2); [reflexivity | | exact I].
  destruct (Z.leb e2 (F64.emax - F64.prec)); reflexivity.
Qed.

Lemma binary_round_signed (s : bool) (m : positive) (e : Z) :
  F64.signed s (binary_round F64.prec F64.emax s m e).
Proof.
  unfold binary_round.
  destruct (shl_align m e _) as [mz ez]. apply binary_round_aux_signed.
Qed.

Lemma signed_false_not_negative (r : F64.t) :
  F64.signed false r -> F64.ltb r (F64.ofZ 0) = false.
Proof.
  destruct r as [s | s | | s m e]; cbn; intro H; try subst s; reflexivity.
Qed.

Lemma signed_true_not_positive (r : F64.t) :
  F64.signed true r -> F64.ltb (F64.ofZ 0) r = false.
Proof.
  destruct r as [s | s | | s m e]; cbn; intro H; try subst s; reflexivity.
Qed.

(** The sum of two positive finite numbers is not negative. *)
Lemma add_positive_signed (ma : positive) (ea : Z) (mb : positive) (eb : Z) :
  F64.signed false
    (F64.add (S754_finite false ma ea) (S754_finite false mb eb)).
Proof.
  unfold F64.add, SFadd. cbn [cond_Zopp Z.add binary_normalize].
  apply binary_round_signed.
Qed.

(** A positive number plus 15 is not negative. *)
Lemma add_15_not_negative (b : F64.t) :
  F64.ltb (F64.ofZ 0) b = true ->
  F64.ltb (F64.add b (F64.ofZ 15)) (F64.ofZ 0) = false.
Proof.
  rewrite ofZ_15.
  destruct b as [s | s | | s m e]; try destruct s; cbn [F64.ltb SFltb SFcompare F64.ofZ binary_normalize];
    try discriminate; intros _.
  - reflexivity.
  - apply signed_false_not_negative, add_positive_signed.
Qed.

(** When [a - b] is above 0, [b - a] is not. *)
Lemma sub_finite_antisym (sa : bool) (ma : positive) (ea : Z)
    (sb : bool) (mb : positive) (eb : Z) :
  F64.ltb (F64.ofZ 0)
    (F64.sub (S754_finite sa ma ea) (S754_finite sb mb eb)) = true ->
  F64.ltb (F64.ofZ 0)
    (F64.sub (S754_finite sb mb eb) (S754_finite sa ma ea)) = false.
Proof.
  unfold F64.sub, SFsub. rewrite (Z.min_comm eb ea).
  set (ez := Z.min ea eb).
  set (za := cond_Zopp sa (Zpos (fst (shl_align ma ea ez)))).
  set (zb := cond_Zopp sb (Zpos (fst (shl_align mb eb ez)))).
  destruct (Z.sub za zb) as [| p | p] eqn:E; cbn [binary_normalize]; intro H.
  - discriminate H.
  - replace (Z.sub zb za) with (Zneg p) by lia.
    cbn [binary_normalize].
    apply signed_true_not_positive, binary_round_signed.
  - rewrite (signed_true_not_positive _ (binary_round_signed true p ez)) in H.
    discriminate H.
Qed.

Lemma sub_antisym (a b : F64.t) :
  F64.ltb (F64.ofZ 0) (F64.sub a b) = true ->
  F64.ltb (F64.ofZ 0) (F64.sub b a) = false.
Proof.
  destruct a as [sa | sa | | sa ma ea], b as [sb | sb | | sb mb eb];
    try apply sub_finite_antisym;
    try destruct sa; try destruct sb; cbn; congruence.
Qed.

(* ------------------------------------------------------------------ *)
(** ** The sort, the merge and the grouping over binary64 numbers *)

Section DoubleLines.

Import Double.

Lemma double_In_insertSorted {A : Type} (cmp : A -> A -> F64.t) (a x : A)
    (l : list A) :
  In x (insertSorted cmp a l) <-> x = a \/ In x l.
Proof.
  induction l as [| b l IH]; cbn [insertSorted In].
  - intuition congruence.
  - destruct (F64.ltb (F64.ofZ 0) (cmp a b)); cbn [In].
    + rewrite IH. intuition congruence.
    + intuition congruence.
Qed.

Lemma double_In_stableSort {A : Type} (cmp : A -> A -> F64.t) (x : A)
    (l : list A) :
  In x (stableSort cmp l) <-> In x l.
Proof.
  induction l as [| a l IH]; cbn [stableSort fold_right In]; [tauto |].
  fold (stableSort cmp l).
  rewrite double_In_insertSorted, IH. intuition congruence.
Qed.

Lemma double_insertSorted_Permutation {A : Type} (cmp : A -> A -> F64.t)
    (a : A) (l : list A) :
  Permutation (a :: l) (insertSorted cmp a l).
Proof.
  induction l as [| b l IH]; cbn [insertSorted]; [apply Permutation_refl |].
  destruct (F64.ltb (F64.ofZ 0) (cmp a b)); [| apply Permutation_refl].
  eapply perm_trans; [apply perm_swap |]. apply perm_skip. exact IH.
Qed.

Lemma double_stableSort_Permutation {A : Type} (cmp : A -> A -> F64.t)
    (l : list A) :
  Permutation l (stableSort cmp l).
Proof.
  induction l as [| a l IH]; cbn [stableSort fold_right]; [constructor |].
  fold (stableSort cmp l).
  eapply perm_trans; [apply perm_skip; exact IH |].
  apply double_insertSorted_Permutation.
Qed.

Lemma double_stableSort_nonempty {A : Type} (cmp : A -> A -> F64.t)
    (l : list A) :
  l <> [] -> stableSort cmp l <> [].
Proof.
  intros Hne E. apply Hne.
  apply Permutation_nil. rewrite <- E. apply Permutation_sym.
  apply double_stableSort_Permutation.
Qed.

(** Sorting by X puts the runs in left-to-right order. *)
Lemma double_insertSorted_leftToRight (a : Item.t) (l : list Item.t) :
  leftToRight l ->
  leftToRight (insertSorted (fun a b => F64.sub (Item.x a) (Item.x b)) a l).
Proof.
  induction l as [| b l IH]; intro H; [exact I |].
  cbn [insertSorted].
  destruct (F64.ltb (F64.ofZ 0) (F64.sub (Item.x a) (Item.x b))) eqn:Eab.
  - assert (Hba : notLeftOf b a) by (apply sub_antisym; exact Eab).
    assert (Hl : leftToRight l) by (destruct l; [exact I | apply H]).
    specialize (IH Hl).
    destruct l as [| c l']; [split; [exact Hba | exact I] |].
    cbn [insertSorted] in *.
    destruct (F64.ltb (F64.ofZ 0) (F64.sub (Item.x a) (Item.x c))).
    + split; [apply H | exact IH].
    + split; [exact Hba | exact IH].
  - split; [exact Eab | exact H].
Qed.

Lemma double_stableSort_sorted (items : list Item.t) :
  leftToRight
    (stableSort (fun a b => F64.sub (Item.x a) (Item.x b)) items).
Proof.
  induction items as [| a l IH]; [exact I |].
  cbn [stableSort fold_right]. apply double_insertSorted_leftToRight.
  exact IH.
Qed.

(** Runs that are in left-to-right order stay as they are. *)
Lemma double_stableSort_leftToRight (items : list Item.t) :
  leftToRight items ->
  stableSort (fun a b => F64.sub (Item.x a) (Item.x b)) items = items.
Proof.
  induction items as [| a rest IH]; intro H; [reflexivity |].
  cbn [stableSort fold_right].
  fold (stableSort (fun a b => F64.sub (Item.x a) (Item.x b)) rest).
  destruct rest as [| b rest'].
  - reflexivity.
  - destruct H as [Hab Hrest]. rewrite (IH Hrest). cbn [insertSorted].
    unfold notLeftOf in Hab. rewrite Hab. reflexivity.
Qed.

Lemma double_mergeLoop_Joined (rest : list Item.t) :
  forall (prev : Item.t) (text : jsstring),
    exists t, Joined prev rest t /\ mergeLoop text prev rest = text ++ t.
Proof.
  induction rest as [| curr rest IH]; intros prev text.
  - exists []. split; [constructor | simpl; now rewrite app_nil_r].
  - cbn [mergeLoop].
    destruct (F64.ltb (F64.ofZ 5) (F64.sub (Item.x curr) (Item.right prev)))
      eqn:E.
    + destruct (IH curr ((text ++ js " ") ++ Item.str curr)) as (t & J & Et).
      exists (js " " ++ Item.str curr ++ t). split.
      * apply Joined_space; [exact E | exact J].
      * rewrite Et. now rewrite <- !app_assoc.
    + destruct (IH curr (text ++ Item.str curr)) as (t & J & Et).
      exists (Item.str curr ++ t). split.
      * apply Joined_tight; [| exact J].
        unfold wideGap, gapBetween. rewrite E. discriminate.
      * rewrite Et. now rewrite <- !app_assoc.
Qed.

(** The text of a merged line, in terms of the runs sorted by X. *)
Lemma double_mergeLine_text (items : list Item.t) (first : Item.t)
    (rest : list Item.t) :
  stableSort (fun a b => F64.sub (Item.x a) (Item.x b)) items
  = first :: rest ->
  exists line t,
    mergeLine items = Some line
    /\ Joined first rest t
    /\ Line.text line = Item.str first ++ t.
Proof.
  intro E. unfold mergeLine. rewrite E.
  destruct (double_mergeLoop_Joined rest first (Item.str first))
    as (t & J & Et).
  eexists. exists t. split; [reflexivity |]. split; [exact J | exact Et].
Qed.

(** [mergeLine] does not throw on a non-empty array. *)
Lemma double_mergeLine_snoc (c : list Item.t) (last : Item.t) :
  exists line, mergeLine (c ++ [last]) = Some line.
Proof.
  unfold mergeLine.
  destruct (stableSort (fun a b => F64.sub (Item.x a) (Item.x b))
              (c ++ [last])) as [| first rest] eqn:E.
  - exfalso. revert E. apply double_stableSort_nonempty.
    destruct c; discriminate.
  - eexists. reflexivity.
Qed.

Lemma double_groupStep_join (lines : list Line.t) (c : list Item.t)
    (last item : Item.t) :
  sameBaseline last item ->
  groupStep (lines, c ++ [last]) item = Some (lines, (c ++ [last]) ++ [item]).
Proof.
  intro H. unfold groupStep. rewrite rev_app_distr. cbn [rev app].
  unfold sameBaseline, baselineDifference in H. rewrite H. reflexivity.
Qed.

Lemma double_groupStep_break (lines : list Line.t) (c : list Item.t)
    (last item : Item.t) :
  ~ sameBaseline last item ->
  exists line,
    mergeLine (c ++ [last]) = Some line
    /\ groupStep (lines, c ++ [last]) item = Some (lines ++ [line], [item]).
Proof.
  intro H. destruct (double_mergeLine_snoc c last) as [line E].
  exists line. split; [exact E |].
  unfold groupStep. rewrite rev_app_distr. cbn [rev app].
  unfold sameBaseline, baselineDifference in H.
  destruct (F64.ltb (F64.abs (F64.sub (Item.bottom item) (Item.bottom last)))
              (F64.ofZ 8)); [congruence |].
  rewrite E. reflexivity.
Qed.

Lemma double_sameBaseline_dec (last item : Item.t) :
  {sameBaseline last item} + {~ sameBaseline last item}.
Proof.
  unfold sameBaseline.
  destruct (F64.ltb (baselineDifference last item) (F64.ofZ 8));
    [left; reflexivity | right; discriminate].
Qed.

(** The runs determine their groups. *)
Lemma double_Grouped_functional (items : list Item.t)
    (gs1 : list (list Item.t)) :
  Grouped items gs1 -> forall gs2, Grouped items gs2 -> gs1 = gs2.
Proof.
  induction 1 as [| a | a b rest g gs Hab H1 IH | a b rest gs Hab H1 IH];
    intros gs2 H2; inversion H2; subst; try reflexivity; try contradiction.
  - match goal with
    | H : Grouped (b :: rest) _ |- _ =>
        specialize (IH _ H); injection IH as -> ->; reflexivity
    end.
  - match goal with
    | H : Grouped (b :: rest) _ |- _ => rewrite (IH _ H); reflexivity
    end.
Qed.

(** The loop with a current line [c ++ [last]] extends that line by the
    first group of [last :: items] and then pushes the other groups. *)
Lemma double_groupLoop_Grouped (items : list Item.t) :
  forall (last : Item.t) (c : list Item.t) (lines : list Line.t),
  exists g gs ls st,
    Grouped (last :: items) (g :: gs)
    /\ groupLoop (lines, c ++ [last]) items = Some st
    /\ closeLine st = Some (lines ++ ls)
    /\ map mergeLine ((c ++ g) :: gs) = map Some ls.
Proof.
  induction items as [| item rest IH]; intros last c lines.
  - destruct (double_mergeLine_snoc c last) as [line E].
    exists [last], [], [line], (lines, c ++ [last]).
    split; [constructor |]. split; [reflexivity |]. split.
    + unfold closeLine. rewrite E.
      destruct (c ++ [last]) eqn:D; [| reflexivity].
      destruct c; discriminate.
    + simpl. now rewrite E.
  - destruct (double_sameBaseline_dec last item) as [H | H].
    + destruct (IH item (c ++ [last]) lines)
        as (g & gs & ls & st & G & L & C & M).
      exists (last :: g), gs, ls, st.
      split; [apply Grouped_join; assumption |].
      split; [cbn [groupLoop]; rewrite (double_groupStep_join _ _ _ _ H);
              exact L |].
      split; [exact C |].
      rewrite <- M. simpl. now rewrite <- app_assoc.
    + destruct (double_groupStep_break lines c last item H) as (line & E & S).
      destruct (IH item [] (lines ++ [line]))
        as (g & gs & ls & st & G & L & C & M).
      exists [last], (g :: gs), (line :: ls), st.
      split; [apply Grouped_break; assumption |].
      split; [cbn [groupLoop]; rewrite S; exact L |].
      split; [rewrite C; now rewrite <- app_assoc |].
      simpl in M. simpl. rewrite E. now rewrite <- M.
Qed.

(** C6. The text of a merged line is built from the line's runs taken in
    left-to-right order (the order they are in, when they are given in
    that order): the first run's text, then the other runs' texts, each
    preceded by a single space exactly when its gap to the run before it,
    as computed, exceeds 5, and by nothing otherwise -- in particular when
    the gap is 5 or less; a line of one run has that run's text. *)
Theorem merge_line_spacing (items : list Item.t) :
  items <> [] ->
  exists first rest line t,
    Permutation items (first :: rest)
    /\ leftToRight (first :: rest)
    /\ (leftToRight items -> first :: rest = items)
    /\ mergeLine items = Some line
    /\ Joined first rest t
    /\ Line.text line = Item.str first ++ t
    /\ (rest = [] -> Line.text line = Item.str first)
    /\ (forall second, rest = [second] ->
          (F64.ltb (F64.ofZ 5) (gapBetween first second) = true ->
           Line.text line = Item.str first ++ js " " ++ Item.str second)
          /\ (F64.ltb (F64.ofZ 5) (gapBetween first second) = false ->
              Line.text line = Item.str first ++ Item.str second)
          /\ (F64.leb (gapBetween first second) (F64.ofZ 5) = true ->
              Line.text line = Item.str first ++ Item.str second)).
Proof.
  intro Hne.
  destruct (stableSort (fun a b => F64.sub (Item.x a) (Item.x b)) items)
    as [| first rest] eqn:Es.
  { destruct (double_stableSort_nonempty _ _ Hne Es). }
  destruct (double_mergeLine_text items first rest Es)
    as (line & t & E & J & T).
  exists first, rest, line, t.
  split; [rewrite <- Es; apply double_stableSort_Permutation |].
  split; [rewrite <- Es; apply double_stableSort_sorted |].
  split; [intro H; rewrite <- Es; apply double_stableSort_leftToRight;
          exact H |].
  split; [exact E |]. split; [exact J |]. split; [exact T |].
  split.
  - intros ->. inversion J; subst. rewrite T. apply app_nil_r.
  - intros second ->. rewrite T.
    assert (Tight : F64.ltb (F64.ofZ 5) (gapBetween first second) = false ->
                    Item.str first ++ t = Item.str first ++ Item.str second).
    { intro H.
      inversion J as [| p c r t' Hgap J' | p c r t' Hgap J']; subst;
        inversion J'; subst; rewrite ?app_nil_r.
      - unfold wideGap in Hgap. congruence.
      - reflexivity. }
    split; [| split; [exact Tight |]].
    + intro H.
      inversion J as [| p c r t' Hgap J' | p c r t' Hgap J']; subst;
        inversion J'; subst; rewrite ?app_nil_r.
      * reflexivity.
      * unfold wideGap in Hgap. congruence.
    + intro H. apply Tight. apply leb_not_ltb. exact H.
Qed.

(** C7. Grouping cuts the sorted runs into lines so that a run is put on
    the line of the run before it exactly when their baselines differ, as
    computed, by less than 8: one step of the loop appends the run to the
    current line in that case and otherwise -- in particular when the
    difference is 8 or more -- closes the current line and starts a new
    one with the run; the resulting lines are the merged groups, and these
    groups are the only way to cut the runs by that rule. *)
Theorem line_grouping_tolerance :
  (forall lines c last item,
      (sameBaseline last item ->
       groupStep (lines, c ++ [last]) item
       = Some (lines, (c ++ [last]) ++ [item]))
      /\ (~ sameBaseline last item ->
          exists line,
            mergeLine (c ++ [last]) = Some line
            /\ groupStep (lines, c ++ [last]) item
               = Some (lines ++ [line], [item]))
      /\ (F64.leb (F64.ofZ 8) (baselineDifference last item) = true ->
          ~ sameBaseline last item))
  /\ (forall items,
        exists groups lines,
          Grouped items groups
          /\ (forall groups', Grouped items groups' -> groups' = groups)
          /\ groupLines items = Some lines
          /\ map mergeLine groups = map Some lines).
Proof.
  split.
  - intros lines c last item. split; [| split].
    + apply double_groupStep_join.
    + apply double_groupStep_break.
    + intros H S. unfold sameBaseline in S.
      rewrite (leb_not_ltb _ _ H) in S. discriminate S.
  - intros [| first items].
    + exists [], []. split; [constructor |].
      split; [intros g' H; inversion H; reflexivity |]. split; reflexivity.
    + destruct (double_groupLoop_Grouped items first [] [])
        as (g & gs & ls & st & G & L & C & M).
      exists (g :: gs), ls. split; [exact G |].
      split; [intros g' H; symmetry;
              exact (double_Grouped_functional _ _ G _ H) |].
      split; [| exact M].
      unfold groupLines. cbn [groupLoop groupStep rev]. cbn [app] in L.
      rewrite L. exact C.
Qed.

Lemma merge_line_spacing_sample :
  [Sample.runA; Sample.runB] <> []
  /\ leftToRight [Sample.runA; Sample.runB]
  /\ F64.leb (gapBetween Sample.runA Sample.runB) (F64.ofZ 5) = true
  /\ exists line,
       mergeLine [Sample.runA; Sample.runB] = Some line
       /\ Line.text line = js "ab".
Proof.
  assert (H : [Sample.runA; Sample.runB] <> []) by discriminate.
  assert (Hlr : leftToRight [Sample.runA; Sample.runB])
    by (split; [vm_compute; reflexivity | exact I]).
  assert (Hgap : F64.leb (gapBetween Sample.runA Sample.runB) (F64.ofZ 5)
                 = true) by (vm_compute; reflexivity).
  split; [exact H |]. split; [exact Hlr |]. split; [exact Hgap |].
  destruct (merge_line_spacing [Sample.runA; Sample.runB] H)
    as (first & rest & line & t & _ & _ & Hsame & E & _ & _ & _ & Htwo).
  exists line. split; [exact E |].
  injection (Hsame Hlr) as -> ->.
  exact (proj2 (proj2 (Htwo Sample.runB eq_refl)) Hgap).
Defined.

Lemma line_grouping_tolerance_sample :
  (sameBaseline Sample.lower Sample.lowerNext
   /\ groupStep ([], [] ++ [Sample.lower]) Sample.lowerNext
      = Some ([], ([] ++ [Sample.lower]) ++ [Sample.lowerNext]))
  /\ (F64.leb (F64.ofZ 8) (baselineDifference Sample.upper Sample.lower)
      = true
      /\ ~ sameBaseline Sample.upper Sample.lower
      /\ exists line,
           mergeLine ([] ++ [Sample.upper]) = Some line
           /\ groupStep ([], [] ++ [Sample.upper]) Sample.lower
              = Some ([] ++ [line], [Sample.lower])).
Proof.
  split.
  - assert (H : sameBaseline Sample.lower Sample.lowerNext)
      by (vm_compute; reflexivity).
    split; [exact H |].
    exact (proj1 (proj1 line_grouping_tolerance [] [] Sample.lower
                    Sample.lowerNext) H).
  - assert (H8 : F64.leb (F64.ofZ 8)
                   (baselineDifference Sample.upper Sample.lower) = true)
      by (vm_compute; reflexivity).
    pose proof (proj2 (proj2 (proj1 line_grouping_tolerance [] []
                                Sample.upper Sample.lower)) H8) as H.
    split; [exact H8 |]. split; [exact H |].
    exact (proj1 (proj2 (proj1 line_grouping_tolerance [] []
                           Sample.upper Sample.lower)) H).
Defined.

End DoubleLines.

(* ------------------------------------------------------------------ *)
(** ** The crop region over binary64 numbers *)

Section DoubleCrop.

Import Double.

(** The lines above a crop bottom have a positive bottom. *)
Lemma double_linesAbove_positive (lines : list Line.t) (cb : F64.t)
    (l : Line.t) :
  In l (linesAbove lines cb) ->
  In l lines
  /\ F64.ltb (Line.bottom l) cb = true
  /\ F64.ltb (F64.ofZ 0) (Line.bottom l) = true.
Proof.
  unfold linesAbove. rewrite double_In_stableSort, filter_In.
  rewrite andb_true_iff. tauto.
Qed.

Lemma initialCropTop_not_negative (lines : list Line.t) (cb : F64.t) :
  F64.ltb (initialCropTop lines cb) (F64.ofZ 0) = false.
Proof.
  unfold initialCropTop.
  destruct (linesAbove lines cb) as [| n rest] eqn:E;
    [apply max0_not_negative |].
  apply add_15_not_negative.
  apply (double_linesAbove_positive lines cb n).
  rewrite E. left. reflexivity.
Qed.

Lemma cropTop_not_negative (lines : list Line.t) (caption : Line.t) :
  F64.ltb (cropTop (cropRegion lines caption)) (F64.ofZ 0) = false.
Proof.
  cbn [cropRegion cropTop]. unfold finalCropTop, minimumWindow.
  destruct (F64.ltb _ (F64.ofZ 100));
    [apply max0_not_negative | apply initialCropTop_not_negative].
Qed.

(** C3. When the window computed from the line above (or from the
    fallback) is, as computed, less than 100 units high, the computed top
    is discarded and the crop top is max(0, crop bottom - 450); a window of
    height 50 is such a case.  Otherwise -- in particular for a window of
    height 100 or more -- the top is kept. *)
Theorem minimum_window_correction (lines : list Line.t) (caption : Line.t) :
  let cb := Line.y caption in
  let top := initialCropTop lines cb in
  let window := F64.sub cb top in
  let corrected := F64.max (F64.ofZ 0) (F64.sub cb (F64.ofZ 450)) in
  (F64.ltb window (F64.ofZ 100) = true ->
   cropTop (cropRegion lines caption) = corrected)
  /\ (window = F64.ofZ 50 ->
      cropTop (cropRegion lines caption) = corrected)
  /\ (F64.ltb window (F64.ofZ 100) = false ->
      cropTop (cropRegion lines caption) = top)
  /\ (F64.leb (F64.ofZ 100) window = true ->
      cropTop (cropRegion lines caption) = top).
Proof.
  cbv zeta. cbn [cropRegion cropTop]. unfold finalCropTop, minimumWindow.
  split; [| split; [| split]]; intro H.
  - rewrite H. reflexivity.
  - rewrite H. reflexivity.
  - rewrite H. reflexivity.
  - rewrite (leb_not_ltb _ _ H). reflexivity.
Qed.




(** The height of a mapped text item. *)
Lemma toItem_height_cases (raw : RawItem.t) :
  let scaled := F64.abs (F64.mul (RawItem.height raw) viewportScale) in
  let i := toItem raw in
  F64.ltb (F64.ofZ 0) (Item.height i) = true
  /\ (F64.ltb (F64.ofZ 0) scaled = true -> Item.height i = scaled)
  /\ (F64.ltb (F64.ofZ 0) scaled = false -> Item.height i = F64.ofZ 10).
Proof.
  cbv zeta. unfold toItem. cbn [Item.height].
  destruct (F64.mul (RawItem.height raw) viewportScale) as [s | s | | s m e];
    cbn; repeat split; congruence.
Qed.

(** X1. A mapped text item has a height that is strictly above 0 (it may
    be infinite): the absolute scaled height when that is above 0, and 10
    when the scaled height is 0 or NaN. *)
Theorem toItem_height (raw : RawItem.t) :
  let scaled := F64.abs (F64.mul (RawItem.height raw) viewportScale) in
  let i := toItem raw in
  F64.ltb (F64.ofZ 0) (Item.height i) = true
  /\ (F64.ltb (F64.ofZ 0) scaled = true -> Item.height i = scaled)
  /\ (F64.ltb (F64.ofZ 0) scaled = false -> Item.height i = F64.ofZ 10).
Proof. exact (toItem_height_cases raw). Qed.

Lemma minimum_window_correction_sample :
  (F64.sub (Line.y Sample.caption)
     (initialCropTop Sample.tightLines (Line.y Sample.caption))
   = F64.ofZ 50
   /\ cropTop (cropRegion Sample.tightLines Sample.caption) = F64.ofZ 50)
  /\ (F64.leb (F64.ofZ 100)
        (F64.sub (Line.y Sample.edgeCaption)
           (initialCropTop Sample.edgeLines (Line.y Sample.edgeCaption)))
      = true
      /\ cropTop (cropRegion Sample.edgeLines Sample.edgeCaption)
         = F64.add (F64.ratio 1132 10) (F64.ofZ 15)).
Proof.
  split.
  - assert (H : F64.sub (Line.y Sample.caption)
                  (initialCropTop Sample.tightLines (Line.y Sample.caption))
                = F64.ofZ 50) by (vm_compute; reflexivity).
    split; [exact H |].
    refine (eq_trans
              (proj1 (proj2
                 (minimum_window_correction Sample.tightLines Sample.caption))
                 H) _).
    vm_compute. reflexivity.
  - assert (H : F64.leb (F64.ofZ 100)
                  (F64.sub (Line.y Sample.edgeCaption)
                     (initialCropTop Sample.edgeLines
                        (Line.y Sample.edgeCaption))) = true)
      by (vm_compute; reflexivity).
    split; [exact H |].
    refine (eq_trans
              (proj2 (proj2 (proj2
                 (minimum_window_correction Sample.edgeLines
                    Sample.edgeCaption))) H) _).
    vm_compute. reflexivity.
Defined.


Lemma toItem_height_sample :
  F64.ltb (F64.ofZ 0)
    (F64.abs (F64.mul (RawItem.height Sample.flatRun) viewportScale)) = false
  /\ Item.height (toItem Sample.flatRun) = F64.ofZ 10.
Proof.
  assert (H : F64.ltb (F64.ofZ 0)
                (F64.abs (F64.mul (RawItem.height Sample.flatRun)
                            viewportScale)) = false)
    by (vm_compute; reflexivity).
  split; [exact H |].
  exact (proj2 (proj2 (toItem_height Sample.flatRun)) H).
Defined.

End DoubleCrop.

(* ------------------------------------------------------------------ *)
(** ** The document loop over binary64 numbers *)

Section DoubleDocument.

Import Double.

Variable sortItems :
  (Item.t -> Item.t -> F64.t) -> list Item.t -> list Item.t.

(** A property of every figure that the crop loop builds holds of every
    figure returned. *)
Section Invariant.

Variable P : ExtractedImage -> Prop.

Hypothesis P_made :
  forall pageNum width lbl lines caption,
    P (makeFigure pageNum width lbl (cropRegion lines caption)).

Lemma cropLoop_Forall (env : PageEnv) (pageNum : N) (lines : list Line.t)
    (captions : list Line.t) :
  forall k st,
    Forall P (extractedFigures st) ->
    Forall P (extractedFigures (fst (cropLoop env pageNum lines captions k st))).
Proof.
  induction captions as [| caption rest IH]; intros k st H; [exact H |].
  cbn [cropLoop].
  destruct (captionLabel (Line.text caption)) as [lbl |]; [| apply IH, H].
  destruct (F64.leb (cropHeight (cropRegion lines caption)) (F64.ofZ 0));
    [apply IH, H |].
  destruct (cropOutcome env k); [| apply IH, H | exact H | exact H].
  apply IH. cbn [pushFigure consoleWrite extractedFigures].
  apply Forall_app. split; [exact H |].
  constructor; [apply P_made | constructor].
Qed.

Lemma processPage_Forall (pageNum : N) (env : PageEnv) (st : State) :
  Forall P (extractedFigures st) ->
  Forall P (extractedFigures (processPage sortItems pageNum env st)).
Proof.
  intro H.
  assert (K : Forall P
                (extractedFigures (fst (pageBody sortItems pageNum env st)))).
  { unfold pageBody.
    destruct (pageItems env) as [raw |]; [| exact H].
    destruct (pageLines sortItems raw) as [lines |]; [| exact H].
    destruct (captionLines lines) as [| caption captions]; [exact H |].
    destruct (negb (pageContext env)); [exact H |].
    destruct (negb (pageRenders env)); [exact H |].
    apply cropLoop_Forall. exact H. }
  unfold processPage.
  destruct (pageBody sortItems pageNum env st) as [st' []]; exact K.
Qed.

Lemma pageLoop_Forall (pages : list PageEnv) :
  forall pageNum st,
    Forall P (extractedFigures st) ->
    Forall P (extractedFigures (pageLoop sortItems pageNum pages st)).
Proof.
  induction pages as [| env rest IH]; intros pageNum st H; [exact H |].
  cbn [pageLoop]. apply IH, processPage_Forall, H.
Qed.

Lemma extract_Forall (pdf : list PageEnv) :
  Forall P (extractedFigures (extractImagesFromPdf sortItems pdf)).
Proof. apply pageLoop_Forall. constructor. Qed.

End Invariant.

(** When every crop is drawn the loop pushes the figure of each caption
    line and ends normally. *)
Lemma double_cropLoop_drawn (env : PageEnv) (pageNum : N)
    (lines : list Line.t) :
  (forall k, cropOutcome env k = CropDrawn) ->
  forall captions k st, exists st',
    cropLoop env pageNum lines captions k st = (st', Normal)
    /\ extractedFigures st'
       = extractedFigures st
         ++ flat_map (captionFigure pageNum (viewportWidth env) lines) captions.
Proof.
  intros Hdrawn captions.
  induction captions as [| caption rest IH]; intros k st.
  - exists st. simpl. now rewrite app_nil_r.
  - cbn [cropLoop flat_map]. unfold captionFigure at 1, discarded.
    destruct (captionLabel (Line.text caption)) as [lbl |]; [| apply IH].
    destruct (F64.leb (cropHeight (cropRegion lines caption)) (F64.ofZ 0));
      [apply IH |].
    rewrite Hdrawn.
    destruct (IH (S k)
                (pushFigure
                   (makeFigure pageNum (viewportWidth env) lbl
                      (cropRegion lines caption))
                   (consoleWrite [LogExtracted lbl pageNum] st)))
      as (st' & E & F).
    exists st'. split; [exact E |].
    rewrite F. cbn [pushFigure consoleWrite extractedFigures app].
    now rewrite <- app_assoc.
Qed.

(** The figures of a page whose text is extracted and whose canvases
    work: the figure of each caption line, in the order of the lines. *)
Lemma double_pageFigures_drawn (pageNum : N) (env : PageEnv)
    (raw : list RawItem.t) (lines : list Line.t) :
  pageItems env = Some raw ->
  pageLines sortItems raw = Some lines ->
  canvasWorks env ->
  pageFigures sortItems pageNum env
  = flat_map (captionFigure pageNum (viewportWidth env) lines)
      (captionLines lines).
Proof.
  intros Eraw Elines (Ectx & Ernd & Hdrawn).
  unfold pageFigures, processPage, pageBody.
  rewrite Eraw, Elines, Ectx, Ernd. cbn [negb].
  destruct (captionLines lines) as [| caption captions]; [reflexivity |].
  destruct (double_cropLoop_drawn env pageNum lines Hdrawn
              (caption :: captions) 0%nat
              (consoleWrite
                 (map (fun l => LogCandidate pageNum (Line.text l))
                      (caption :: captions))
                 (requestPage pageNum (initialState 0)))) as (st' & E & F).
  rewrite E, F. reflexivity.
Qed.

(** A caption line with a label that is not discarded yields its
    figure. *)
Lemma captionFigure_kept (pageNum : N) (width : F64.t) (lines : list Line.t)
    (caption : Line.t) (lbl : jsstring) :
  captionLabel (Line.text caption) = Some lbl ->
  discarded lines caption = false ->
  captionFigure pageNum width lines caption
  = [makeFigure pageNum width lbl (cropRegion lines caption)].
Proof.
  intros El Hd. unfold captionFigure. rewrite El, Hd. reflexivity.
Qed.

Lemma logged_consoleWrite (es : list ConsoleEntry) (st : State) :
  logged st -> logged (consoleWrite es st).
Proof.
  intros H f Hf. cbn [consoleWrite console extractedFigures] in *.
  apply in_or_app. left. apply H, Hf.
Qed.

Lemma cropLoop_logged (env : PageEnv) (pageNum : N) (lines : list Line.t)
    (captions : list Line.t) :
  forall k st,
    logged st -> logged (fst (cropLoop env pageNum lines captions k st)).
Proof.
  induction captions as [| caption rest IH]; intros k st H; [exact H |].
  cbn [cropLoop].
  destruct (captionLabel (Line.text caption)) as [lbl |]; [| apply IH, H].
  destruct (F64.leb (cropHeight (cropRegion lines caption)) (F64.ofZ 0));
    [apply IH, H |].
  destruct (cropOutcome env k);
    [| apply IH, H | exact H | apply logged_consoleWrite, H].
  apply IH. intros f Hf.
  cbn [pushFigure consoleWrite extractedFigures console] in *.
  apply in_app_or in Hf. apply in_or_app.
  destruct Hf as [Hf | [<- | []]].
  - left. apply H, Hf.
  - right. left. reflexivity.
Qed.

Lemma processPage_logged (pageNum : N) (env : PageEnv) (st : State) :
  logged st -> logged (processPage sortItems pageNum env st).
Proof.
  intro H.
  assert (H0 : logged (requestPage pageNum st)) by exact H.
  assert (K : logged (fst (pageBody sortItems pageNum env st))).
  { unfold pageBody.
    destruct (pageItems env) as [raw |]; [| exact H0].
    destruct (pageLines sortItems raw) as [lines |]; [| exact H0].
    pose proof (logged_consoleWrite
                  (map (fun l => LogCandidate pageNum (Line.text l))
                       (captionLines lines)) _ H0) as H1.
    destruct (captionLines lines) as [| caption captions]; [exact H1 |].
    destruct (negb (pageContext env)); [exact H1 |].
    destruct (negb (pageRenders env)); [exact H1 |].
    apply cropLoop_logged. exact H1. }
  unfold processPage.
  destruct (pageBody sortItems pageNum env st) as [st' []];
    [exact K | apply logged_consoleWrite, K].
Qed.

Lemma pageLoop_logged (pages : list PageEnv) :
  forall pageNum st,
    logged st -> logged (pageLoop sortItems pageNum pages st).
Proof.
  induction pages as [| env rest IH]; intros pageNum st H; [exact H |].
  cbn [pageLoop]. apply IH, processPage_logged, H.
Qed.

Lemma logMatches_consoleWrite (es : list ConsoleEntry) (st : State) :
  extractedLog es = [] -> logMatches st -> logMatches (consoleWrite es st).
Proof.
  unfold logMatches. intros E H. cbn [consoleWrite console extractedFigures].
  rewrite extractedLog_app, E, app_nil_r. exact H.
Qed.

Lemma double_extractedLog_candidates (pageNum : N) (captions : list Line.t) :
  extractedLog (map (fun l => LogCandidate pageNum (Line.text l)) captions)
  = [].
Proof. induction captions as [| c cs IH]; [reflexivity | exact IH]. Qed.

Lemma cropLoop_logMatches (env : PageEnv) (pageNum : N) (lines : list Line.t)
    (captions : list Line.t) :
  encodes env ->
  forall k st,
    logMatches st ->
    logMatches (fst (cropLoop env pageNum lines captions k st)).
Proof.
  intro Henc.
  induction captions as [| caption rest IH]; intros k st H; [exact H |].
  cbn [cropLoop].
  destruct (captionLabel (Line.text caption)) as [lbl |]; [| apply IH, H].
  destruct (F64.leb (cropHeight (cropRegion lines caption)) (F64.ofZ 0));
    [apply IH, H |].
  destruct (cropOutcome env k) eqn:Ek;
    [| apply IH, H | exact H | destruct (Henc k Ek)].
  apply IH. unfold logMatches in *.
  cbn [pushFigure consoleWrite extractedFigures console].
  unfold figureLog in *. rewrite extractedLog_app, map_app, H. reflexivity.
Qed.

Lemma processPage_logMatches (pageNum : N) (env : PageEnv) (st : State) :
  encodes env ->
  logMatches st -> logMatches (processPage sortItems pageNum env st).
Proof.
  intros Henc H.
  assert (H0 : logMatches (requestPage pageNum st)) by exact H.
  assert (K : logMatches (fst (pageBody sortItems pageNum env st))).
  { unfold pageBody.
    destruct (pageItems env) as [raw |]; [| exact H0].
    destruct (pageLines sortItems raw) as [lines |]; [| exact H0].
    pose proof (logMatches_consoleWrite _ _
                  (double_extractedLog_candidates pageNum (captionLines lines))
                  H0) as H1.
    destruct (captionLines lines) as [| caption captions]; [exact H1 |].
    destruct (negb (pageContext env)); [exact H1 |].
    destruct (negb (pageRenders env)); [exact H1 |].
    apply cropLoop_logMatches; assumption. }
  unfold processPage.
  destruct (pageBody sortItems pageNum env st) as [st' []];
    [exact K | apply logMatches_consoleWrite; [reflexivity | exact K]].
Qed.

Lemma pageLoop_logMatches (pages : list PageEnv) :
  (forall env, In env pages -> encodes env) ->
  forall pageNum st,
    logMatches st -> logMatches (pageLoop sortItems pageNum pages st).
Proof.
  induction pages as [| env rest IH]; intros Henc pageNum st H; [exact H |].
  cbn [pageLoop]. apply IH.
  - intros e He. apply Henc. right. exact He.
  - apply processPage_logMatches; [apply Henc; left; reflexivity | exact H].
Qed.

End DoubleDocument.

Section DoubleDocumentClaims.

Import Double.

(** C10 (amended). The id of every returned figure is its page number in
    decimal, a hyphen and its label, as in "3-Figure 2".  Ids are not
    unique: when a page whose canvases all work has two caption lines
    with the same figure number and neither is discarded for its crop
    height, the page yields a figure for each, and the two have the same
    id and the same label; the page with the caption lines
    "Figure 1: overview" and "Fig. 1 (continued)" yields two figures with
    different images and the same id and label. *)
Theorem figure_id_format :
  (forall sortItems pdf f,
      In f (extractedFigures (extractImagesFromPdf sortItems pdf)) ->
      id f = numberToString (page f) ++ js "-" ++ label f)
  /\ numberToString 3 ++ js "-" ++ js "Figure 2" = js "3-Figure 2"
  /\ (forall sortItems pageNum env raw lines before c1 between c2 after lbl,
        pageItems env = Some raw ->
        pageLines sortItems raw = Some lines ->
        canvasWorks env ->
        captionLines lines = before ++ c1 :: between ++ c2 :: after ->
        captionLabel (Line.text c1) = Some lbl ->
        captionLabel (Line.text c2) = Some lbl ->
        discarded lines c1 = false ->
        discarded lines c2 = false ->
        exists f1 f2 F1 F2 F3,
          pageFigures sortItems pageNum env = F1 ++ f1 :: F2 ++ f2 :: F3
          /\ id f1 = id f2
          /\ label f1 = lbl
          /\ label f2 = lbl)
  /\ (exists f1 f2,
        extractedFigures
          (extractImagesFromPdf Sample.sortItems [Sample.twinCaptionPage])
        = [f1; f2]
        /\ src f1 <> src f2
        /\ id f1 = id f2
        /\ label f1 = label f2).
Proof.
  split; [| split; [| split]].
  - intros sortItems pdf f Hin.
    pose proof (extract_Forall sortItems
                  (fun f => id f = numberToString (page f) ++ js "-" ++ label f)
                  (fun _ _ _ _ _ => eq_refl) pdf) as H.
    rewrite Forall_forall in H. apply H. exact Hin.
  - reflexivity.
  - intros sortItems pageNum env raw lines before c1 between c2 after lbl
      Eraw Elines Hcanvas Ecap El1 El2 Hd1 Hd2.
    rewrite (double_pageFigures_drawn sortItems pageNum env raw lines
               Eraw Elines Hcanvas), Ecap.
    rewrite flat_map_app. cbn [flat_map]. rewrite flat_map_app.
    cbn [flat_map].
    rewrite (captionFigure_kept _ _ _ _ _ El1 Hd1).
    rewrite (captionFigure_kept _ _ _ _ _ El2 Hd2).
    do 5 eexists. split; [reflexivity |].
    split; [reflexivity |]. split; reflexivity.
  - eexists. eexists. split; [vm_compute; reflexivity |].
    split; [discriminate |]. split; reflexivity.
Qed.

(** C10 as stated fails.  A page with two caption lines for figure 1
    yields one figure when the first caption's top is above the page's
    top edge (that caption is discarded), although all its canvases
    work; and it yields none when no crop canvas gives a context,
    although neither caption is discarded. *)
Lemma same_number_fewer_figures :
  ~ (forall sortItems pageNum env raw lines before c1 between c2 after lbl,
        pageItems env = Some raw ->
        pageLines sortItems raw = Some lines ->
        canvasWorks env ->
        captionLines lines = before ++ c1 :: between ++ c2 :: after ->
        captionLabel (Line.text c1) = Some lbl ->
        captionLabel (Line.text c2) = Some lbl ->
        exists f1 f2 F1 F2 F3,
          pageFigures sortItems pageNum env = F1 ++ f1 :: F2 ++ f2 :: F3)
  /\ ~ (forall sortItems pageNum env raw lines before c1 between c2 after lbl,
          pageItems env = Some raw ->
          pageLines sortItems raw = Some lines ->
          captionLines lines = before ++ c1 :: between ++ c2 :: after ->
          captionLabel (Line.text c1) = Some lbl ->
          captionLabel (Line.text c2) = Some lbl ->
          discarded lines c1 = false ->
          discarded lines c2 = false ->
          exists f1 f2 F1 F2 F3,
            pageFigures sortItems pageNum env = F1 ++ f1 :: F2 ++ f2 :: F3).
Proof.
  split; intro H.
  - destruct (H Sample.sortItems 1%N Sample.edgeTwinPage _ Sample.edgeTwinLines
                [] Sample.edgeOverview [] Sample.continued []
                (js "Figure 1") eq_refl)
      as (f1 & f2 & F1 & F2 & F3 & E).
    + vm_compute. reflexivity.
    + split; [reflexivity | split; [reflexivity | intro; reflexivity]].
    + vm_compute. reflexivity.
    + vm_compute. reflexivity.
    + vm_compute. reflexivity.
    + assert (L : List.length
                    (pageFigures Sample.sortItems 1 Sample.edgeTwinPage)
                  = 1%nat) by (vm_compute; reflexivity).
      rewrite E in L. rewrite length_app in L. cbn [List.length] in L.
      rewrite length_app in L. cbn [List.length] in L. lia.
  - destruct (H Sample.sortItems 1%N Sample.contextlessPage _ Sample.twinLines
                [] Sample.overview [] Sample.continued []
                (js "Figure 1") eq_refl)
      as (f1 & f2 & F1 & F2 & F3 & E).
    + vm_compute. reflexivity.
    + vm_compute. reflexivity.
    + vm_compute. reflexivity.
    + vm_compute. reflexivity.
    + vm_compute. reflexivity.
    + vm_compute. reflexivity.
    + assert (L : List.length
                    (pageFigures Sample.sortItems 1 Sample.contextlessPage)
                  = 0%nat) by (vm_compute; reflexivity).
      rewrite E in L. rewrite length_app in L. cbn [List.length] in L. lia.
Qed.

(** X7. A crop never starts above the top edge of the page: the crop top
    of a caption line is never below 0, and neither is the top of the
    rectangle of a returned figure. *)
Theorem crop_top_not_negative :
  (forall lines caption,
      F64.ltb (cropTop (cropRegion lines caption)) (F64.ofZ 0) = false)
  /\ (forall sortItems pdf f,
        In f (extractedFigures (extractImagesFromPdf sortItems pdf)) ->
        F64.ltb (imgTop (src f)) (F64.ofZ 0) = false).
Proof.
  split; [exact cropTop_not_negative |].
  intros sortItems pdf f Hin.
  pose proof (extract_Forall sortItems
                (fun f => F64.ltb (imgTop (src f)) (F64.ofZ 0) = false)
                (fun _ _ _ lines caption => cropTop_not_negative lines caption)
                pdf) as H.
  rewrite Forall_forall in H. apply H. exact Hin.
Qed.

(** X13. Every returned figure has an "Extracted" entry on the console
    with its label and page.  When no crop throws while it is encoded,
    the "Extracted" entries are exactly those of the returned figures, in
    the same order; a crop whose encoding throws leaves an entry without
    a figure, as on the page with two captions whose second crop cannot
    be encoded. *)
Theorem extracted_entries :
  (forall sortItems pdf f,
      In f (extractedFigures (extractImagesFromPdf sortItems pdf)) ->
      In (LogExtracted (label f) (page f))
         (console (extractImagesFromPdf sortItems pdf)))
  /\ (forall sortItems pdf,
        (forall env, In env pdf -> encodes env) ->
        extractedLog (console (extractImagesFromPdf sortItems pdf))
        = figureLog (extractedFigures (extractImagesFromPdf sortItems pdf)))
  /\ (let final :=
        extractImagesFromPdf Sample.sortItems [Sample.unencodedPage] in
      extractedLog (console final)
      = [(js "Figure 1", 1%N); (js "Figure 1", 1%N)]
      /\ figureLog (extractedFigures final) = [(js "Figure 1", 1%N)]
      /\ errorLog (console final) = [1%N]).
Proof.
  split; [| split].
  - intros sortItems pdf. unfold extractImagesFromPdf.
    apply pageLoop_logged. intros f [].
  - intros sortItems pdf Henc. unfold extractImagesFromPdf.
    apply (pageLoop_logMatches sortItems pdf Henc). reflexivity.
  - vm_compute. repeat split; reflexivity.
Qed.

Lemma figure_id_format_sample :
  (pageLines Sample.sortItems
     [Sample.run "Figure 1: overview" (F64.ofZ 72) (F64.ofZ 300) (F64.ofZ 60);
      Sample.run "Fig. 1 (continued)" (F64.ofZ 72) (F64.ofZ 700) (F64.ofZ 60)]
   = Some Sample.twinLines
   /\ canvasWorks Sample.twinCaptionPage
   /\ captionLines Sample.twinLines = Sample.twinLines
   /\ Forall (fun c => discarded Sample.twinLines c = false) Sample.twinLines)
  /\ exists f1 f2 F1 F2 F3,
       pageFigures Sample.sortItems 1 Sample.twinCaptionPage
       = F1 ++ f1 :: F2 ++ f2 :: F3
       /\ id f1 = id f2
       /\ label f1 = js "Figure 1"
       /\ label f2 = js "Figure 1".
Proof.
  assert (Hl : pageLines Sample.sortItems
                 [Sample.run "Figure 1: overview" (F64.ofZ 72) (F64.ofZ 300)
                    (F64.ofZ 60);
                  Sample.run "Fig. 1 (continued)" (F64.ofZ 72) (F64.ofZ 700)
                    (F64.ofZ 60)]
               = Some Sample.twinLines) by (vm_compute; reflexivity).
  assert (Hc : canvasWorks Sample.twinCaptionPage)
    by (split; [reflexivity | split; [reflexivity | intro; reflexivity]]).
  assert (Hcap : captionLines Sample.twinLines = Sample.twinLines)
    by (vm_compute; reflexivity).
  assert (Hd : Forall (fun c => discarded Sample.twinLines c = false)
                 Sample.twinLines)
    by (repeat constructor; vm_compute; reflexivity).
  split; [split; [exact Hl | split; [exact Hc | split; [exact Hcap | exact Hd]]] |].
  refine (proj1 (proj2 (proj2 figure_id_format))
            Sample.sortItems 1%N Sample.twinCaptionPage _ Sample.twinLines
            [] Sample.overview [] Sample.continued []
            (js "Figure 1") eq_refl Hl Hc Hcap _ _ _ _);
    vm_compute; reflexivity.
Defined.

Lemma extracted_entries_sample :
  (forall env, In env [Sample.twinCaptionPage] -> encodes env)
  /\ extractedLog
       (console (extractImagesFromPdf Sample.sortItems
                   [Sample.twinCaptionPage]))
     = [(js "Figure 1", 1%N); (js "Figure 1", 1%N)].
Proof.
  assert (H : forall env, In env [Sample.twinCaptionPage] -> encodes env)
    by (intros env [<- | []] k; discriminate).
  split; [exact H |].
  refine (eq_trans
            (proj1 (proj2 extracted_entries) Sample.sortItems
               [Sample.twinCaptionPage] H) _).
  vm_compute. reflexivity.
Defined.

End DoubleDocumentClaims.
